(** * MultipartReader: a streaming multipart/form-data encoder

    Shallow embedding of the Go package [multipartreader]
    (pikoUsername/MultipartReader) and the properties of its stream
    assembler.

    The embedded revision is the one that carries both the multipart
    writer and the running total length (struct fields [contentType],
    [boundary], [writer], [readers], [length], [multiReader], [count]).
    The sibling revisions are embedded where they differ: [AddFile]
    (takes an open file, never closes it), the constructor of the later
    revision ([Rev2.New]) and its [AddFields], and the original
    revision, which has no writer ([Original]).

    Go values are modelled as follows.
    - [string] is a Rocq [string]; [[]byte] and stream contents are
      [list byte]; [int64] is [Z] with the wrap-around written out.
    - Every [io.Reader] the package handles is a pointer to a mutable
      object; readers are therefore addresses into a heap of objects
      ([bytes.Buffer], [bytes.Reader], [strings.Reader], [os.File]), so
      that one reader appended twice, or a file closed behind the
      assembler's back, behaves as it does in Go.
    - A function that can panic (index out of range, nil dereference)
      returns [option]; [None] is the panic.  A Go [error] result is an
      [option error]; [None] is [nil]. *)

From Stdlib Require Import ZArith Lia Ascii String Strings.Byte.
From stdpp Require Import base tactics option list strings.

(** ** Go strings and bytes *)

Definition CR : ascii := "013"%char.
Definition LF : ascii := "010"%char.
Definition CRLF : string := String CR (String LF EmptyString).
Definition DQUOTE : ascii := "034"%char.
Definition BACKSLASH : ascii := "092"%char.

(** [[]byte(s)] *)
Definition bytes_of (s : string) : list byte := list_byte_of_string s.

(** [len(s)] as a Go [int] *)
Definition len (s : string) : Z := Z.of_nat (String.length s).

(** [int64] arithmetic wraps around. *)
Definition wrap64 (z : Z) : Z :=
  ((z + 2 ^ 63) mod 2 ^ 64 - 2 ^ 63)%Z.

Definition add64 (a b : Z) : Z := wrap64 (a + b).

(** [strings.ContainsAny(s, chars)] *)
Fixpoint mem_ascii (c : ascii) (chars : string) : bool :=
  match chars with
  | EmptyString => false
  | String d rest => if Ascii.eqb c d then true else mem_ascii c rest
  end.

Fixpoint ContainsAny (s chars : string) : bool :=
  match s with
  | EmptyString => false
  | String c rest => if mem_ascii c chars then true else ContainsAny rest chars
  end.

(** [fmt.Sprintf("%x", buf)]: two lower-case hexadecimal digits per byte. *)
Definition ldigits : string := "0123456789abcdef".

Definition hexdigit (n : N) : ascii :=
  match String.get (N.to_nat n) ldigits with
  | Some c => c
  | None => "?"%char
  end.

Definition hex_of_byte (b : byte) : string :=
  let n := Byte.to_N b in
  String (hexdigit (n / 16)) (String (hexdigit (n mod 16)) EmptyString).

Fixpoint Sprintf_x (buf : list byte) : string :=
  match buf with
  | [] => EmptyString
  | b :: rest => hex_of_byte b +:+ Sprintf_x rest
  end.

(** ** Errors *)

Inductive error : Type :=
| EOF                                  (* io.EOF *)
| ErrClosed (op path : string)         (* &PathError{op, path, os.ErrClosed} *)
| ErrNotExist (op path : string)       (* &PathError{op, path, ENOENT} *)
| ErrSetBoundaryAfterWrite             (* "mime: SetBoundary called after write" *)
| ErrInvalidBoundaryLength             (* "mime: invalid boundary length" *)
| ErrInvalidBoundaryCharacter          (* "mime: invalid boundary character" *)
| ErrFinishedPart.                     (* "multipart: can't write to finished part" *)

Definition error_eqb (a b : error) : bool :=
  match a, b with
  | EOF, EOF => true
  | ErrClosed o p, ErrClosed o' p' => String.eqb o o' && String.eqb p p'
  | ErrNotExist o p, ErrNotExist o' p' => String.eqb o o' && String.eqb p p'
  | ErrSetBoundaryAfterWrite, ErrSetBoundaryAfterWrite => true
  | ErrInvalidBoundaryLength, ErrInvalidBoundaryLength => true
  | ErrInvalidBoundaryCharacter, ErrInvalidBoundaryCharacter => true
  | ErrFinishedPart, ErrFinishedPart => true
  | _, _ => false
  end.

(** [err == io.EOF] *)
Definition isEOF (e : option error) : bool :=
  match e with
  | Some EOF => true
  | _ => false
  end.

(** ** The heap of reader objects *)

Abbreviation addr := nat.

Inductive Object : Type :=
| BytesBuffer (buf : list byte)                 (* bytes.Buffer: the unread bytes *)
| BytesReader (s : list byte) (i : nat)         (* bytes.Reader *)
| StringsReader (s : list byte) (i : nat)       (* strings.Reader *)
| File (name : string) (data : list byte) (off : nat) (closed : bool). (* os.File *)

Abbreviation Heap := (list Object).

(** Allocation returns the address of the new object. *)
Definition alloc (o : Object) (h : Heap) : addr * Heap := (length h, h ++ [o]).

(** [r.Read(p)] with [n = len(p)], for each concrete reader type.
    The result carries the bytes copied into [p]. *)
Definition Object_Read (o : Object) (n : nat)
  : (list byte * option error) * Object :=
  match o with
  | BytesBuffer buf =>
      match buf with
      | [] => if Nat.eqb n 0 then (([], None), o) else (([], Some EOF), o)
      | _ :: _ => ((take n buf, None), BytesBuffer (drop n buf))
      end
  | BytesReader s i =>
      if Nat.leb (length s) i then (([], Some EOF), o)
      else let bs := take n (drop i s) in
           ((bs, None), BytesReader s (i + length bs))
  | StringsReader s i =>
      if Nat.leb (length s) i then (([], Some EOF), o)
      else let bs := take n (drop i s) in
           ((bs, None), StringsReader s (i + length bs))
  | File name data off closed =>
      if closed then (([], Some (ErrClosed "read" name)), o)
      else if Nat.eqb n 0 then (([], None), o)
      else match drop off data with
           | [] => (([], Some EOF), o)
           | _ :: _ =>
               let bs := take n (drop off data) in
               ((bs, None), File name data (off + length bs) closed)
           end
  end.

(** Calling [Read] through an [io.Reader]; a nil reader panics. *)
Definition reader_Read (h : Heap) (r : addr) (n : nat)
  : option ((list byte * option error) * Heap) :=
  match h !! r with
  | None => None
  | Some o => let '(res, o') := Object_Read o n in Some (res, <[r := o']> h)
  end.

(** [w.Write(p)] on a [bytes.Buffer]; nothing else is ever written to. *)
Definition buffer_Write (h : Heap) (w : addr) (p : list byte) : option Heap :=
  match h !! w with
  | Some (BytesBuffer buf) => Some (<[w := BytesBuffer (buf ++ p)]> h)
  | _ => None
  end.

(** [f.Close()]; the error of a second close is dropped by every caller. *)
Definition file_Close (h : Heap) (f : addr) : Heap :=
  match h !! f with
  | Some (File name data off _) => <[f := File name data off true]> h
  | _ => h
  end.

(** The bytes a reader has yet to deliver, and the reader once they
    have all been taken. *)
Definition remaining (o : Object) : list byte :=
  match o with
  | BytesBuffer buf => buf
  | BytesReader s i => drop i s
  | StringsReader s i => drop i s
  | File _ data off _ => drop off data
  end.

Definition exhaust (o : Object) : Object :=
  match o with
  | BytesBuffer _ => BytesBuffer []
  | BytesReader s i => BytesReader s (i + length (drop i s))
  | StringsReader s i => StringsReader s (i + length (drop i s))
  | File name data off cl => File name data (off + length (drop off data)) cl
  end.

(** ** io.MultiReader

    [io.MultiReader(readers...)] copies the slice it is given; the value
    below is that private copy, shortened from the front as readers
    reach EOF. *)

Definition MultiReader (readers : list addr) : list addr := readers.

Fixpoint multiReader_Read (rs : list addr) (h : Heap) (n : nat)
  : option ((list byte * option error) * list addr * Heap) :=
  match rs with
  | [] => Some (([], Some EOF), [], h)
  | r :: rest =>
      match reader_Read h r n with
      | None => None
      | Some ((bs, err), h') =>
          if isEOF err then
            match bs, rest with
            | [], _ => multiReader_Read rest h' n
            | _ :: _, [] => Some ((bs, Some EOF), rest, h')
            | _ :: _, _ :: _ => Some ((bs, None), rest, h')
            end
          else Some ((bs, err), r :: rest, h')
      end
  end.

(** ** mime/multipart.Writer, as far as the package drives it *)

Record Part : Type := mkPart { closed : bool }.

Record Writer : Type := mkWriter {
  w : addr;                      (* the io.Writer: the body buffer *)
  w_boundary : string;
  lastpart : option Part
}.

(** [randomBoundary]: thirty bytes of [crypto/rand] printed with [%x].
    [rnd] is the random source; [rnd i] is the i-th byte it delivers. *)
Definition randomBoundary (rnd : nat -> byte) : string :=
  Sprintf_x (map rnd (seq 0 30)).

Definition NewWriter (rnd : nat -> byte) (out : addr) : Writer :=
  {| w := out; w_boundary := randomBoundary rnd; lastpart := None |}.

Definition Writer_Boundary (wr : Writer) : string := w_boundary wr.

Definition tspecials : string :=
  "()<>@,;:" +:+ String BACKSLASH (String DQUOTE "/[]?= ").

Definition quoted (s : string) : string :=
  String DQUOTE s +:+ String DQUOTE EmptyString.

Definition FormDataContentType (wr : Writer) : string :=
  let b := w_boundary wr in
  let b := if ContainsAny b tspecials then quoted b else b in
  "multipart/form-data; boundary=" +:+ b.

(** The character test of [Writer.SetBoundary]; [last] tells whether
    the character is the final one. *)
Definition boundary_char_ok (c : ascii) (last : bool) : bool :=
  let n := nat_of_ascii c in
  if ((65 <=? n) && (n <=? 90) || (97 <=? n) && (n <=? 122)
      || (48 <=? n) && (n <=? 57))%nat then true
  else if mem_ascii c "'()+_,-./:=?" then true
  else if Ascii.eqb c " " then negb last
  else false.

Fixpoint boundary_chars_ok (s : string) : bool :=
  match s with
  | EmptyString => true
  | String c rest =>
      boundary_char_ok c (match rest with EmptyString => true | _ => false end)
      && boundary_chars_ok rest
  end.

Definition Writer_SetBoundary (b : string) (wr : Writer)
  : option error * Writer :=
  match lastpart wr with
  | Some _ => (Some ErrSetBoundaryAfterWrite, wr)
  | None =>
      if ((len b <? 1) || (70 <? len b))%Z
      then (Some ErrInvalidBoundaryLength, wr)
      else if negb (boundary_chars_ok b)
      then (Some ErrInvalidBoundaryCharacter, wr)
      else (None, {| w := w wr; w_boundary := b; lastpart := lastpart wr |})
  end.

Fixpoint escapeQuotes (s : string) : string :=
  match s with
  | EmptyString => EmptyString
  | String c rest =>
      if Ascii.eqb c BACKSLASH
      then String BACKSLASH (String BACKSLASH (escapeQuotes rest))
      else if Ascii.eqb c DQUOTE
      then String BACKSLASH (String DQUOTE (escapeQuotes rest))
      else String c (escapeQuotes rest)
  end.

(** [Writer.CreatePart]: closes the previous part, writes the delimiter,
    the header lines (already sorted by key) and the blank line. *)
Definition CreatePart (header : list (string * string)) (wr : Writer) (h : Heap)
  : option (Writer * Heap) :=
  let delim :=
    match lastpart wr with
    | Some _ => CRLF +:+ "--" +:+ w_boundary wr +:+ CRLF
    | None => "--" +:+ w_boundary wr +:+ CRLF
    end in
  let lines :=
    foldr (fun kv acc => fst kv +:+ ": " +:+ snd kv +:+ CRLF +:+ acc)
          EmptyString header in
  match buffer_Write h (w wr) (bytes_of (delim +:+ lines +:+ CRLF)) with
  | None => None
  | Some h' =>
      Some ({| w := w wr; w_boundary := w_boundary wr;
               lastpart := Some {| closed := false |} |}, h')
  end.

Definition CreateFormField (fieldname : string) (wr : Writer) (h : Heap)
  : option (Writer * Heap) :=
  CreatePart
    [("Content-Disposition",
      "form-data; name=" +:+ quoted (escapeQuotes fieldname))] wr h.

Definition CreateFormFile (fieldname filename : string) (wr : Writer) (h : Heap)
  : option (Writer * Heap) :=
  CreatePart
    [("Content-Disposition",
      "form-data; name=" +:+ quoted (escapeQuotes fieldname)
      +:+ "; filename=" +:+ quoted (escapeQuotes filename));
     ("Content-Type", "application/octet-stream")] wr h.

(** [part.Write(d)] on the part that [CreatePart] just returned. *)
Definition part_Write (wr : Writer) (h : Heap) (d : list byte)
  : option (option error * Heap) :=
  match lastpart wr with
  | Some p =>
      if closed p then Some (Some ErrFinishedPart, h)
      else match buffer_Write h (w wr) d with
           | None => None
           | Some h' => Some (None, h')
           end
  | None => None
  end.

(** [Writer.Close]: finishes the last part and writes the trailer. *)
Definition Writer_Close (wr : Writer) (h : Heap) : option (Writer * Heap) :=
  match buffer_Write h (w wr)
          (bytes_of (CRLF +:+ "--" +:+ w_boundary wr +:+ "--" +:+ CRLF)) with
  | None => None
  | Some h' =>
      Some ({| w := w wr; w_boundary := w_boundary wr; lastpart := None |}, h')
  end.

(** ** The file system and os.File *)

Definition FileSystem : Type := string -> option (list byte).

(** [os.Open(name)] *)
Definition os_Open (fs : FileSystem) (name : string) (h : Heap)
  : error + (addr * Heap) :=
  match fs name with
  | None => inl (ErrNotExist "open" name)
  | Some data => inr (alloc (File name data 0 false) h)
  end.

(** [f.Stat()] followed by [.Size()] and [.Name()]: the outer [option]
    is the nil dereference, the sum the error result. *)
Definition file_Stat (h : Heap) (f : addr) : option (error + (string * Z)) :=
  match h !! f with
  | Some (File name data _ cl) =>
      if cl then Some (inl (ErrClosed "stat" name))
      else Some (inr (name, Z.of_nat (length data)))
  | _ => None
  end.

(** The last element of a slash-separated path ([FileInfo.Name]). *)
Fixpoint basename_aux (s acc : string) : string :=
  match s with
  | EmptyString => acc
  | String c rest =>
      if Ascii.eqb c "/" then basename_aux rest EmptyString
      else basename_aux rest (acc +:+ String c EmptyString)
  end.

Definition basename (s : string) : string := basename_aux s EmptyString.

(** ** Go slices *)

(** [s[:hi]]; panics unless [0 <= hi <= len(s)] (the capacity is never
    larger than the length where the package slices). *)
Definition slice_to {A} (s : list A) (hi : Z) : option (list A) :=
  if (hi <? 0)%Z then None
  else if (Z.of_nat (length s) <? hi)%Z then None
  else Some (take (Z.to_nat hi) s).

(** [s[i]]; panics unless [0 <= i < len(s)]. *)
Definition index {A} (s : list A) (i : Z) : option A :=
  if (i <? 0)%Z then None else s !! Z.to_nat i.

(** ** The MultipartReader *)

Record MultipartReader : Type := mkMultipartReader {
  contentType : string;
  boundary : string;
  writer : option Writer;             (* *multipart.Writer; None is nil *)
  readers : list addr;                (* []io.Reader *)
  length_ : Z;                        (* the field length, an int64 *)
  multiReader : option (list addr);   (* io.Reader; None is nil *)
  count : Z                           (* int64 *)
}.

(** The zero value [MultipartReader{}]. *)
Definition zero_MultipartReader : MultipartReader :=
  {| contentType := EmptyString; boundary := EmptyString; writer := None;
     readers := []; length_ := 0; multiReader := None; count := 0 |}.

Definition formClose (b : string) : string :=
  CRLF +:+ "--" +:+ b +:+ "--" +:+ CRLF.

(** [bodyReader.Len()] *)
Definition Buffer_Len (h : Heap) (a : addr) : Z :=
  match h !! a with
  | Some (BytesBuffer buf) => Z.of_nat (length buf)
  | _ => 0
  end.

(** [New]: the body buffer is the writer's output and the first reader. *)
Definition New (rnd : nat -> byte) (h : Heap) : MultipartReader * Heap :=
  let '(bodyReader, h1) := alloc (BytesBuffer []) h in
  let wr := NewWriter rnd bodyReader in
  let fc := formClose (Writer_Boundary wr) in
  let '(closeReader, h2) := alloc (BytesReader (bytes_of fc) 0) h1 in
  ({| contentType := FormDataContentType wr;
      boundary := Writer_Boundary wr;
      writer := Some wr;
      readers := [bodyReader; closeReader];
      length_ := wrap64 (Buffer_Len h1 bodyReader + len fc);
      multiReader := None;
      count := 0 |}, h2).

(** [SetBoundary]: delegates to the writer and touches nothing else. *)
Definition SetBoundary (b : string) (mr : MultipartReader)
  : option (option error * MultipartReader) :=
  match writer mr with
  | None => None
  | Some wr =>
      let '(err, wr') := Writer_SetBoundary b wr in
      Some (err, {| contentType := contentType mr; boundary := boundary mr;
                    writer := Some wr'; readers := readers mr;
                    length_ := length_ mr; multiReader := multiReader mr;
                    count := count mr |})
  end.

(** [AddReader]:
    [i := len(mr.readers);
     mr.readers = append(mr.readers[:i-1], r, mr.readers[i-1]);
     mr.length = mr.length + length] *)
Definition AddReader (r : addr) (length : Z) (mr : MultipartReader)
  : option MultipartReader :=
  let i := Z.of_nat (List.length (readers mr)) in
  match slice_to (readers mr) (i - 1), index (readers mr) (i - 1) with
  | Some init, Some lst =>
      Some {| contentType := contentType mr; boundary := boundary mr;
              writer := writer mr;
              readers := init ++ [r; lst];
              length_ := add64 (length_ mr) length;
              multiReader := multiReader mr; count := count mr |}
  | _, _ => None
  end.

(** The part header both [AddFormReader] and the file functions print. *)
Definition formHeader (b name filename : string) : string :=
  "--" +:+ b +:+ CRLF +:+ "Content-Disposition: form-data; name="
  +:+ quoted name +:+ "; filename=" +:+ quoted filename +:+ CRLF +:+ CRLF.

Definition AddFormReader (name filename : string) (length : Z) (r : addr)
    (mr : MultipartReader) (h : Heap) : option (MultipartReader * Heap) :=
  let form := formHeader (boundary mr) name filename in
  let '(fr, h1) := alloc (StringsReader (bytes_of form) 0) h in
  match AddReader fr (len form) mr with
  | None => None
  | Some mr1 =>
      match AddReader r length mr1 with
      | None => None
      | Some mr2 => Some (mr2, h1)
      end
  end.

(** [WriteFields]; [fields] lists the map in the order the [range]
    loop happens to visit it. *)
Fixpoint WriteFields_loop (fields : list (string * string)) (wr : Writer)
    (h : Heap) : option (option error * Writer * Heap) :=
  match fields with
  | [] => Some (None, wr, h)
  | (key, value) :: rest =>
      match CreateFormField key wr h with
      | None => None
      | Some (wr1, h1) =>
          match part_Write wr1 h1 (bytes_of value) with
          | None => None
          | Some (Some e, h2) => Some (Some e, wr1, h2)
          | Some (None, h2) => WriteFields_loop rest wr1 h2
          end
      end
  end.

Definition with_writer (mr : MultipartReader) (wr : Writer) : MultipartReader :=
  {| contentType := contentType mr; boundary := boundary mr;
     writer := Some wr; readers := readers mr; length_ := length_ mr;
     multiReader := multiReader mr; count := count mr |}.

Definition WriteFields (fields : list (string * string))
    (mr : MultipartReader) (h : Heap)
  : option (option error * MultipartReader * Heap) :=
  match fields, writer mr with
  | [], _ => Some (None, mr, h)
  | _ :: _, None => None
  | _ :: _, Some wr =>
      match WriteFields_loop fields wr h with
      | None => None
      | Some (err, wr', h') => Some (err, with_writer mr wr', h')
      end
  end.

(** [WriteFile]: opens the file, defers its [Close], appends the header
    and the file, and returns -- at which point the deferred call runs. *)
Definition WriteFile (fs : FileSystem) (key filename : string)
    (mr : MultipartReader) (h : Heap)
  : option (option error * MultipartReader * Heap) :=
  match os_Open fs filename h with
  | inl err => Some (Some err, mr, h)
  | inr (f, h1) =>
      match file_Stat h1 f with
      | None => None
      | Some (inl err) => Some (Some err, mr, file_Close h1 f)
      | Some (inr (name, size)) =>
          let form := formHeader (boundary mr) "file" name in
          let '(fr, h2) := alloc (StringsReader (bytes_of form) 0) h1 in
          match AddReader fr (len form) mr with
          | None => None
          | Some mr1 =>
              match AddReader f size mr1 with
              | None => None
              | Some mr2 => Some (None, mr2, file_Close h2 f)
              end
          end
      end
  end.

(** [AddFile] of the sibling revision: the caller passes the open file,
    and nothing closes it. *)
Definition AddFile (file : addr) (mr : MultipartReader) (h : Heap)
  : option (option error * MultipartReader * Heap) :=
  match file_Stat h file with
  | None => None
  | Some (inl err) => Some (Some err, mr, h)
  | Some (inr (name, size)) =>
      let form := formHeader (boundary mr) "file" (basename name) in
      let '(fr, h1) := alloc (StringsReader (bytes_of form) 0) h in
      match AddReader fr (len form) mr with
      | None => None
      | Some mr1 =>
          match AddReader file size mr1 with
          | None => None
          | Some mr2 => Some (None, mr2, h1)
          end
      end
  end.

(** [io.Copy(fw, r)] into the current part. *)
Definition Copy_to_part (wr : Writer) (r : addr) (h : Heap)
  : option (option error * Heap) :=
  match h !! r with
  | None => None
  | Some (File name _ _ true) => Some (Some (ErrClosed "read" name), h)
  | Some o =>
      match part_Write wr h (remaining o) with
      | None => None
      | Some (Some e, h1) => Some (Some e, h1)
      | Some (None, h1) =>
          match h1 !! r with
          | None => None
          | Some o1 => Some (None, <[r := exhaust o1]> h1)
          end
      end
  end.

(** The type assertion of a reader to an [os.File]: its name, if so. *)
Definition is_File (h : Heap) (r : addr) : option string :=
  match h !! r with
  | Some (File name _ _ _) => Some name
  | _ => None
  end.

(** [AddValuesReader]: every value is copied into the body buffer
    through the writer; values that are closers (files) are closed when
    the function returns.  [values] lists the map in visiting order. *)
Fixpoint AddValuesReader_loop (values : list (string * addr)) (wr : Writer)
    (h : Heap) : option (option error * Writer * Heap) :=
  match values with
  | [] => Some (None, wr, h)
  | (key, r) :: rest =>
      let created :=
        match is_File h r with
        | Some name => CreateFormFile key name wr h
        | None => CreateFormField key wr h
        end in
      match created with
      | None => None
      | Some (wr1, h1) =>
          match Copy_to_part wr1 r h1 with
          | None => None
          | Some (Some e, h2) => Some (Some e, wr1, file_Close h2 r)
          | Some (None, h2) =>
              match AddValuesReader_loop rest wr1 h2 with
              | None => None
              | Some (err, wr2, h3) => Some (err, wr2, file_Close h3 r)
              end
          end
      end
  end.

Definition AddValuesReader (values : list (string * addr))
    (mr : MultipartReader) (h : Heap)
  : option (option error * MultipartReader * Heap) :=
  match values, writer mr with
  | [], _ => Some (None, mr, h)
  | _ :: _, None => None
  | _ :: _, Some wr =>
      match AddValuesReader_loop values wr h with
      | None => None
      | Some (err, wr', h') => Some (err, with_writer mr wr', h')
      end
  end.

(** [GetMultiReader]: builds the multi-reader once, from a copy of the
    readers slice as it is at that moment. *)
Definition GetMultiReader (mr : MultipartReader)
  : list addr * MultipartReader :=
  match multiReader mr with
  | Some rs => (rs, mr)
  | None =>
      let rs := MultiReader (readers mr) in
      (rs, {| contentType := contentType mr; boundary := boundary mr;
              writer := writer mr; readers := readers mr;
              length_ := length_ mr; multiReader := Some rs;
              count := count mr |})
  end.

(** The request body: [ioutil.NopCloser] around the multi-reader. *)
Inductive ReadCloser : Type := NopCloser_multiReader.

Definition GetCloseReader (mr : MultipartReader)
  : ReadCloser * MultipartReader :=
  let '(_, mr') := GetMultiReader mr in (NopCloser_multiReader, mr').

Record Request : Type := mkRequest {
  Body : option ReadCloser;
  Header : list (string * string);
  ContentLength : Z
}.

Definition SetupRequest (req : Request) (mr : MultipartReader)
  : Request * MultipartReader :=
  let '(body, mr') := GetCloseReader mr in
  ({| Body := Some body;
      Header := Header req ++ [("Content-Type", contentType mr')];
      ContentLength := length_ mr' |}, mr').

(** [Read]: reads from the multi-reader and adds [n] to the counter. *)
Definition Read (n : nat) (mpr : MultipartReader) (h : Heap)
  : option ((list byte * option error) * MultipartReader * Heap) :=
  let '(rs, mpr1) := GetMultiReader mpr in
  match multiReader_Read rs h n with
  | None => None
  | Some ((bs, err), rs', h') =>
      Some ((bs, err),
            {| contentType := contentType mpr1; boundary := boundary mpr1;
               writer := writer mpr1; readers := readers mpr1;
               length_ := length_ mpr1; multiReader := Some rs';
               count := add64 (count mpr1) (Z.of_nat (length bs)) |},
            h')
  end.

Definition Close (mpr : MultipartReader) (h : Heap)
  : option (option error * MultipartReader * Heap) :=
  match writer mpr with
  | None => None
  | Some wr =>
      match Writer_Close wr h with
      | None => None
      | Some (wr', h') => Some (None, with_writer mpr wr', h')
      end
  end.

Definition Count (mr : MultipartReader) : Z := count mr.
Definition Boundary (mr : MultipartReader) : string := boundary mr.
Definition ContentType (mr : MultipartReader) : string := contentType mr.

(** The constructor of the later revision: the readers slice does not
    contain the writer's buffer but a [strings.Reader] over its (empty)
    content at construction time. *)
Module Rev2.
Definition New (rnd : nat -> byte) (h : Heap) : MultipartReader * Heap :=
  let '(buf, h1) := alloc (BytesBuffer []) h in
  let wr := NewWriter rnd buf in
  let formBody := remaining (BytesBuffer []) in
  let fc := formClose (Writer_Boundary wr) in
  let '(bodyReader, h2) := alloc (StringsReader formBody 0) h1 in
  let '(closeReader, h3) := alloc (StringsReader (bytes_of fc) 0) h2 in
  ({| contentType := FormDataContentType wr;
      boundary := Writer_Boundary wr;
      writer := Some wr;
      readers := [bodyReader; closeReader];
      length_ := wrap64 (Z.of_nat (length formBody) + len fc);
      multiReader := None;
      count := 0 |}, h3).
End Rev2.

(** ** Consuming the stream

    The consumer calls [Read] with a buffer of [n] bytes until it gets
    an error ([io.EOF] at the end).  [fuel] bounds the number of calls;
    [None] means the bound was reached, [Some None] a panic. *)

Definition Drained (S : Type) : Type := option (option (list byte * error * S)).

Fixpoint drain (fuel n : nat) (mr : MultipartReader) (h : Heap)
  : Drained (MultipartReader * Heap) :=
  match fuel with
  | O => None
  | S fuel' =>
      match Read n mr h with
      | None => Some None
      | Some ((bs, Some e), mr', h') => Some (Some (bs, e, (mr', h')))
      | Some ((bs, None), mr', h') =>
          match drain fuel' n mr' h' with
          | Some (Some (bs', e, s)) => Some (Some (bs ++ bs', e, s))
          | other => other
          end
      end
  end.

(** The transport reads the request body, that is the multi-reader
    itself, the same way. *)
Fixpoint drain_body (fuel n : nat) (rs : list addr) (h : Heap)
  : Drained (list addr * Heap) :=
  match fuel with
  | O => None
  | S fuel' =>
      match multiReader_Read rs h n with
      | None => Some None
      | Some ((bs, Some e), rs', h') => Some (Some (bs, e, (rs', h')))
      | Some ((bs, None), rs', h') =>
          match drain_body fuel' n rs' h' with
          | Some (Some (bs', e, s)) => Some (Some (bs ++ bs', e, s))
          | other => other
          end
      end
  end.

(** ** What a list of readers has left to deliver *)

(** A closed file answers every [Read] with an error; everything else
    delivers its remaining bytes and then [io.EOF]. *)
Definition read_error (o : Object) : option error :=
  match o with
  | File name _ _ true => Some (ErrClosed "read" name)
  | _ => None
  end.

Definition content (h : Heap) (r : addr) : list byte :=
  match h !! r with
  | Some o => remaining o
  | None => []
  end.

Definition live (h : Heap) (r : addr) : Prop :=
  exists o, h !! r = Some o /\ read_error o = None.

(** The bytes and the final error a consumer gets from the readers
    [rs], read one after the other. *)
Fixpoint stream_result (h : Heap) (rs : list addr) : list byte * error :=
  match rs with
  | [] => ([], EOF)
  | r :: rest =>
      match h !! r with
      | None => ([], EOF)
      | Some o =>
          match read_error o with
          | Some e => ([], e)
          | None =>
              let '(bs, e) := stream_result h rest in (remaining o ++ bs, e)
          end
      end
  end.

Definition allocated (h : Heap) (r : addr) : Prop := r < length h.

(** The bytes and the error of a drained stream, without the state. *)
Definition outcome {S} (d : Drained S) : option (option (list byte * error)) :=
  match d with
  | None => None
  | Some None => Some None
  | Some (Some (bs, e, _)) => Some (Some (bs, e))
  end.

(** ** The package as a state machine

    A caller holds one assembler and issues calls on it; [exec] runs one
    call, [run] a sequence of calls. *)

Inductive Call : Type :=
| CallSetBoundary (b : string)
| CallAddReader (r : addr) (length : Z)
| CallAddFormReader (name filename : string) (length : Z) (r : addr)
| CallAddValuesReader (values : list (string * addr))
| CallWriteFields (fields : list (string * string))
| CallWriteFile (key filename : string)
| CallAddFile (file : addr)
| CallSetupRequest (req : Request)
| CallRead (n : nat)
| CallClose
| CallGetMultiReader.

Inductive Returned : Type :=
| RetVoid
| RetErr (err : option error)
| RetRead (bs : list byte) (err : option error)
| RetRequest (req : Request).

Definition exec (fs : FileSystem) (c : Call) (mr : MultipartReader) (h : Heap)
  : option (Returned * MultipartReader * Heap) :=
  match c with
  | CallSetBoundary b =>
      match SetBoundary b mr with
      | None => None
      | Some (err, mr') => Some (RetErr err, mr', h)
      end
  | CallAddReader r length =>
      match AddReader r length mr with
      | None => None
      | Some mr' => Some (RetVoid, mr', h)
      end
  | CallAddFormReader name filename length r =>
      match AddFormReader name filename length r mr h with
      | None => None
      | Some (mr', h') => Some (RetVoid, mr', h')
      end
  | CallAddValuesReader values =>
      match AddValuesReader values mr h with
      | None => None
      | Some (err, mr', h') => Some (RetErr err, mr', h')
      end
  | CallWriteFields fields =>
      match WriteFields fields mr h with
      | None => None
      | Some (err, mr', h') => Some (RetErr err, mr', h')
      end
  | CallWriteFile key filename =>
      match WriteFile fs key filename mr h with
      | None => None
      | Some (err, mr', h') => Some (RetErr err, mr', h')
      end
  | CallAddFile file =>
      match AddFile file mr h with
      | None => None
      | Some (err, mr', h') => Some (RetErr err, mr', h')
      end
  | CallSetupRequest req =>
      let '(req', mr') := SetupRequest req mr in Some (RetRequest req', mr', h)
  | CallRead n =>
      match Read n mr h with
      | None => None
      | Some ((bs, err), mr', h') => Some (RetRead bs err, mr', h')
      end
  | CallClose =>
      match Close mr h with
      | None => None
      | Some (err, mr', h') => Some (RetErr err, mr', h')
      end
  | CallGetMultiReader =>
      let '(_, mr') := GetMultiReader mr in Some (RetVoid, mr', h)
  end.

Fixpoint run (fs : FileSystem) (cs : list Call) (mr : MultipartReader) (h : Heap)
  : option (list Returned * MultipartReader * Heap) :=
  match cs with
  | [] => Some ([], mr, h)
  | c :: rest =>
      match exec fs c mr h with
      | None => None
      | Some (ret, mr', h') =>
          match run fs rest mr' h' with
          | None => None
          | Some (rets, mr'', h'') => Some (ret :: rets, mr'', h'')
          end
      end
  end.

Definition is_Read (c : Call) : bool :=
  match c with
  | CallRead _ => true
  | _ => false
  end.

(** ** Relations between states, used to state what calls preserve *)

(** Objects keep their type, and a [bytes.Reader] keeps the byte slice
    it was built over: only its position moves. *)
Definition same_reader (o o' : Object) : Prop :=
  forall s i, o = BytesReader s i -> exists i', o' = BytesReader s i'.

Definition heap_le (h h' : Heap) : Prop :=
  forall a s i, h !! a = Some (BytesReader s i) ->
                exists i', h' !! a = Some (BytesReader s i').

(** No call changes [boundary] or [contentType], and the readers slice
    only ever grows immediately before its last element. *)
Definition mr_le (mr mr' : MultipartReader) : Prop :=
  boundary mr' = boundary mr
  /\ contentType mr' = contentType mr
  /\ forall init lst, readers mr = init ++ [lst] ->
                      exists more, readers mr' = init ++ more ++ [lst].

(** The bytes all objects of the heap still hold: the measure that
    makes draining terminate. *)
Definition heap_size (h : Heap) : nat :=
  sum_list (map (fun o => length (remaining o)) h).

(** The calls that build the multi-reader. *)
Definition builds_cursor (c : Call) : bool :=
  match c with
  | CallRead _ | CallSetupRequest _ | CallGetMultiReader => true
  | _ => false
  end.

(** A call has failed when it returned a non-nil error. *)
Definition failed (ret : Returned) : bool :=
  match ret with
  | RetErr (Some _) => true
  | RetRead _ (Some e) => negb (error_eqb e EOF)
  | _ => false
  end.

(** ** Appending calls and the state they lead to *)

(** The appending calls that hand readers to the assembler, the reader
    each one hands over, what it is expected to contribute to the
    stream, and the length it declares. *)
Definition external (c : Call) : list addr :=
  match c with
  | CallAddReader r _ => [r]
  | CallAddFormReader _ _ _ r => [r]
  | CallAddFile f => [f]
  | _ => []
  end.

Definition externals (cs : list Call) : list addr := concat (map external cs).

Definition open_file (h : Heap) (f : addr) : option (string * list byte) :=
  match h !! f with
  | Some (File name data _ false) => Some (name, data)
  | _ => None
  end.

Definition append_ok (h0 : Heap) (c : Call) : Prop :=
  match c with
  | CallAddReader r _ => live h0 r
  | CallAddFormReader _ _ _ r => live h0 r
  | CallAddFile f => is_Some (open_file h0 f)
  | _ => False
  end.

Definition appended_header (h0 : Heap) (b : string) (c : Call) : string :=
  match c with
  | CallAddFormReader name filename _ _ => formHeader b name filename
  | CallAddFile f =>
      match open_file h0 f with
      | Some (name, _) => formHeader b "file" (basename name)
      | None => EmptyString
      end
  | _ => EmptyString
  end.

Definition appended_content (h0 : Heap) (b : string) (c : Call) : list byte :=
  bytes_of (appended_header h0 b c) ++ concat (map (content h0) (external c)).

Definition declared_length (h0 : Heap) (b : string) (c : Call) : Z :=
  match c with
  | CallAddReader _ len0 => len0
  | CallAddFormReader name filename len0 _ =>
      len (appended_header h0 b c) + len0
  | CallAddFile f =>
      match open_file h0 f with
      | Some (_, data) => len (appended_header h0 b c) + Z.of_nat (length data)
      | None => 0
      end
  | _ => 0
  end.

Definition sum_Z (l : list Z) : Z := foldr Z.add 0%Z l.

(** The state appending calls lead to, from [New] over the heap [h0]
    with boundary [b]: [srcs] are the readers between the body buffer
    and the closing boundary, [hdrs] the part headers allocated on the
    way, [total] the sum of the declared lengths, [ext] the caller's
    readers appended so far and [bytes] what [srcs] are to deliver. *)
Record filled (h0 : Heap) (b : string) (mr : MultipartReader) (h : Heap)
    (srcs : list addr) (hdrs : list Object)
    (total : Z) (ext : list addr) (bytes : list byte) : Prop := mkFilled {
  filled_readers : readers mr = length h0 :: srcs ++ [S (length h0)];
  filled_heap :
    h = h0 ++ [BytesBuffer []; BytesReader (bytes_of (formClose b)) 0] ++ hdrs;
  filled_boundary : boundary mr = b;
  filled_cursor : multiReader mr = None;
  filled_length : length_ mr = wrap64 (68 + total);
  filled_NoDup : NoDup srcs;
  filled_where :
    Forall (fun a => (a < length h0 /\ a ∈ ext)
                     \/ S (length h0) < a < length h) srcs;
  filled_live : Forall (live h) srcs;
  filled_content : concat (map (content h) srcs) = bytes
}.

(** A call declares its reader's real length. *)
Definition accurate (h0 : Heap) (c : Call) : Prop :=
  match c with
  | CallAddReader r len0 => len0 = Z.of_nat (length (content h0 r))
  | CallAddFormReader _ _ len0 r => len0 = Z.of_nat (length (content h0 r))
  | CallAddFile f =>
      match h0 !! f with
      | Some (File _ _ off _) => off = 0
      | _ => False
      end
  | _ => True
  end.

(** ** The boundary syntax *)

(** The boundary syntax of RFC 2046, section 5.1.1: one to seventy
    characters from [bchars], the last of which is not a space. *)
Definition bchars : string :=
  "ABCDEFGHIJKLMNOPQRSTUVWXYZabcdefghijklmnopqrstuvwxyz0123456789'()+_,-./:=? ".

Definition boundary_syntax (b : string) : Prop :=
  1 <= String.length b <= 70
  /\ forall i c, String.get i b = Some c ->
                 mem_ascii c bchars = true
                 /\ (c = " "%char -> S i <> String.length b).

(** ** Concrete inputs used to exercise the theorems *)

Definition demo_rnd : nat -> byte :=
  fun i => match Byte.of_nat (7 * i + 3) with Some b => b | None => x00 end.

Definition demo_fs : FileSystem :=
  fun p => if String.eqb p "report.txt" then Some (bytes_of "hello") else None.

(** Two readers the caller made before creating the assembler. *)
Definition demo_heap : Heap :=
  [StringsReader (bytes_of "hello") 0; BytesBuffer (bytes_of "world!")].

(** A request the caller is about to send. *)
Definition demo_req : Request :=
  {| Body := None; Header := []; ContentLength := 0 |}.

(** A session that appends, writes a field, reads, appends again and
    attaches a file by path. *)
Definition demo_calls : list Call :=
  [CallAddReader 0 5; CallWriteFields [("a", "1")];
   CallAddFormReader "f" "w.txt" 6 1; CallRead 16; CallAddReader 0 5;
   CallWriteFile "k" "report.txt"].

(** Appending and writing only. *)
Definition demo_appends : list Call :=
  [CallAddReader 0 5; CallWriteFields [("a", "1")];
   CallAddFormReader "f" "w.txt" 6 1].

(** Two distinct readers, declared with their real lengths. *)
Definition demo_sources : list Call :=
  [CallAddReader 0 5; CallAddFormReader "f" "w.txt" 6 1].

(** A reader of five bytes declared with the length [unknown]: the
    [ContentLength] that [SetupRequest] sets is a positive number below
    the size of the body. *)
Definition undercounts (unknown : Z) : Prop :=
  exists rets mr h out s,
    run demo_fs [CallAddReader 0 unknown] (fst (New demo_rnd demo_heap))
        (snd (New demo_rnd demo_heap)) = Some (rets, mr, h)
    /\ ContentLength (fst (SetupRequest demo_req mr)) = (68 + unknown)%Z
    /\ drain 40 16 (snd (SetupRequest demo_req mr)) h
       = Some (Some (out, EOF, s))
    /\ length out = 73
    /\ (0 < ContentLength (fst (SetupRequest demo_req mr))
        < Z.of_nat (length out))%Z.

(** ** What the multipart writer puts into the body buffer *)

(** Whether the writer has already created a part. *)
Definition started (wr : Writer) : bool :=
  match lastpart wr with
  | Some _ => true
  | None => false
  end.

(** One form field as the writer prints it with boundary [b]: the
    delimiter line (after a line break unless it is the first part),
    the disposition header, a blank line and the value. *)
Definition field_part (b : string) (after_part : bool) (key value : string)
  : list byte :=
  bytes_of ((if after_part then CRLF else EmptyString)
            +:+ "--" +:+ b +:+ CRLF
            +:+ "Content-Disposition: form-data; name="
            +:+ quoted (escapeQuotes key) +:+ CRLF +:+ CRLF +:+ value).

Fixpoint fields_encoding (b : string) (after_part : bool)
    (fields : list (string * string)) : list byte :=
  match fields with
  | [] => []
  | (key, value) :: rest =>
      field_part b after_part key value ++ fields_encoding b true rest
  end.

(** The writer once [fields] have gone through it. *)
Definition writer_after (fields : list (string * string)) (wr : Writer)
  : Writer :=
  match fields with
  | [] => wr
  | _ :: _ => {| w := w wr; w_boundary := w_boundary wr;
                 lastpart := Some {| closed := false |} |}
  end.

(** The calls that append readers to the slice. *)
Definition is_append (c : Call) : bool :=
  match c with
  | CallAddReader _ _ | CallAddFormReader _ _ _ _
  | CallAddFile _ | CallWriteFile _ _ => true
  | _ => false
  end.

(** The appending calls that leave the object at address [B] alone. *)
Definition frame_ok (B : addr) (c : Call) : Prop :=
  match c with
  | CallAddReader _ _ | CallAddFormReader _ _ _ _ => True
  | CallAddFile f => f <> B
  | _ => False
  end.

(** ** AddValuesReader *)

(** Files stay the files they are, and a closed file stays closed. *)
Definition file_le (h h' : Heap) : Prop :=
  forall a name data off cl,
    h !! a = Some (File name data off cl) ->
    exists off' cl',
      h' !! a = Some (File name data off' cl') /\ (cl = true -> cl' = true).

(** The header of one value as [AddValuesReader] prints it through the
    writer: the delimiter line (after a line break unless it is the
    first part) and the header lines of a file part for a file, of a
    field part for any other reader. *)
Definition value_header (h : Heap) (b : string) (after_part : bool)
    (key : string) (r : addr) : list byte :=
  bytes_of ((if after_part then CRLF else EmptyString)
            +:+ "--" +:+ b +:+ CRLF
            +:+ match is_File h r with
                | Some name =>
                    "Content-Disposition: form-data; name="
                    +:+ quoted (escapeQuotes key) +:+ "; filename="
                    +:+ quoted (escapeQuotes name) +:+ CRLF
                    +:+ "Content-Type: application/octet-stream" +:+ CRLF
                | None =>
                    "Content-Disposition: form-data; name="
                    +:+ quoted (escapeQuotes key) +:+ CRLF
                end
            +:+ CRLF).

(** One value: its header, followed by what the reader holds. *)
Definition value_part (h : Heap) (b : string) (after_part : bool)
    (key : string) (r : addr) : list byte :=
  value_header h b after_part key r ++ content h r.

Fixpoint values_encoding (h : Heap) (b : string) (after_part : bool)
    (values : list (string * addr)) : list byte :=
  match values with
  | [] => []
  | (key, r) :: rest =>
      value_part h b after_part key r ++ values_encoding h b true rest
  end.

(** Files the caller opened, and a reader. *)
Definition demo_files : Heap :=
  [File "report.txt" (bytes_of "hello") 0 false;
   StringsReader (bytes_of "note") 0;
   File "dir/log.txt" (bytes_of "0123456789") 4 false].

(** ** [AddFields] of the later revision

    [multipart.Writer.WriteField]: creates the field's part and writes
    the value into it. *)
Definition Writer_WriteField (fieldname value : string) (wr : Writer) (h : Heap)
  : option (option error * Writer * Heap) :=
  match CreateFormField fieldname wr h with
  | None => None
  | Some (wr1, h1) =>
      match part_Write wr1 h1 (bytes_of value) with
      | None => None
      | Some (err, h2) => Some (err, wr1, h2)
      end
  end.

Fixpoint AddFields_loop (fields : list (string * string)) (wr : Writer)
    (h : Heap) : option (option error * Writer * Heap) :=
  match fields with
  | [] => Some (None, wr, h)
  | (key, value) :: rest =>
      match Writer_WriteField key value wr h with
      | None => None
      | Some (Some e, wr1, h1) => Some (Some e, wr1, h1)
      | Some (None, wr1, h1) => AddFields_loop rest wr1 h1
      end
  end.

(** [AddFields]; [fields] lists the map in the order the [range] loop
    happens to visit it. *)
Definition AddFields (fields : list (string * string))
    (mr : MultipartReader) (h : Heap)
  : option (option error * MultipartReader * Heap) :=
  match fields, writer mr with
  | [], _ => Some (None, mr, h)
  | _ :: _, None => None
  | _ :: _, Some wr =>
      match AddFields_loop fields wr h with
      | None => None
      | Some (err, wr', h') => Some (err, with_writer mr wr', h')
      end
  end.

(** ** The original revision

    The revision the package started from has no multipart writer:
    [NewMultipartReader] uses one only to obtain a boundary.  Its
    [AddReader], [AddFormReader] and [AddFile] are the functions above;
    [SetupHTTPRequest] builds the multi-reader anew at every call and
    does not set the request body, and [Read] goes to the
    [multiReader] field directly. *)
Module Original.

Definition NewMultipartReader (rnd : nat -> byte) (h : Heap)
  : MultipartReader * Heap :=
  let '(buf, h1) := alloc (BytesBuffer []) h in
  let wr := NewWriter rnd buf in
  let formBody := remaining (BytesBuffer []) in
  let fc := formClose (Writer_Boundary wr) in
  let '(bodyReader, h2) := alloc (StringsReader formBody 0) h1 in
  let '(closeReader, h3) := alloc (StringsReader (bytes_of fc) 0) h2 in
  ({| contentType := FormDataContentType wr;
      boundary := Writer_Boundary wr;
      writer := None;
      readers := [bodyReader; closeReader];
      length_ := wrap64 (Z.of_nat (length formBody) + len fc);
      multiReader := None;
      count := 0 |}, h3).

Definition SetupHTTPRequest (req : Request) (mr : MultipartReader)
  : Request * MultipartReader :=
  ({| Body := Body req;
      Header := Header req ++ [("Content-Type", contentType mr)];
      ContentLength := length_ mr |},
   {| contentType := contentType mr; boundary := boundary mr;
      writer := writer mr; readers := readers mr; length_ := length_ mr;
      multiReader := Some (MultiReader (readers mr)); count := count mr |}).

(** [mr.multiReader.Read(p)]: a nil [multiReader] panics. *)
Definition Read (n : nat) (mr : MultipartReader) (h : Heap)
  : option ((list byte * option error) * MultipartReader * Heap) :=
  match multiReader mr with
  | None => None
  | Some rs =>
      match multiReader_Read rs h n with
      | None => None
      | Some ((bs, err), rs', h') =>
          Some ((bs, err),
                {| contentType := contentType mr; boundary := boundary mr;
                   writer := writer mr; readers := readers mr;
                   length_ := length_ mr; multiReader := Some rs';
                   count := add64 (count mr) (Z.of_nat (length bs)) |},
                h')
      end
  end.

Fixpoint drain (fuel n : nat) (mr : MultipartReader) (h : Heap)
  : Drained (MultipartReader * Heap) :=
  match fuel with
  | O => None
  | S fuel' =>
      match Read n mr h with
      | None => Some None
      | Some ((bs, Some e), mr', h') => Some (Some (bs, e, (mr', h')))
      | Some ((bs, None), mr', h') =>
          match drain fuel' n mr' h' with
          | Some (Some (bs', e, s)) => Some (Some (bs ++ bs', e, s))
          | other => other
          end
      end
  end.

End Original.


(** The assembler without its writer field. *)
Definition without_writer (mr : MultipartReader) : MultipartReader :=
  {| contentType := contentType mr; boundary := boundary mr;
     writer := None; readers := readers mr; length_ := length_ mr;
     multiReader := multiReader mr; count := count mr |}.

(** The assembler with another multi-reader. *)
Definition with_cursor (mr : MultipartReader) (c : option (list addr))
  : MultipartReader :=
  {| contentType := contentType mr; boundary := boundary mr;
     writer := writer mr; readers := readers mr; length_ := length_ mr;
     multiReader := c; count := count mr |}.

(** * Properties *)

(** ** Lemmas on single readers *)

Lemma drop_after_take {A} (s : list A) (i n : nat) :
  drop (i + length (take n (drop i s))) s = drop n (drop i s).
Proof.
  rewrite drop_drop, length_take, length_drop.
  destruct (Nat.le_gt_cases n (length s - i)) as [Hle|Hgt].
  - by rewrite Nat.min_l.
  - rewrite Nat.min_r by lia.
    rewrite !drop_ge; [done | lia | lia].
Qed.

Lemma drop_nil_length {A} (s : list A) (i : nat) :
  drop i s = [] <-> length s <= i.
Proof.
  split; intros H.
  - apply (f_equal length) in H. rewrite length_drop in H. simpl in H. lia.
  - by apply drop_ge.
Qed.

Lemma take_nonempty {A} (l : list A) (n : nat) :
  0 < n -> l <> [] -> take n l <> [].
Proof. destruct n, l; simpl; intros; (lia || congruence). Qed.

(** A reader with nothing left answers [(0, io.EOF)] and stays as it is. *)
Lemma Object_Read_exhausted (o : Object) (n : nat) :
  0 < n -> read_error o = None -> remaining o = [] ->
  Object_Read o n = (([], Some EOF), o).
Proof.
  intros Hn Hr Hrem. destruct o as [buf|s i|s i|name data off cl]; simpl in *.
  - subst buf. destruct n; [lia | done].
  - apply drop_nil_length in Hrem. apply Nat.leb_le in Hrem. by rewrite Hrem.
  - apply drop_nil_length in Hrem. apply Nat.leb_le in Hrem. by rewrite Hrem.
  - destruct cl; [done |]. rewrite Hrem. destruct n; [lia | done].
Qed.

(** A reader with bytes left delivers a non-empty prefix of them,
    reports no error, and keeps the rest. *)
Lemma Object_Read_data (o : Object) (n : nat) :
  0 < n -> read_error o = None -> remaining o <> [] ->
  exists o',
    Object_Read o n = ((take n (remaining o), None), o')
    /\ remaining o' = drop n (remaining o)
    /\ read_error o' = None.
Proof.
  intros Hn Hr Hrem. destruct o as [buf|s i|s i|name data off cl]; simpl in *.
  - destruct buf as [|b buf]; [done |]. eexists; split; [done | done].
  - destruct (Nat.leb_spec (length s) i) as [Hle|Hlt].
    + apply drop_nil_length in Hle. done.
    + eexists; split; [done |]. simpl. split; [apply drop_after_take | done].
  - destruct (Nat.leb_spec (length s) i) as [Hle|Hlt].
    + apply drop_nil_length in Hle. done.
    + eexists; split; [done |]. simpl. split; [apply drop_after_take | done].
  - destruct cl; [done |]. destruct n; [lia |]. simpl Nat.eqb. cbv iota.
    pose proof (drop_after_take data off (S n)) as Hd.
    destruct (drop off data) as [|b rest] eqn:E; [done |].
    eexists; split; [done |]. split; [exact Hd | done].
Qed.

(** A closed file delivers nothing but its error. *)
Lemma Object_Read_closed (o : Object) (n : nat) (e : error) :
  read_error o = Some e -> Object_Read o n = (([], Some e), o) /\ e <> EOF.
Proof.
  destruct o as [buf|s i|s i|name data off cl]; simpl; try done.
  destruct cl; [| done]. intros [= <-]. done.
Qed.

(** ** Lemmas on the multi-reader *)

Lemma allocated_lookup (h : Heap) (r : addr) :
  allocated h r -> exists o, h !! r = Some o.
Proof. intros H. by apply lookup_lt_is_Some_2. Qed.

Lemma stream_result_insert (h : Heap) (rs : list addr) (r : addr) (o : Object) :
  r ∉ rs -> stream_result (<[r := o]> h) rs = stream_result h rs.
Proof.
  induction rs as [|x rs IH]; intros Hnotin; [done |].
  apply not_elem_of_cons in Hnotin as [Hne Hnotin]. simpl.
  rewrite list_lookup_insert_ne by done. rewrite IH by done. done.
Qed.

Lemma Forall_allocated_insert (h : Heap) (rs : list addr) (r : addr) (o : Object) :
  Forall (allocated h) rs -> Forall (allocated (<[r := o]> h)) rs.
Proof.
  intros H. eapply Forall_impl; [exact H |].
  intros x. unfold allocated. by rewrite length_insert.
Qed.

(** One [Read] of the multi-reader, for a buffer that is not empty and
    readers that are pairwise distinct: either it reports the final
    error of the stream with no data, or it delivers a non-empty prefix
    of what the readers had left and leaves the rest to come. *)
Lemma multiReader_Read_spec (rs : list addr) (h : Heap) (n : nat) :
  0 < n -> NoDup rs -> Forall (allocated h) rs ->
  exists bs err rs' h',
    multiReader_Read rs h n = Some ((bs, err), rs', h')
    /\ NoDup rs' /\ Forall (allocated h') rs' /\ length h' = length h
    /\ match err with
       | Some e => bs = [] /\ stream_result h rs = ([], e)
       | None =>
           bs <> []
           /\ stream_result h rs
              = (bs ++ fst (stream_result h' rs'), snd (stream_result h' rs'))
       end.
Proof.
  intros Hn. induction rs as [|r rest IH]; intros Hnd Hall.
  - exists [], (Some EOF), [], h. simpl. repeat split; auto using NoDup_nil_2.
  - apply NoDup_cons in Hnd as [Hnotin Hnd].
    apply Forall_cons in Hall as [Hr Hall].
    destruct (allocated_lookup _ _ Hr) as [o Ho].
    simpl. unfold reader_Read. rewrite Ho.
    destruct (read_error o) as [e|] eqn:Herr.
    + destruct (Object_Read_closed o n e Herr) as [-> Hne].
      replace (isEOF (Some e)) with false by (by destruct e).
      exists [], (Some e), (r :: rest), (<[r := o]> h).
      rewrite list_insert_id by done.
      repeat split; auto;
        try (by apply NoDup_cons); try (by apply Forall_cons).
    + destruct (remaining o) as [|b bs0] eqn:Hrem.
      * rewrite (Object_Read_exhausted o n Hn Herr Hrem). simpl.
        rewrite list_insert_id by done.
        destruct (IH Hnd Hall) as (bs & err & rs' & h' & Hread & H1 & H2 & H3 & H4).
        exists bs, err, rs', h'. rewrite Hread. repeat split; auto.
        destruct (stream_result h rest) as [B e]. simpl. done.
      * destruct (Object_Read_data o n Hn Herr) as (o' & -> & Hrem' & Herr').
        { by rewrite Hrem. }
        simpl isEOF. cbv iota.
        exists (take n (remaining o)), None, (r :: rest), (<[r := o']> h).
        repeat split.
        -- by apply NoDup_cons.
        -- apply Forall_cons. split; [| by apply Forall_allocated_insert].
           unfold allocated. by rewrite length_insert.
        -- apply length_insert.
        -- apply take_nonempty; [done | by rewrite Hrem].
        -- simpl. rewrite list_lookup_insert_eq by exact Hr.
           rewrite Herr', Hrem', stream_result_insert by done.
           destruct (stream_result h rest) as [B e]. simpl.
           by rewrite app_assoc, take_drop, Hrem.
Qed.

(** Reading until the error, with enough fuel, yields exactly
    [stream_result]. *)
Lemma drain_body_spec (fuel n : nat) (rs : list addr) (h : Heap) :
  0 < n -> NoDup rs -> Forall (allocated h) rs ->
  length (fst (stream_result h rs)) < fuel ->
  exists s,
    drain_body fuel n rs h
    = Some (Some (fst (stream_result h rs), snd (stream_result h rs), s)).
Proof.
  intros Hn. revert rs h.
  induction fuel as [|fuel IH]; intros rs h Hnd Hall Hfuel; [lia |].
  destruct (multiReader_Read_spec rs h n Hn Hnd Hall)
    as (bs & err & rs' & h' & Hread & Hnd' & Hall' & _ & Hres).
  simpl. rewrite Hread. destruct err as [e|].
  - destruct Hres as [-> ->]. eauto.
  - destruct Hres as [Hne Hres]. rewrite Hres in *. simpl in *.
    rewrite length_app in Hfuel.
    destruct (IH rs' h' Hnd' Hall') as [s ->].
    { destruct bs; [done | simpl in Hfuel; lia]. }
    eauto.
Qed.

(** [Read] goes through the multi-reader that [GetMultiReader] returns,
    so draining the assembler is draining that multi-reader. *)
Lemma drain_outcome (fuel n : nat) (mr : MultipartReader) (h : Heap) :
  outcome (drain fuel n mr h)
  = outcome (drain_body fuel n (fst (GetMultiReader mr)) h).
Proof.
  revert mr h. induction fuel as [|fuel IH]; intros mr h; [done |].
  simpl. unfold Read.
  destruct (GetMultiReader mr) as [rs mr1] eqn:Hg. simpl.
  destruct (multiReader_Read rs h n) as [[[[bs err] rs'] h']|]; [| done].
  destruct err as [e|]; [done |].
  specialize (IH {| contentType := contentType mr1; boundary := boundary mr1;
                    writer := writer mr1; readers := readers mr1;
                    length_ := length_ mr1; multiReader := Some rs';
                    count := add64 (count mr1) (Z.of_nat (length bs)) |} h').
  simpl in IH.
  destruct (drain fuel n _ h') as [[[[bs1 e1] s1]|]|];
    destruct (drain_body fuel n rs' h') as [[[[bs2 e2] s2]|]|];
    simpl in *; congruence.
Qed.

(** ** Lemmas on the readers slice *)

Lemma slice_to_init {A} (init : list A) (lst : A) :
  slice_to (init ++ [lst]) (Z.of_nat (length (init ++ [lst])) - 1) = Some init.
Proof.
  unfold slice_to. rewrite length_app. simpl.
  destruct (Z.ltb_spec (Z.of_nat (length init + 1) - 1) 0); [lia |].
  destruct (Z.ltb_spec (Z.of_nat (length init + 1))
                       (Z.of_nat (length init + 1) - 1)); [lia |].
  replace (Z.to_nat (Z.of_nat (length init + 1) - 1)) with (length init) by lia.
  by rewrite take_app_length.
Qed.

Lemma index_last {A} (init : list A) (lst : A) :
  index (init ++ [lst]) (Z.of_nat (length (init ++ [lst])) - 1) = Some lst.
Proof.
  unfold index. rewrite length_app. simpl.
  destruct (Z.ltb_spec (Z.of_nat (length init + 1) - 1) 0); [lia |].
  replace (Z.to_nat (Z.of_nat (length init + 1) - 1)) with (length init) by lia.
  by rewrite list_lookup_middle.
Qed.

(** [AddReader] on a non-empty slice: the new reader goes immediately
    before the last element, which stays last. *)
Lemma AddReader_snoc (r : addr) (len0 : Z) (mr : MultipartReader)
    (init : list addr) (lst : addr) :
  readers mr = init ++ [lst] ->
  AddReader r len0 mr
  = Some {| contentType := contentType mr; boundary := boundary mr;
            writer := writer mr; readers := init ++ [r; lst];
            length_ := add64 (length_ mr) len0;
            multiReader := multiReader mr; count := count mr |}.
Proof.
  intros Hrs. unfold AddReader. rewrite Hrs.
  by rewrite slice_to_init, index_last.
Qed.

(** [AddReader] on an empty slice panics. *)
Lemma AddReader_empty (r : addr) (len0 : Z) (mr : MultipartReader) :
  readers mr = [] -> AddReader r len0 mr = None.
Proof. intros Hrs. unfold AddReader. by rewrite Hrs. Qed.

(** Whenever [AddReader] returns, it has done the insertion above. *)
Lemma AddReader_inv (r : addr) (len0 : Z) (mr mr' : MultipartReader) :
  AddReader r len0 mr = Some mr' ->
  exists init lst,
    readers mr = init ++ [lst] /\ readers mr' = init ++ [r; lst]
    /\ length_ mr' = add64 (length_ mr) len0
    /\ contentType mr' = contentType mr /\ boundary mr' = boundary mr
    /\ writer mr' = writer mr /\ multiReader mr' = multiReader mr
    /\ count mr' = count mr.
Proof.
  intros H. destruct (readers mr) as [|x xs] eqn:Hrs using rev_ind.
  - by rewrite AddReader_empty in H.
  - rewrite (AddReader_snoc r len0 mr xs x Hrs) in H. injection H as <-.
    exists xs, x. simpl. repeat split; done.
Qed.

(** ** What a call can and cannot change *)

Lemma heap_le_refl (h : Heap) : heap_le h h.
Proof. intros a s i H. eauto. Qed.

Lemma heap_le_trans (h1 h2 h3 : Heap) :
  heap_le h1 h2 -> heap_le h2 h3 -> heap_le h1 h3.
Proof.
  intros H12 H23 a s i H. destruct (H12 a s i H) as [i' H']. eauto.
Qed.

Lemma heap_le_alloc (h : Heap) (o : Object) : heap_le h (snd (alloc o h)).
Proof.
  intros a s i H. simpl. exists i. by apply lookup_app_l_Some.
Qed.

Lemma heap_le_insert (h : Heap) (a : addr) (o o' : Object) :
  h !! a = Some o -> same_reader o o' -> heap_le h (<[a := o']> h).
Proof.
  intros Ho Hsame x s i Hx. destruct (decide (a = x)) as [->|Hne].
  - rewrite Ho in Hx. injection Hx as ->. destruct (Hsame s i eq_refl) as [i' ->].
    exists i'. apply list_lookup_insert_eq. by eapply lookup_lt_Some.
  - exists i. by rewrite list_lookup_insert_ne.
Qed.

Lemma same_reader_Read (o : Object) (n : nat) :
  same_reader o (snd (Object_Read o n)).
Proof.
  intros s i ->. simpl. destruct (length s <=? i)%nat; simpl; eauto.
Qed.

Lemma same_reader_exhaust (o : Object) : same_reader o (exhaust o).
Proof. intros s i ->. simpl. eauto. Qed.

Lemma heap_le_reader_Read (h h' : Heap) (r : addr) (n : nat) res :
  reader_Read h r n = Some (res, h') -> heap_le h h'.
Proof.
  unfold reader_Read. destruct (h !! r) as [o|] eqn:Ho; [| done].
  pose proof (same_reader_Read o n) as Hs.
  destruct (Object_Read o n) as [res' o']. intros [= _ <-].
  by eapply heap_le_insert.
Qed.

Lemma heap_le_multiReader_Read (rs : list addr) (h : Heap) (n : nat) res rs' h' :
  multiReader_Read rs h n = Some (res, rs', h') -> heap_le h h'.
Proof.
  revert h. induction rs as [|r rest IH]; intros h; simpl.
  - intros [= _ _ <-]. apply heap_le_refl.
  - destruct (reader_Read h r n) as [[[bs err] h1]|] eqn:Hr; [| done].
    apply heap_le_reader_Read in Hr. intros H.
    eapply heap_le_trans; [exact Hr |].
    destruct (isEOF err).
    + destruct bs, rest; first [ by eapply IH | injection H as _ _ <-; apply heap_le_refl ].
    + injection H as _ _ <-. apply heap_le_refl.
Qed.

Lemma heap_le_buffer_Write (h h' : Heap) (a : addr) (p : list byte) :
  buffer_Write h a p = Some h' -> heap_le h h'.
Proof.
  unfold buffer_Write. destruct (h !! a) as [[buf|?|?|?]|] eqn:Ho; try done.
  intros [= <-]. eapply heap_le_insert; [exact Ho |]. by intros s i.
Qed.

Lemma heap_le_file_Close (h : Heap) (f : addr) : heap_le h (file_Close h f).
Proof.
  unfold file_Close. destruct (h !! f) as [[?|?|?|name data off cl]|] eqn:Ho;
    try apply heap_le_refl.
  eapply heap_le_insert; [exact Ho |]. by intros s i.
Qed.

Lemma heap_le_CreatePart header wr h wr' h' :
  CreatePart header wr h = Some (wr', h') -> heap_le h h'.
Proof.
  unfold CreatePart. destruct (buffer_Write _ _ _) as [h1|] eqn:Hw; [| done].
  intros [= _ <-]. by eapply heap_le_buffer_Write.
Qed.

Lemma heap_le_part_Write wr h d err h' :
  part_Write wr h d = Some (err, h') -> heap_le h h'.
Proof.
  unfold part_Write. destruct (lastpart wr) as [p|]; [| done].
  destruct (closed p).
  - intros [= _ <-]. apply heap_le_refl.
  - destruct (buffer_Write _ _ _) as [h1|] eqn:Hw; [| done].
    intros [= _ <-]. by eapply heap_le_buffer_Write.
Qed.

Lemma heap_le_Copy_to_part wr r h err h' :
  Copy_to_part wr r h = Some (err, h') -> heap_le h h'.
Proof.
  unfold Copy_to_part. intros H.
  destruct (h !! r) as [o|] eqn:Ho; [| done].
  assert (Hgen :
    match part_Write wr h (remaining o) with
    | Some (Some e, h1) => Some (Some e, h1)
    | Some (None, h1) =>
        match h1 !! r with
        | Some o1 => Some (None, <[r := exhaust o1]> h1)
        | None => None
        end
    | None => None
    end = Some (err, h') -> heap_le h h').
  { destruct (part_Write wr h (remaining o)) as [[[e|] h1]|] eqn:Hw; [| | done].
    - intros [= _ <-]. by eapply heap_le_part_Write.
    - destruct (h1 !! r) as [o1|] eqn:Ho1; [| done]. intros [= _ <-].
      eapply heap_le_trans; [by eapply heap_le_part_Write |].
      eapply heap_le_insert; [exact Ho1 | apply same_reader_exhaust]. }
  destruct o as [?|?|?|name data off [|]]; try (by apply Hgen).
  injection H as _ <-. apply heap_le_refl.
Qed.

Lemma mr_le_refl (mr : MultipartReader) : mr_le mr mr.
Proof. repeat split. intros init lst H. exists []. done. Qed.

Lemma mr_le_trans (m1 m2 m3 : MultipartReader) :
  mr_le m1 m2 -> mr_le m2 m3 -> mr_le m1 m3.
Proof.
  intros (Hb1 & Hc1 & Hr1) (Hb2 & Hc2 & Hr2). repeat split; try congruence.
  intros init lst H. destruct (Hr1 init lst H) as [more1 H1].
  rewrite app_assoc in H1. destruct (Hr2 _ _ H1) as [more2 H2].
  exists (more1 ++ more2). by rewrite H2, <- !app_assoc.
Qed.

(** Fields other than [readers] and [length] are out of reach of the
    functions that do not go through [AddReader]. *)
Lemma mr_le_same_readers (mr mr' : MultipartReader) :
  boundary mr' = boundary mr -> contentType mr' = contentType mr ->
  readers mr' = readers mr -> mr_le mr mr'.
Proof.
  intros Hb Hc Hr. repeat split; try done.
  intros init lst H. exists []. by rewrite Hr, H.
Qed.

Lemma mr_le_AddReader (r : addr) (len0 : Z) (mr mr' : MultipartReader) :
  AddReader r len0 mr = Some mr' -> mr_le mr mr'.
Proof.
  intros H. destruct (AddReader_inv _ _ _ _ H)
    as (init & lst & Hrs & Hrs' & _ & Hc & Hb & _).
  repeat split; try done.
  intros init' lst' H'. rewrite Hrs in H'.
  apply app_inj_tail in H' as [<- <-]. exists [r]. done.
Qed.

Lemma step_SetBoundary b mr err mr' :
  SetBoundary b mr = Some (err, mr') -> mr_le mr mr'.
Proof.
  unfold SetBoundary. destruct (writer mr) as [wr|]; [| done].
  destruct (Writer_SetBoundary b wr) as [e wr']. intros [= _ <-].
  by apply mr_le_same_readers.
Qed.

Lemma step_AddFormReader name filename len0 r mr h mr' h' :
  AddFormReader name filename len0 r mr h = Some (mr', h') ->
  mr_le mr mr' /\ heap_le h h'.
Proof.
  unfold AddFormReader. simpl.
  destruct (AddReader _ _ mr) as [mr1|] eqn:H1; [| done].
  destruct (AddReader r len0 mr1) as [mr2|] eqn:H2; [| done].
  intros [= <- <-]. split.
  - eapply mr_le_trans; by eapply mr_le_AddReader.
  - apply (heap_le_alloc h).
Qed.

Lemma heap_le_WriteFields_loop fields wr h err wr' h' :
  WriteFields_loop fields wr h = Some (err, wr', h') -> heap_le h h'.
Proof.
  revert wr h. induction fields as [|[key value] rest IH]; intros wr h; simpl.
  - intros [= _ _ <-]. apply heap_le_refl.
  - unfold CreateFormField.
    destruct (CreatePart _ wr h) as [[wr1 h1]|] eqn:Hc; [| done].
    apply heap_le_CreatePart in Hc.
    destruct (part_Write wr1 h1 _) as [[[e|] h2]|] eqn:Hw; [| | done].
    + intros [= _ _ <-]. apply heap_le_part_Write in Hw.
      by eapply heap_le_trans.
    + intros H. apply heap_le_part_Write in Hw. apply IH in H.
      eapply heap_le_trans; [exact Hc |]. by eapply heap_le_trans.
Qed.

Lemma step_WriteFields fields mr h err mr' h' :
  WriteFields fields mr h = Some (err, mr', h') ->
  mr_le mr mr' /\ heap_le h h'.
Proof.
  unfold WriteFields. destruct fields as [|f fs].
  - intros [= _ <- <-]. split; [apply mr_le_refl | apply heap_le_refl].
  - destruct (writer mr) as [wr|]; [| done].
    destruct (WriteFields_loop _ wr h) as [[[e wr'] h1]|] eqn:Hl; [| done].
    intros [= _ <- <-]. split.
    + by apply mr_le_same_readers.
    + by eapply heap_le_WriteFields_loop.
Qed.

Lemma heap_le_AddValuesReader_loop values wr h err wr' h' :
  AddValuesReader_loop values wr h = Some (err, wr', h') -> heap_le h h'.
Proof.
  revert wr h err wr' h'.
  induction values as [|[key r] rest IH]; intros wr h err wr' h'; simpl.
  - intros [= _ _ <-]. apply heap_le_refl.
  - set (created := match is_File h r with
                    | Some name => CreateFormFile key name wr h
                    | None => CreateFormField key wr h
                    end).
    assert (Hcr : forall wr1 h1, created = Some (wr1, h1) -> heap_le h h1).
    { intros wr1 h1. subst created. unfold CreateFormFile, CreateFormField.
      destruct (is_File h r); apply heap_le_CreatePart. }
    destruct created as [[wr1 h1]|]; [| done].
    specialize (Hcr _ _ eq_refl).
    destruct (Copy_to_part wr1 r h1) as [[[e|] h2]|] eqn:Hcp; [| | done].
    + intros [= _ _ <-]. apply heap_le_Copy_to_part in Hcp.
      eapply heap_le_trans; [exact Hcr |].
      eapply heap_le_trans; [exact Hcp | apply heap_le_file_Close].
    + destruct (AddValuesReader_loop rest wr1 h2) as [[[e2 wr2] h3]|] eqn:Hl;
        [| done].
      intros [= _ _ <-]. apply heap_le_Copy_to_part in Hcp. apply IH in Hl.
      eapply heap_le_trans; [exact Hcr |].
      eapply heap_le_trans; [exact Hcp |].
      eapply heap_le_trans; [exact Hl | apply heap_le_file_Close].
Qed.

Lemma step_AddValuesReader values mr h err mr' h' :
  AddValuesReader values mr h = Some (err, mr', h') ->
  mr_le mr mr' /\ heap_le h h'.
Proof.
  unfold AddValuesReader. destruct values as [|v vs].
  - intros [= _ <- <-]. split; [apply mr_le_refl | apply heap_le_refl].
  - destruct (writer mr) as [wr|]; [| done].
    destruct (AddValuesReader_loop _ wr h) as [[[e wr'] h1]|] eqn:Hl; [| done].
    intros [= _ <- <-]. split.
    + by apply mr_le_same_readers.
    + by eapply heap_le_AddValuesReader_loop.
Qed.

Lemma step_WriteFile fs key filename mr h err mr' h' :
  WriteFile fs key filename mr h = Some (err, mr', h') ->
  mr_le mr mr' /\ heap_le h h'.
Proof.
  unfold WriteFile, os_Open. destruct (fs filename) as [data|].
  2: { intros [= _ <- <-]. split; [apply mr_le_refl | apply heap_le_refl]. }
  simpl. destruct (file_Stat _ _) as [[e|[name size]]|]; [| | done].
  - intros [= _ <- <-]. split; [apply mr_le_refl |].
    eapply heap_le_trans; [apply (heap_le_alloc h) | apply heap_le_file_Close].
  - destruct (AddReader _ _ mr) as [mr1|] eqn:H1; [| done].
    destruct (AddReader _ size mr1) as [mr2|] eqn:H2; [| done].
    intros [= _ <- <-]. split.
    + eapply mr_le_trans; by eapply mr_le_AddReader.
    + eapply heap_le_trans; [apply (heap_le_alloc h) |].
      eapply heap_le_trans; [apply (heap_le_alloc (h ++ _)) |].
      apply heap_le_file_Close.
Qed.

Lemma step_AddFile file mr h err mr' h' :
  AddFile file mr h = Some (err, mr', h') ->
  mr_le mr mr' /\ heap_le h h'.
Proof.
  unfold AddFile. destruct (file_Stat h file) as [[e|[name size]]|]; [| | done].
  - intros [= _ <- <-]. split; [apply mr_le_refl | apply heap_le_refl].
  - simpl. destruct (AddReader _ _ mr) as [mr1|] eqn:H1; [| done].
    destruct (AddReader _ size mr1) as [mr2|] eqn:H2; [| done].
    intros [= _ <- <-]. split.
    + eapply mr_le_trans; by eapply mr_le_AddReader.
    + apply (heap_le_alloc h).
Qed.

Lemma step_GetMultiReader mr : mr_le mr (snd (GetMultiReader mr)).
Proof.
  unfold GetMultiReader. destruct (multiReader mr); simpl.
  - apply mr_le_refl.
  - by apply mr_le_same_readers.
Qed.

Lemma step_Read n mr h res mr' h' :
  Read n mr h = Some (res, mr', h') -> mr_le mr mr' /\ heap_le h h'.
Proof.
  unfold Read. pose proof (step_GetMultiReader mr) as Hg.
  destruct (GetMultiReader mr) as [rs mr1]. simpl in Hg.
  destruct (multiReader_Read rs h n) as [[[[bs err] rs'] h1]|] eqn:Hr; [| done].
  intros [= _ <- <-]. split.
  - eapply mr_le_trans; [exact Hg |]. by apply mr_le_same_readers.
  - by eapply heap_le_multiReader_Read.
Qed.

Lemma step_Close mr h err mr' h' :
  Close mr h = Some (err, mr', h') -> mr_le mr mr' /\ heap_le h h'.
Proof.
  unfold Close, Writer_Close. destruct (writer mr) as [wr|]; [| done].
  destruct (buffer_Write _ _ _) as [h1|] eqn:Hw; [| done].
  intros [= _ <- <-]. split.
  - by apply mr_le_same_readers.
  - by eapply heap_le_buffer_Write.
Qed.

Lemma exec_step fs c mr h ret mr' h' :
  exec fs c mr h = Some (ret, mr', h') -> mr_le mr mr' /\ heap_le h h'.
Proof.
  destruct c; simpl.
  - destruct (SetBoundary b mr) as [[e m]|] eqn:H; [| done].
    intros [= _ <- <-]. split; [by eapply step_SetBoundary | apply heap_le_refl].
  - destruct (AddReader r length mr) as [m|] eqn:H; [| done].
    intros [= _ <- <-]. split; [by eapply mr_le_AddReader | apply heap_le_refl].
  - destruct (AddFormReader _ _ _ _ mr h) as [[m h1]|] eqn:H; [| done].
    intros [= _ <- <-]. by eapply step_AddFormReader.
  - destruct (AddValuesReader _ mr h) as [[[e m] h1]|] eqn:H; [| done].
    intros [= _ <- <-]. by eapply step_AddValuesReader.
  - destruct (WriteFields _ mr h) as [[[e m] h1]|] eqn:H; [| done].
    intros [= _ <- <-]. by eapply step_WriteFields.
  - destruct (WriteFile _ _ _ mr h) as [[[e m] h1]|] eqn:H; [| done].
    intros [= _ <- <-]. by eapply step_WriteFile.
  - destruct (AddFile _ mr h) as [[[e m] h1]|] eqn:H; [| done].
    intros [= _ <- <-]. by eapply step_AddFile.
  - unfold SetupRequest, GetCloseReader.
    pose proof (step_GetMultiReader mr) as Hg.
    destruct (GetMultiReader mr) as [rs m]. intros [= _ <- <-].
    split; [exact Hg | apply heap_le_refl].
  - destruct (Read n mr h) as [[[[bs e] m] h1]|] eqn:H; [| done].
    intros [= _ <- <-]. by eapply step_Read.
  - destruct (Close mr h) as [[[e m] h1]|] eqn:H; [| done].
    intros [= _ <- <-]. by eapply step_Close.
  - pose proof (step_GetMultiReader mr) as Hg.
    destruct (GetMultiReader mr) as [rs m]. intros [= _ <- <-].
    split; [exact Hg | apply heap_le_refl].
Qed.

Lemma run_step fs cs mr h rets mr' h' :
  run fs cs mr h = Some (rets, mr', h') -> mr_le mr mr' /\ heap_le h h'.
Proof.
  revert mr h rets. induction cs as [|c rest IH]; intros mr h rets; simpl.
  - intros [= _ <- <-]. split; [apply mr_le_refl | apply heap_le_refl].
  - destruct (exec fs c mr h) as [[[ret m1] h1]|] eqn:He; [| done].
    destruct (run fs rest m1 h1) as [[[rs m2] h2]|] eqn:Hr; [| done].
    intros [= _ <- <-]. apply exec_step in He as [Hm Hh].
    apply IH in Hr as [Hm' Hh'].
    split; [by eapply mr_le_trans | by eapply heap_le_trans].
Qed.

(** ** Lemmas on strings *)

Lemma length_string_app (a b : string) :
  String.length (a +:+ b) = String.length a + String.length b.
Proof. induction a as [|c a IH]; simpl; [done | by rewrite IH]. Qed.

Lemma length_bytes_of (s : string) : length (bytes_of s) = String.length s.
Proof.
  unfold bytes_of, list_byte_of_string.
  induction s as [|c s IH]; simpl; [done | by rewrite IH].
Qed.

Lemma bytes_of_app (a b : string) : bytes_of (a +:+ b) = bytes_of a ++ bytes_of b.
Proof.
  unfold bytes_of, list_byte_of_string.
  induction a as [|c a IH]; simpl; [done | by rewrite IH].
Qed.

Lemma ContainsAny_app (a b chars : string) :
  ContainsAny (a +:+ b) chars = ContainsAny a chars || ContainsAny b chars.
Proof.
  induction a as [|c a IH]; simpl; [done |].
  destruct (mem_ascii c chars); [done | exact IH].
Qed.

Lemma length_hex_of_byte (b : byte) : String.length (hex_of_byte b) = 2.
Proof. done. Qed.

Lemma hex_of_byte_no_tspecials (b : byte) :
  ContainsAny (hex_of_byte b) tspecials = false.
Proof. destruct b; vm_compute; reflexivity. Qed.

Lemma length_Sprintf_x (buf : list byte) :
  String.length (Sprintf_x buf) = 2 * length buf.
Proof.
  induction buf as [|b buf IH]; [done |].
  cbn [Sprintf_x]. rewrite length_string_app, length_hex_of_byte, IH.
  simpl. lia.
Qed.

Lemma Sprintf_x_no_tspecials (buf : list byte) :
  ContainsAny (Sprintf_x buf) tspecials = false.
Proof.
  induction buf as [|b buf IH]; [done |].
  cbn [Sprintf_x]. by rewrite ContainsAny_app, hex_of_byte_no_tspecials, IH.
Qed.

Lemma length_randomBoundary (rnd : nat -> byte) :
  String.length (randomBoundary rnd) = 60.
Proof.
  unfold randomBoundary. by rewrite length_Sprintf_x, length_map, length_seq.
Qed.

Lemma len_formClose (b : string) : len (formClose b) = (8 + len b)%Z.
Proof.
  unfold len, formClose. rewrite !length_string_app. simpl. lia.
Qed.

Lemma wrap64_small (z : Z) :
  (- 2 ^ 63 <= z < 2 ^ 63)%Z -> wrap64 z = z.
Proof.
  intros H. unfold wrap64. rewrite Z.mod_small; lia.
Qed.

(** ** The constructor, evaluated *)

Lemma New_eq (rnd : nat -> byte) (h : Heap) :
  New rnd h
  = ({| contentType := "multipart/form-data; boundary=" +:+ randomBoundary rnd;
        boundary := randomBoundary rnd;
        writer := Some (NewWriter rnd (length h));
        readers := [length h; S (length h)];
        length_ := 68;
        multiReader := None;
        count := 0 |},
     h ++ [BytesBuffer [];
           BytesReader (bytes_of (formClose (randomBoundary rnd))) 0]).
Proof.
  unfold New, alloc. cbn [fst snd]. f_equal.
  - f_equal.
    + unfold FormDataContentType, NewWriter, randomBoundary. cbn [w_boundary].
      by rewrite Sprintf_x_no_tspecials.
    + rewrite length_app. simpl. f_equal. f_equal. lia.
    + unfold Buffer_Len. rewrite list_lookup_middle by done.
      unfold Writer_Boundary, NewWriter. cbn [w_boundary length].
      rewrite len_formClose. unfold len. rewrite length_randomBoundary.
      by vm_compute.
  - by rewrite <- app_assoc.
Qed.

(** ** The closing boundary stays last *)

(** C2: for the assembler created by [New] and every sequence of calls,
    the last element of the readers slice is the reader over the
    closing-boundary literal, and every [AddReader] call inserts its
    reader immediately before that element and keeps it last. *)
Theorem closing_boundary_stays_last
    (fs : FileSystem) (rnd : nat -> byte) (h0 : Heap) (cs : list Call)
    (rets : list Returned) (mr : MultipartReader) (h : Heap) :
  run fs cs (fst (New rnd h0)) (snd (New rnd h0)) = Some (rets, mr, h) ->
  exists init i,
    readers mr = init ++ [S (length h0)]
    /\ h !! S (length h0)
       = Some (BytesReader (bytes_of (formClose (Boundary mr))) i)
    /\ forall r len0, exists mr',
         AddReader r len0 mr = Some mr'
         /\ readers mr' = init ++ [r; S (length h0)].
Proof.
  rewrite New_eq. cbn [fst snd]. intros Hrun.
  destruct (run_step _ _ _ _ _ _ _ Hrun) as [(Hb & _ & Hr) Hh].
  destruct (Hr [length h0] (S (length h0)) eq_refl) as [more Hmore].
  destruct (Hh (S (length h0))
               (bytes_of (formClose (randomBoundary rnd))) 0) as [i Hi].
  { rewrite lookup_app_r by lia.
    by replace (S (length h0) - length h0) with 1 by lia. }
  exists ([length h0] ++ more), i. split; [| split].
  - by rewrite Hmore, <- app_assoc.
  - unfold Boundary. rewrite Hb. exact Hi.
  - intros r len0. eexists. split.
    + apply AddReader_snoc. by rewrite Hmore, app_assoc.
    + done.
Qed.

Lemma closing_boundary_stays_last_witness :
  exists rets mr h,
    run demo_fs demo_calls (fst (New demo_rnd demo_heap))
        (snd (New demo_rnd demo_heap)) = Some (rets, mr, h)
    /\ exists init i,
         readers mr = init ++ [3]
         /\ h !! 3 = Some (BytesReader (bytes_of (formClose (Boundary mr))) i)
         /\ forall r len0, exists mr',
              AddReader r len0 mr = Some mr' /\ readers mr' = init ++ [r; 3].
Proof.
  destruct (run demo_fs demo_calls (fst (New demo_rnd demo_heap))
                (snd (New demo_rnd demo_heap)))
    as [[[rets mr] h]|] eqn:Hrun; [| by vm_compute in Hrun].
  exists rets, mr, h. split; [reflexivity |].
  exact (closing_boundary_stays_last demo_fs demo_rnd demo_heap demo_calls
           rets mr h Hrun).
Defined.

(** ** AddReader's slice expressions *)

(** C9: the assembler created by [New] starts with two readers and
    every call keeps at least two, so [mr.readers[:i-1]] and
    [mr.readers[i-1]] in [AddReader] are in bounds and the call returns;
    on the zero-value assembler, whose readers slice is empty, the slice
    expression is out of bounds and [AddReader] panics. *)
Theorem AddReader_slicing_in_bounds
    (fs : FileSystem) (rnd : nat -> byte) (h0 : Heap) (cs : list Call)
    (rets : list Returned) (mr : MultipartReader) (h : Heap)
    (r : addr) (len0 : Z) :
  run fs cs (fst (New rnd h0)) (snd (New rnd h0)) = Some (rets, mr, h) ->
  length (readers (fst (New rnd h0))) = 2
  /\ 2 <= length (readers mr)
  /\ is_Some (slice_to (readers mr) (Z.of_nat (length (readers mr)) - 1))
  /\ is_Some (index (readers mr) (Z.of_nat (length (readers mr)) - 1))
  /\ is_Some (AddReader r len0 mr)
  /\ readers zero_MultipartReader = []
  /\ slice_to (readers zero_MultipartReader)
       (Z.of_nat (length (readers zero_MultipartReader)) - 1) = None
  /\ AddReader r len0 zero_MultipartReader = None.
Proof.
  rewrite New_eq. cbn [fst snd]. intros Hrun.
  destruct (run_step _ _ _ _ _ _ _ Hrun) as [(_ & _ & Hr) _].
  destruct (Hr [length h0] (S (length h0)) eq_refl) as [more Hmore].
  rewrite app_assoc in Hmore.
  split; [done |]. split; [| split; [| split; [| split]]].
  - rewrite Hmore, !length_app. simpl. lia.
  - rewrite Hmore, slice_to_init. eauto.
  - rewrite Hmore, index_last. eauto.
  - rewrite (AddReader_snoc r len0 mr _ _ Hmore). eauto.
  - done.
Qed.

Lemma AddReader_slicing_in_bounds_witness :
  exists rets mr h,
    run demo_fs demo_calls (fst (New demo_rnd demo_heap))
        (snd (New demo_rnd demo_heap)) = Some (rets, mr, h)
    /\ 2 <= length (readers mr)
    /\ is_Some (AddReader 1 6 mr)
    /\ AddReader 1 6 zero_MultipartReader = None.
Proof.
  destruct (run demo_fs demo_calls (fst (New demo_rnd demo_heap))
                (snd (New demo_rnd demo_heap)))
    as [[[rets mr] h]|] eqn:Hrun; [| by vm_compute in Hrun].
  exists rets, mr, h. split; [reflexivity |].
  destruct (AddReader_slicing_in_bounds demo_fs demo_rnd demo_heap demo_calls
              rets mr h 1 6%Z Hrun) as (_ & H2 & _ & _ & Hadd & _ & _ & Hz).
  auto.
Defined.

(** ** The bytes-read counter *)

Ltac inv_AddReader :=
  repeat match goal with
         | H : AddReader _ _ _ = Some _ |- _ =>
             apply AddReader_inv in H as (? & ? & ? & ? & ? & ? & ? & ? & ? & ?)
         end.

Lemma GetMultiReader_count mr : count (snd (GetMultiReader mr)) = count mr.
Proof. unfold GetMultiReader. by destruct (multiReader mr). Qed.

(** Only [Read] touches the counter. *)
Lemma exec_count fs c mr h ret mr' h' :
  exec fs c mr h = Some (ret, mr', h') -> is_Read c = false ->
  count mr' = count mr.
Proof.
  pose proof (GetMultiReader_count mr) as Hg.
  destruct c; simpl; intros H Hnr; try discriminate Hnr;
    unfold SetBoundary, AddFormReader, AddValuesReader, WriteFields, WriteFile,
      AddFile, SetupRequest, GetCloseReader, Close, os_Open, alloc in H;
    repeat case_match; simplify_eq; inv_AddReader; simpl in *; congruence.
Qed.

Lemma run_count fs cs mr h rets mr' h' :
  run fs cs mr h = Some (rets, mr', h') ->
  forallb (fun c => negb (is_Read c)) cs = true ->
  count mr' = count mr.
Proof.
  revert mr h rets. induction cs as [|c rest IH]; intros mr h rets; simpl.
  - by intros [= _ <- _].
  - destruct (exec fs c mr h) as [[[ret m1] h1]|] eqn:He; [| done].
    destruct (run fs rest m1 h1) as [[[rs m2] h2]|] eqn:Hr; [| done].
    intros [= _ <- <-] [Hc Hrest]%andb_prop.
    rewrite (IH _ _ _ Hr Hrest). eapply exec_count; [exact He |].
    by destruct (is_Read c).
Qed.

(** [atomic.AddInt64(&mpr.count, int64(n))] *)
Lemma Read_count n mr h bs err mr' h' :
  Read n mr h = Some ((bs, err), mr', h') ->
  count mr' = add64 (count mr) (Z.of_nat (length bs)).
Proof.
  unfold Read. pose proof (GetMultiReader_count mr) as Hg.
  destruct (GetMultiReader mr) as [rs mr1]. simpl in Hg.
  destruct (multiReader_Read rs h n) as [[[[bs1 e1] rs'] h1]|]; [| done].
  intros [= <- _ <- _]. simpl. by rewrite Hg.
Qed.

Lemma drain_count fuel n mr h bs e mr' h' :
  drain fuel n mr h = Some (Some (bs, e, (mr', h'))) ->
  (0 <= count mr)%Z -> (count mr + Z.of_nat (length bs) < 2 ^ 63)%Z ->
  count mr' = (count mr + Z.of_nat (length bs))%Z.
Proof.
  revert mr h bs e mr' h'.
  induction fuel as [|fuel IH]; intros mr h bs e mr' h'; [done |].
  simpl. destruct (Read n mr h) as [[[[bs1 [e1|]] m1] h1]|] eqn:Hr; [| | done].
  - intros [= <- _ <- _] H0 Hlt. rewrite (Read_count _ _ _ _ _ _ _ Hr).
    unfold add64. apply wrap64_small. lia.
  - destruct (drain fuel n m1 h1) as [[[[bs2 e2] [m2 h2]]|]|] eqn:Hd; try done.
    intros [= <- <- <- <-] H0 Hlt. rewrite length_app in Hlt.
    pose proof (Read_count _ _ _ _ _ _ _ Hr) as Hc.
    unfold add64 in Hc. rewrite wrap64_small in Hc by lia.
    rewrite (IH _ _ _ _ _ _ Hd) by lia. rewrite Hc, length_app. lia.
Qed.

(** ** Draining terminates

    Every [Read] that reports no error takes at least one byte out of
    the heap, whatever the readers are and however they alias. *)

Lemma heap_size_insert (h : Heap) (r : addr) (o o' : Object) :
  h !! r = Some o ->
  heap_size (<[r := o']> h) + length (remaining o)
  = heap_size h + length (remaining o').
Proof.
  unfold heap_size. revert r. induction h as [|x h IH]; intros r; [done |].
  destruct r as [|r]; simpl.
  - intros [= ->]. lia.
  - intros H. specialize (IH r H). lia.
Qed.

Lemma Object_Read_size (o : Object) (n : nat) bs err o' :
  0 < n -> Object_Read o n = ((bs, err), o') ->
  length (remaining o') + length bs = length (remaining o)
  /\ (err = None -> bs <> [])
  /\ (isEOF err = true -> bs = []).
Proof.
  intros Hn. destruct (read_error o) as [e|] eqn:Herr.
  - destruct (Object_Read_closed o n e Herr) as [-> Hne].
    intros [= <- <- <-]. repeat split; done.
  - destruct (remaining o) as [|b rest] eqn:Hrem.
    + rewrite (Object_Read_exhausted o n Hn Herr Hrem).
      intros [= <- <- <-]. by rewrite Hrem.
    + destruct (Object_Read_data o n Hn Herr) as (o1 & -> & Hrem1 & _).
      { by rewrite Hrem. }
      intros [= <- <- <-]. rewrite Hrem1. repeat split; try done.
      * pose proof (f_equal length (take_drop n (remaining o))) as Hl.
        rewrite length_app in Hl. rewrite <- Hrem. lia.
      * intros _. apply take_nonempty; [done | by rewrite Hrem].
Qed.

Lemma multiReader_Read_progress (rs : list addr) (h : Heap) (n : nat)
    bs err rs' h' :
  0 < n -> multiReader_Read rs h n = Some ((bs, err), rs', h') ->
  heap_size h' + length bs = heap_size h /\ (err = None -> bs <> []).
Proof.
  intros Hn. revert h. induction rs as [|r rest IH]; intros h; simpl.
  - intros [= <- <- _ <-]. simpl. split; [lia | done].
  - unfold reader_Read. destruct (h !! r) as [o|] eqn:Ho; [| done].
    destruct (Object_Read o n) as [[bs1 e1] o1] eqn:Hor.
    destruct (Object_Read_size o n bs1 e1 o1 Hn Hor) as (Hsz & Hnone & Heof).
    pose proof (heap_size_insert h r o o1 Ho) as Hins.
    destruct (isEOF e1) eqn:He.
    + rewrite (Heof eq_refl) in *. simpl in Hsz. intros H.
      apply IH in H as [H1 H2]. split; [lia | done].
    + intros [= <- <- _ <-]. split; [lia | done].
Qed.

Lemma drain_body_terminates (fuel n : nat) (rs : list addr) (h : Heap) :
  0 < n -> heap_size h < fuel -> drain_body fuel n rs h <> None.
Proof.
  intros Hn. revert rs h. induction fuel as [|fuel IH]; intros rs h Hf; [lia |].
  simpl. destruct (multiReader_Read rs h n) as [[[[bs [e|]] rs'] h']|] eqn:Hr;
    [done | | done].
  destruct (multiReader_Read_progress _ _ _ _ _ _ _ Hn Hr) as [Hsz Hne].
  specialize (Hne eq_refl).
  specialize (IH rs' h'). destruct (drain_body fuel n rs' h') as [[[[? ?] ?]|]|].
  - done.
  - done.
  - apply IH. destruct bs; [done | simpl in Hsz; lia].
Qed.

Lemma drain_terminates (fuel n : nat) (mr : MultipartReader) (h : Heap) :
  0 < n -> heap_size h < fuel -> drain fuel n mr h <> None.
Proof.
  intros Hn Hf Hd.
  apply (drain_body_terminates fuel n (fst (GetMultiReader mr)) h Hn Hf).
  pose proof (drain_outcome fuel n mr h) as Ho. rewrite Hd in Ho. simpl in Ho.
  by destruct (drain_body fuel n _ h) as [[[[? ?] ?]|]|].
Qed.



(** ** The stream of an assembler filled before the first read *)

Lemma run_snoc fs cs c mr h :
  run fs (cs ++ [c]) mr h
  = match run fs cs mr h with
    | None => None
    | Some (rets, mr1, h1) =>
        match exec fs c mr1 h1 with
        | None => None
        | Some (ret, mr2, h2) => Some (rets ++ [ret], mr2, h2)
        end
    end.
Proof.
  revert mr h. induction cs as [|c0 cs IH]; intros mr h; simpl.
  - by destruct (exec fs c mr h) as [[[ret m] h1]|].
  - destruct (exec fs c0 mr h) as [[[ret0 m0] h0]|]; [| done].
    rewrite IH. destruct (run fs cs m0 h0) as [[[rets m1] h1]|]; [| done].
    by destruct (exec fs c m1 h1) as [[[ret m2] h2]|].
Qed.

Lemma add64_wrap (a b : Z) : add64 (wrap64 a) b = wrap64 (a + b).
Proof.
  unfold add64, wrap64. f_equal.
  replace ((a + 2 ^ 63) mod 2 ^ 64 - 2 ^ 63 + b + 2 ^ 63)%Z
    with ((a + 2 ^ 63) mod 2 ^ 64 + b)%Z by lia.
  rewrite Zplus_mod_idemp_l. f_equal. lia.
Qed.

Lemma sum_Z_app (l1 l2 : list Z) : sum_Z (l1 ++ l2) = (sum_Z l1 + sum_Z l2)%Z.
Proof. unfold sum_Z. induction l1 as [|x l1 IH]; simpl; lia. Qed.

Lemma live_allocated (h : Heap) (r : addr) : live h r -> r < length h.
Proof. intros (o & Ho & _). by eapply lookup_lt_Some. Qed.

Lemma live_app (h ext : Heap) (r : addr) : live h r -> live (h ++ ext) r.
Proof. intros (o & Ho & He). exists o. split; [by apply lookup_app_l_Some | done]. Qed.

Lemma content_app (h ext : Heap) (r : addr) :
  r < length h -> content (h ++ ext) r = content h r.
Proof. intros H. unfold content. by rewrite lookup_app_l. Qed.

Lemma contents_app (h ext : Heap) (rs : list addr) :
  Forall (fun a => a < length h) rs ->
  concat (map (content (h ++ ext)) rs) = concat (map (content h) rs).
Proof.
  induction 1 as [|a rs Ha _ IH]; simpl; [done |].
  by rewrite IH, content_app.
Qed.

Lemma filled_below h0 b mr h srcs hdrs total ext bytes :
  filled h0 b mr h srcs hdrs total ext bytes ->
  length h0 + 2 <= length h /\ Forall (fun a => a < length h) srcs.
Proof.
  intros F. assert (Hlen : length h0 + 2 <= length h).
  { rewrite (filled_heap _ _ _ _ _ _ _ _ _ F), !length_app. simpl. lia. }
  split; [exact Hlen |].
  eapply Forall_impl; [exact (filled_where _ _ _ _ _ _ _ _ _ F) |].
  simpl. intros a [[Ha _]|Ha]; lia.
Qed.

Lemma filled_New (rnd : nat -> byte) (h0 : Heap) :
  filled h0 (randomBoundary rnd) (fst (New rnd h0)) (snd (New rnd h0))
         [] [] 0 [] [].
Proof.
  rewrite New_eq. split; simpl; try done. apply NoDup_nil_2.
Qed.

(** Appending one of the caller's readers. *)
Lemma filled_add_external h0 b mr h srcs hdrs total ext bytes r len0 :
  filled h0 b mr h srcs hdrs total ext bytes ->
  live h0 r -> r ∉ ext ->
  exists mr',
    AddReader r len0 mr = Some mr'
    /\ filled h0 b mr' h (srcs ++ [r]) hdrs (total + len0) (ext ++ [r])
              (bytes ++ content h0 r).
Proof.
  intros F Hlive Hfresh. pose proof F as [Hrs Hh Hb Hc Hl Hnd Hw Hlv Hct].
  pose proof (live_allocated _ _ Hlive) as Hr0.
  assert (Hrs' : readers mr = (length h0 :: srcs) ++ [S (length h0)]) by done.
  eexists. split; [exact (AddReader_snoc r len0 mr _ _ Hrs') |].
  split; simpl; try done.
  - by rewrite <- app_assoc.
  - rewrite Hl, add64_wrap. f_equal. lia.
  - apply NoDup_app. split; [done |]. split; [| apply NoDup_singleton].
    intros x Hx Hxr. apply list_elem_of_singleton in Hxr as ->.
    apply (proj1 (Forall_forall _ _) Hw) in Hx as [[_ Hx]|Hx]; [done | lia].
  - apply Forall_app. split.
    + eapply Forall_impl; [exact Hw |]. simpl. intros a [[Ha Hin]|Ha]; [| by right].
      left. split; [done |]. apply elem_of_app. by left.
    + apply Forall_singleton. left. split; [done |].
      apply elem_of_app. right. by apply list_elem_of_singleton.
  - apply Forall_app. split; [done |]. apply Forall_singleton.
    rewrite Hh. by apply live_app.
  - rewrite map_app, concat_app, Hct. simpl. rewrite app_nil_r. f_equal.
    rewrite Hh. by apply content_app.
Qed.

(** Appending a literal the assembler allocates itself. *)
Lemma filled_add_literal h0 b mr h srcs hdrs total ext bytes hd :
  filled h0 b mr h srcs hdrs total ext bytes ->
  exists mr',
    AddReader (length h) (len hd) mr = Some mr'
    /\ filled h0 b mr' (h ++ [StringsReader (bytes_of hd) 0])
              (srcs ++ [length h]) (hdrs ++ [StringsReader (bytes_of hd) 0])
              (total + len hd) ext (bytes ++ bytes_of hd).
Proof.
  intros F. pose proof F as [Hrs Hh Hb Hc Hl Hnd Hw Hlv Hct].
  destruct (filled_below _ _ _ _ _ _ _ _ _ F) as [Hlen Hbelow].
  assert (Hrs' : readers mr = (length h0 :: srcs) ++ [S (length h0)]) by done.
  eexists. split; [exact (AddReader_snoc _ _ mr _ _ Hrs') |].
  split; simpl; try done.
  - by rewrite <- app_assoc.
  - rewrite Hh at 1. by rewrite <- !app_assoc.
  - rewrite Hl, add64_wrap. f_equal. lia.
  - apply NoDup_app. split; [done |]. split; [| apply NoDup_singleton].
    intros x Hx Hxr. apply list_elem_of_singleton in Hxr as ->.
    apply (proj1 (Forall_forall _ _) Hbelow) in Hx. lia.
  - apply Forall_app. split.
    + eapply Forall_impl; [exact Hw |]. simpl. rewrite length_app. simpl.
      intros a [Ha|Ha]; [by left | right; lia].
    + apply Forall_singleton. right. rewrite length_app. simpl. lia.
  - apply Forall_app. split.
    + eapply Forall_impl; [exact Hlv |]. intros a. apply live_app.
    + apply Forall_singleton. eexists. split; [apply list_lookup_middle; done | done].
  - rewrite map_app, concat_app, contents_app, Hct by done. simpl.
    rewrite app_nil_r. f_equal. unfold content.
    by rewrite list_lookup_middle.
Qed.

Lemma filled_proper h0 b mr h srcs hdrs total ext bytes total' ext' bytes' :
  filled h0 b mr h srcs hdrs total ext bytes ->
  total = total' -> ext = ext' -> bytes = bytes' ->
  filled h0 b mr h srcs hdrs total' ext' bytes'.
Proof. by intros F <- <- <-. Qed.

Lemma open_file_live (h : Heap) (f : addr) name data :
  open_file h f = Some (name, data) -> live h f.
Proof.
  unfold open_file, live. destruct (h !! f) as [[?|?|?|nm dt off [|]]|]; try done.
  intros _. eexists. split; [done | done].
Qed.

Lemma open_file_Stat (h ext : Heap) (f : addr) name data :
  open_file h f = Some (name, data) ->
  file_Stat (h ++ ext) f = Some (inr (name, Z.of_nat (length data))).
Proof.
  unfold open_file, file_Stat.
  destruct (h !! f) as [o|] eqn:Ho; [| done].
  rewrite (lookup_app_l_Some _ _ _ _ Ho).
  destruct o as [?|?|?|nm dt off [|]]; try done. by intros [= -> ->].
Qed.

(** A header literal followed by one of the caller's readers: what
    [AddFormReader] and [AddFile] both do. *)
Lemma filled_add_part h0 b mr h srcs hdrs total ext bytes hd r len0 :
  filled h0 b mr h srcs hdrs total ext bytes ->
  live h0 r -> r ∉ ext ->
  exists mr1 mr2 srcs' hdrs',
    AddReader (length h) (len hd) mr = Some mr1
    /\ AddReader r len0 mr1 = Some mr2
    /\ filled h0 b mr2 (h ++ [StringsReader (bytes_of hd) 0]) srcs' hdrs'
              (total + (len hd + len0)) (ext ++ [r])
              (bytes ++ bytes_of hd ++ content h0 r).
Proof.
  intros F Hlive Hfresh.
  destruct (filled_add_literal _ _ _ _ _ _ _ _ _ hd F) as (mr1 & H1 & F1).
  destruct (filled_add_external _ _ _ _ _ _ _ _ _ r len0 F1 Hlive Hfresh)
    as (mr2 & H2 & F2).
  exists mr1, mr2. eexists _, _. split; [exact H1 |]. split; [exact H2 |].
  eapply filled_proper; [exact F2 | lia | done | by rewrite <- app_assoc].
Qed.

Lemma run_appends_filled fs rnd h0 cs :
  Forall (append_ok h0) cs -> NoDup (externals cs) ->
  exists rets mr h srcs hdrs,
    run fs cs (fst (New rnd h0)) (snd (New rnd h0)) = Some (rets, mr, h)
    /\ filled h0 (randomBoundary rnd) mr h srcs hdrs
         (sum_Z (map (declared_length h0 (randomBoundary rnd)) cs))
         (externals cs)
         (concat (map (appended_content h0 (randomBoundary rnd)) cs)).
Proof.
  set (b := randomBoundary rnd).
  induction cs as [|c cs IH] using rev_ind; intros Hok Hnd.
  - exists [], (fst (New rnd h0)), (snd (New rnd h0)), [], [].
    split; [done | apply filled_New].
  - apply Forall_app in Hok as [Hok Hc].
    apply (proj1 (Forall_singleton _ _)) in Hc.
    unfold externals in Hnd. rewrite map_app, concat_app in Hnd. simpl in Hnd.
    rewrite app_nil_r in Hnd. apply NoDup_app in Hnd as (Hnd & Hdisj & _).
    destruct (IH Hok Hnd) as (rets & mr & h & srcs & hdrs & Hrun & F).
    rewrite run_snoc, Hrun.
    unfold externals. rewrite !map_app, !concat_app, sum_Z_app. simpl.
    rewrite !app_nil_r.
    assert (Hfresh : forall r, r ∈ external c -> r ∉ externals cs).
    { intros r Hr Hin. by apply (Hdisj r Hin). }
    pose proof (filled_boundary _ _ _ _ _ _ _ _ _ F) as Hb.
    destruct c as [? | r len0 | name filename len0 r | ? | ? | ? ?
                   | file | ? | ? | | ]; simpl in Hc; try done.
    + destruct (filled_add_external _ _ _ _ _ _ _ _ _ r len0 F Hc)
        as (mr' & Hadd & F').
      { apply Hfresh. by apply list_elem_of_singleton. }
      simpl. rewrite Hadd. exists (rets ++ [RetVoid]), mr', h. eexists _, _.
      split; [done |]. eapply filled_proper; [exact F' | | done |].
      * simpl. lia.
      * unfold appended_content. simpl. by rewrite app_nil_r.
    + destruct (filled_add_part _ _ _ _ _ _ _ _ _
                  (formHeader b name filename) r len0 F Hc)
        as (mr1 & mr2 & srcs' & hdrs' & H1 & H2 & F').
      { apply Hfresh. by apply list_elem_of_singleton. }
      simpl. unfold AddFormReader, alloc. rewrite Hb. fold b.
      rewrite H1, H2. eexists _, mr2, _, srcs', hdrs'.
      split; [done |]. eapply filled_proper; [exact F' | | done |].
      * simpl. lia.
      * unfold appended_content. simpl. by rewrite app_nil_r.
    + destruct Hc as [[name data] Hopen].
      destruct (filled_add_part _ _ _ _ _ _ _ _ _
                  (formHeader b "file" (basename name)) file
                  (Z.of_nat (List.length data)) F)
        as (mr1 & mr2 & srcs' & hdrs' & H1 & H2 & F').
      { by eapply open_file_live. }
      { apply Hfresh. by apply list_elem_of_singleton. }
      assert (Hst : file_Stat h file
                    = Some (inr (name, Z.of_nat (List.length data)))).
      { rewrite (filled_heap _ _ _ _ _ _ _ _ _ F).
        by apply open_file_Stat. }
      simpl. unfold AddFile. rewrite Hst.
      unfold alloc. rewrite Hb. fold b. rewrite H1, H2.
      eexists _, mr2, _, srcs', hdrs'.
      split; [done |]. eapply filled_proper; [exact F' | | done |].
      * simpl. rewrite Hopen. lia.
      * unfold appended_content. simpl. rewrite Hopen. by rewrite app_nil_r.
Qed.

Lemma stream_result_live (h : Heap) (rs tail : list addr) :
  Forall (live h) rs ->
  stream_result h (rs ++ tail)
  = (concat (map (content h) rs) ++ fst (stream_result h tail),
     snd (stream_result h tail)).
Proof.
  induction 1 as [|r rs (o & Ho & He) _ IH]; simpl.
  - by destruct (stream_result h tail).
  - rewrite Ho, He, IH. unfold content. rewrite Ho. by rewrite app_assoc.
Qed.

Lemma outcome_inv {S} (d : Drained S) bs e :
  outcome d = Some (Some (bs, e)) -> exists s, d = Some (Some (bs, e, s)).
Proof.
  destruct d as [[[[bs' e'] s]|]|]; simpl; try done.
  intros [= -> ->]. eauto.
Qed.

(** The stream of a filled assembler: what its sources hold, in the
    order they were appended, then the closing boundary, then [io.EOF]. *)
Lemma filled_stream h0 b mr h srcs hdrs total ext bytes fuel n :
  filled h0 b mr h srcs hdrs total ext bytes ->
  0 < n ->
  length (bytes ++ bytes_of (formClose b)) < fuel ->
  exists s,
    drain fuel n mr h = Some (Some (bytes ++ bytes_of (formClose b), EOF, s)).
Proof.
  intros F Hn Hfuel. pose proof F as [Hrs Hh Hb Hc Hl Hnd Hw Hlv Hct].
  destruct (filled_below _ _ _ _ _ _ _ _ _ F) as [Hlen Hbelow].
  apply outcome_inv. rewrite drain_outcome.
  unfold GetMultiReader. rewrite Hc. cbn [fst]. unfold MultiReader. rewrite Hrs.
  assert (HB : h !! length h0 = Some (BytesBuffer [])).
  { rewrite Hh. simpl. by apply list_lookup_middle. }
  assert (HC : h !! S (length h0)
               = Some (BytesReader (bytes_of (formClose b)) 0)).
  { rewrite Hh. rewrite lookup_app_r by lia.
    by replace (S (length h0) - length h0) with 1 by lia. }
  assert (Hres : stream_result h (length h0 :: srcs ++ [S (length h0)])
                 = (bytes ++ bytes_of (formClose b), EOF)).
  { cbn [stream_result]. rewrite HB. simpl.
    rewrite (stream_result_live h srcs _ Hlv), Hct. simpl. rewrite HC. simpl.
    by rewrite app_nil_r. }
  assert (Hnotin : forall a, a = length h0 \/ a = S (length h0) -> a ∉ srcs).
  { intros a Ha Hin.
    apply (proj1 (Forall_forall _ _) Hw) in Hin as [[Hin _]|Hin]; lia. }
  destruct (drain_body_spec fuel n (length h0 :: srcs ++ [S (length h0)]) h Hn)
    as [s Hs].
  - apply NoDup_cons. split.
    + intros [Hin|Hin]%elem_of_app;
        [exact (Hnotin _ (or_introl eq_refl) Hin) |].
      apply list_elem_of_singleton in Hin. lia.
    + apply NoDup_app. split; [done |]. split; [| apply NoDup_singleton].
      intros x Hx Hxc. apply list_elem_of_singleton in Hxc as ->.
      exact (Hnotin _ (or_intror eq_refl) Hx).
  - apply Forall_cons. split; [unfold allocated; lia |].
    apply Forall_app. split; [done |].
    apply Forall_singleton. unfold allocated. lia.
  - by rewrite Hres.
  - rewrite Hs, Hres. done.
Qed.

(** ** The stream is the concatenation of the sources *)

(** C1, as amended: for every sequence of pairwise distinct, readable
    sources appended through [AddReader], [AddFormReader] or [AddFile]
    to an assembler created by [New], before the first read, the bytes
    produced by calling [Read] (with a non-empty buffer) until it
    reports an error are the contents of the appended sources in append
    order followed by the closing-boundary literal, and the error is
    [io.EOF]: nothing comes after the closing boundary. *)
Theorem stream_is_concatenation_of_sources
    (fs : FileSystem) (rnd : nat -> byte) (h0 : Heap) (cs : list Call)
    (n fuel : nat) :
  Forall (append_ok h0) cs -> NoDup (externals cs) -> 0 < n ->
  length (concat (map (appended_content h0 (randomBoundary rnd)) cs)
          ++ bytes_of (formClose (randomBoundary rnd))) < fuel ->
  exists rets mr h s,
    run fs cs (fst (New rnd h0)) (snd (New rnd h0)) = Some (rets, mr, h)
    /\ drain fuel n mr h
       = Some (Some (concat (map (appended_content h0 (Boundary mr)) cs)
                     ++ bytes_of (formClose (Boundary mr)), EOF, s)).
Proof.
  intros Hok Hnd Hn Hfuel.
  destruct (run_appends_filled fs rnd h0 cs Hok Hnd)
    as (rets & mr & h & srcs & hdrs & Hrun & F).
  destruct (filled_stream _ _ _ _ _ _ _ _ _ fuel n F Hn Hfuel) as [s Hs].
  exists rets, mr, h, s. split; [done |].
  unfold Boundary. by rewrite (filled_boundary _ _ _ _ _ _ _ _ _ F).
Qed.

Lemma demo_sources_ok : Forall (append_ok demo_heap) demo_sources.
Proof.
  repeat apply Forall_cons_2; try apply Forall_nil_2;
    (eexists; split; [reflexivity | reflexivity]).
Defined.

Lemma demo_sources_NoDup : NoDup (externals demo_sources).
Proof.
  apply NoDup_cons_2; [| apply NoDup_cons_2; [| apply NoDup_nil_2]].
  - intros H. apply list_elem_of_singleton in H. discriminate H.
  - intros H. inversion H.
Defined.

Lemma stream_is_concatenation_of_sources_witness :
  exists rets mr h s,
    run demo_fs demo_sources (fst (New demo_rnd demo_heap))
        (snd (New demo_rnd demo_heap)) = Some (rets, mr, h)
    /\ drain 400 16 mr h
       = Some (Some (concat (map (appended_content demo_heap (Boundary mr))
                                 demo_sources)
                     ++ bytes_of (formClose (Boundary mr)), EOF, s)).
Proof.
  apply (stream_is_concatenation_of_sources demo_fs demo_rnd demo_heap
           demo_sources 16 400 demo_sources_ok demo_sources_NoDup).
  - apply Nat.ltb_lt. reflexivity.
  - apply Nat.ltb_lt. vm_compute. reflexivity.
Defined.

(** C1, as stated, fails when one reader is appended twice: a reader is
    a stateful object, the second occurrence has nothing left, and the
    stream holds its content once. *)
Lemma same_reader_appended_twice :
  let h0 := [StringsReader (bytes_of "hello") 0] in
  let cs := [CallAddReader 0 5; CallAddReader 0 5] in
  exists rets mr h s out,
    run demo_fs cs (fst (New demo_rnd h0)) (snd (New demo_rnd h0))
    = Some (rets, mr, h)
    /\ drain 40 16 mr h = Some (Some (out, EOF, s))
    /\ out = bytes_of "hello" ++ bytes_of (formClose (Boundary mr))
    /\ concat (map (appended_content h0 (Boundary mr)) cs)
       = bytes_of "hello" ++ bytes_of "hello"
    /\ out <> concat (map (appended_content h0 (Boundary mr)) cs)
              ++ bytes_of (formClose (Boundary mr)).
Proof.
  intros h0 cs. eexists _, _, _, _, _.
  split; [vm_compute; reflexivity |].
  split; [vm_compute; reflexivity |].
  split; [vm_compute; reflexivity |].
  split; [vm_compute; reflexivity |].
  vm_compute. discriminate.
Qed.

(** ** The constructor *)

Lemma hexdigits_ok (b : byte) (l : bool) :
  boundary_char_ok (hexdigit (Byte.to_N b / 16)) l = true
  /\ boundary_char_ok (hexdigit (Byte.to_N b mod 16)) l = true.
Proof. destruct b, l; vm_compute; split; reflexivity. Qed.

Lemma Sprintf_x_boundary_ok (buf : list byte) :
  boundary_chars_ok (Sprintf_x buf) = true.
Proof.
  induction buf as [|b buf IH]; [done |].
  change (boundary_chars_ok
            (String (hexdigit (Byte.to_N b / 16))
               (String (hexdigit (Byte.to_N b mod 16)) (Sprintf_x buf)))
          = true).
  cbn [boundary_chars_ok]. rewrite IH.
  destruct (hexdigits_ok b false) as [-> _].
  destruct (hexdigits_ok b (match Sprintf_x buf with
                            | EmptyString => true
                            | String _ _ => false
                            end)) as [_ ->].
  done.
Qed.

(** The boundary [New] generates is one [SetBoundary] would accept. *)
Lemma randomBoundary_valid (rnd : nat -> byte) (wr : Writer) :
  lastpart wr = None ->
  fst (Writer_SetBoundary (randomBoundary rnd) wr) = None.
Proof.
  intros Hl. unfold Writer_SetBoundary. rewrite Hl.
  assert (Hlen : ((len (randomBoundary rnd) <? 1)
                  || (70 <? len (randomBoundary rnd)))%Z = false).
  { unfold len. by rewrite length_randomBoundary. }
  assert (Hok : boundary_chars_ok (randomBoundary rnd) = true)
    by apply Sprintf_x_boundary_ok.
  by rewrite Hlen, Hok.
Qed.

(** C6, as amended: [New] takes a boundary token of sixty hexadecimal
    digits from the random source, derives the content type
    [multipart/form-data; boundary=<token>], and initialises the readers
    slice with two elements, the (empty) body buffer the multipart
    writer writes into and the closing-boundary literal
    [\r\n--<token>--\r\n]; no reader of the caller is in it.  An
    assembler with nothing appended therefore produces exactly the
    closing boundary line and then [io.EOF]. *)
Theorem New_initial_state
    (rnd : nat -> byte) (h0 : Heap) (n fuel : nat) :
  0 < n -> 68 < fuel ->
  let mr := fst (New rnd h0) in
  let h := snd (New rnd h0) in
  let b := randomBoundary rnd in
  Boundary mr = b
  /\ String.length b = 60
  /\ ContentType mr = "multipart/form-data; boundary=" +:+ b
  /\ readers mr = [length h0; S (length h0)]
  /\ h = h0 ++ [BytesBuffer [];
                BytesReader (bytes_of (CRLF +:+ "--" +:+ b +:+ "--" +:+ CRLF)) 0]
  /\ option_map w (writer mr) = Some (length h0)
  /\ multiReader mr = None
  /\ length_ mr = 68%Z
  /\ Count mr = 0%Z
  /\ exists s,
       drain fuel n mr h
       = Some (Some (bytes_of (CRLF +:+ "--" +:+ b +:+ "--" +:+ CRLF), EOF, s)).
Proof.
  intros Hn Hfuel mr h b.
  pose proof (filled_New rnd h0) as F. fold mr h b in F.
  destruct (filled_stream _ _ _ _ _ _ _ _ _ fuel n F Hn) as [s Hs].
  { rewrite app_nil_l, length_bytes_of.
    pose proof (len_formClose b) as Hl. unfold len in Hl.
    pose proof (length_randomBoundary rnd). fold b in H. lia. }
  subst mr h. rewrite New_eq in *. cbn [fst snd] in *.
  repeat split; try done; try apply length_randomBoundary.
  exists s. exact Hs.
Qed.

Lemma New_initial_state_witness :
  readers (fst (New demo_rnd demo_heap)) = [2; 3]
  /\ exists s,
       drain 80 16 (fst (New demo_rnd demo_heap)) (snd (New demo_rnd demo_heap))
       = Some (Some (bytes_of (CRLF +:+ "--" +:+ randomBoundary demo_rnd
                               +:+ "--" +:+ CRLF), EOF, s)).
Proof.
  destruct (New_initial_state demo_rnd demo_heap 16 80
              ltac:(apply Nat.ltb_lt; reflexivity)
              ltac:(apply Nat.ltb_lt; reflexivity))
    as (_ & _ & _ & Hr & _ & _ & _ & _ & _ & Hs).
  split; [exact Hr | exact Hs].
Defined.

(** C6, as stated, fails: the readers slice [New] builds has two
    elements, not one -- in this revision and in the later one. *)
Lemma New_has_two_readers :
  readers (fst (New demo_rnd [])) = [0; 1]
  /\ length (readers (fst (New demo_rnd []))) <> 1
  /\ snd (New demo_rnd []) !! 0 = Some (BytesBuffer [])
  /\ length (readers (fst (Rev2.New demo_rnd []))) <> 1.
Proof. repeat split; vm_compute; discriminate. Qed.

(** ** Files *)

(** [AddFile] never touches the file it is given. *)
Lemma AddFile_leaves_file_open file mr h err mr' h' :
  AddFile file mr h = Some (err, mr', h') -> h' !! file = h !! file.
Proof.
  unfold AddFile. destruct (file_Stat h file) as [[e|[name size]]|] eqn:Hst;
    [| | done].
  - by intros [= _ _ <-].
  - simpl. destruct (AddReader _ _ mr) as [mr1|]; [| done].
    destruct (AddReader file size mr1) as [mr2|]; [| done].
    intros [= _ _ <-]. apply lookup_app_l.
    unfold file_Stat in Hst. destruct (h !! file) eqn:Hf; [| done].
    by eapply lookup_lt_Some.
Qed.

(** [WriteFile] on a file that exists: whatever the assembler, the file
    it appends is closed by the time the call returns, and every [Read]
    of that reader fails. *)
Lemma WriteFile_always_closes fs key filename data mr h init lst :
  fs filename = Some data -> readers mr = init ++ [lst] ->
  exists mr' h',
    WriteFile fs key filename mr h = Some (None, mr', h')
    /\ readers mr' = init ++ [S (length h); length h; lst]
    /\ h' !! length h = Some (File filename data 0 true)
    /\ forall n,
         reader_Read h' (length h) n
         = Some (([], Some (ErrClosed "read" filename)), h').
Proof.
  intros Hfs Hrs. unfold WriteFile, os_Open, alloc. rewrite Hfs.
  assert (Hf : (h ++ [File filename data 0 false]) !! length h
               = Some (File filename data 0 false))
    by by apply list_lookup_middle.
  unfold file_Stat. rewrite Hf.
  rewrite (AddReader_snoc _ _ mr _ _ Hrs).
  rewrite (AddReader_snoc _ _ _ (init ++ [length (h ++ [File filename data 0 false])]) lst)
    by (cbn [readers]; by rewrite <- !app_assoc).
  eexists _, _. split; [reflexivity |]. cbn [readers].
  assert (Hf2 : ((h ++ [File filename data 0 false])
                 ++ [StringsReader
                       (bytes_of (formHeader (boundary mr) "file" filename)) 0])
                !! length h = Some (File filename data 0 false))
    by by apply lookup_app_l_Some.
  assert (Hclosed : file_Close
            ((h ++ [File filename data 0 false])
             ++ [StringsReader
                   (bytes_of (formHeader (boundary mr) "file" filename)) 0])
            (length h) !! length h = Some (File filename data 0 true)).
  { unfold file_Close. rewrite Hf2. apply list_lookup_insert_eq.
    rewrite !length_app. simpl. lia. }
  split; [| split; [exact Hclosed |]].
  - rewrite <- app_assoc. simpl. rewrite length_app. simpl.
    by replace (length h + 1) with (S (length h)) by lia.
  - intros n. unfold reader_Read. rewrite Hclosed. simpl.
    by rewrite list_insert_id.
Qed.

(** C7 at the failing input: [WriteFile] on an existing file returns
    without error, but its deferred [Close] has closed the very file it
    appended; the stream delivers the part header and then fails on the
    file with "file already closed", never its content.  [AddFile], the
    sibling function, leaves the caller's file open, and the same
    content streams through to the closing boundary. *)
Theorem WriteFile_closes_the_streamed_file :
  let mr0 := fst (New demo_rnd []) in
  let h0 := snd (New demo_rnd []) in
  let opened := [File "report.txt" (bytes_of "hello") 0 false] in
  (exists mr h s,
     WriteFile demo_fs "k" "report.txt" mr0 h0 = Some (None, mr, h)
     /\ readers mr = [0; 3; 2; 1]
     /\ h !! 2 = Some (File "report.txt" (bytes_of "hello") 0 true)
     /\ drain 20 16 mr h
        = Some (Some (bytes_of (formHeader (Boundary mr) "file" "report.txt"),
                      ErrClosed "read" "report.txt", s)))
  /\ (exists mr h mr' h',
        AddFile 0 (fst (New demo_rnd opened)) (snd (New demo_rnd opened))
        = Some (None, mr, h)
        /\ h !! 0 = Some (File "report.txt" (bytes_of "hello") 0 false)
        /\ drain 20 16 mr h
           = Some (Some (bytes_of (formHeader (Boundary mr) "file" "report.txt")
                         ++ bytes_of "hello"
                         ++ bytes_of (formClose (Boundary mr)),
                         EOF, (mr', h')))
        /\ h' !! 0 = Some (File "report.txt" (bytes_of "hello") 5 false)).
Proof.
  intros mr0 h0 opened. split.
  - eexists _, _, _. split; [vm_compute; reflexivity |].
    split; [vm_compute; reflexivity |].
    split; vm_compute; reflexivity.
  - eexists _, _, _, _. split; [vm_compute; reflexivity |].
    split; [vm_compute; reflexivity |].
    split; vm_compute; reflexivity.
Qed.

(** ** Appending after the multi-reader has been built *)

Lemma GetMultiReader_cursor mr :
  multiReader (snd (GetMultiReader mr)) = Some (fst (GetMultiReader mr)).
Proof. unfold GetMultiReader. by destruct (multiReader mr) eqn:E. Qed.

Lemma GetMultiReader_built mr rs :
  multiReader mr = Some rs -> GetMultiReader mr = (rs, mr).
Proof. intros H. unfold GetMultiReader. by rewrite H. Qed.

(** Once built, the multi-reader is never dropped; it is built by
    [Read], [SetupRequest] and [GetMultiReader]. *)
Lemma exec_cursor fs c mr h ret mr' h' :
  exec fs c mr h = Some (ret, mr', h') ->
  is_Some (multiReader mr) \/ builds_cursor c = true ->
  is_Some (multiReader mr').
Proof.
  pose proof (GetMultiReader_cursor mr) as Hg.
  destruct c; simpl; intros H Hc;
    unfold SetBoundary, AddFormReader, AddValuesReader, WriteFields, WriteFile,
      AddFile, SetupRequest, GetCloseReader, Close, Read, os_Open, alloc in H;
    repeat case_match; simplify_eq; inv_AddReader; simpl in *;
    try (destruct Hc as [Hc|Hc]; [| discriminate Hc]);
    try congruence; try (rewrite Hg; eauto); eauto.
Qed.

Lemma run_cursor fs cs mr h rets mr' h' :
  run fs cs mr h = Some (rets, mr', h') ->
  is_Some (multiReader mr) \/ existsb builds_cursor cs = true ->
  is_Some (multiReader mr').
Proof.
  revert mr h rets. induction cs as [|c rest IH]; intros mr h rets; simpl.
  - intros [= _ <- _] [H|H]; [done | discriminate H].
  - destruct (exec fs c mr h) as [[[ret m1] h1]|] eqn:He; [| done].
    destruct (run fs rest m1 h1) as [[[rs m2] h2]|] eqn:Hr; [| done].
    intros [= _ <- <-] Hc. apply (IH _ _ _ Hr).
    destruct Hc as [Hc|Hc].
    + left. eapply exec_cursor; [exact He | by left].
    + apply orb_prop in Hc as [Hc|Hc]; [| by right].
      left. eapply exec_cursor; [exact He | by right].
Qed.

(** What a consumer gets depends on the multi-reader and the heap only. *)
Lemma drain_same_cursor fuel n mr mr' h :
  is_Some (multiReader mr) -> multiReader mr' = multiReader mr ->
  outcome (drain fuel n mr' h) = outcome (drain fuel n mr h).
Proof.
  intros [rs Hrs] Heq. rewrite !drain_outcome.
  rewrite (GetMultiReader_built mr rs Hrs).
  rewrite (GetMultiReader_built mr' rs); [done | congruence].
Qed.

Lemma snoc_neq {A} (init : list A) (x y : A) : init ++ [x; y] <> init ++ [y].
Proof.
  intros H. apply (f_equal length) in H. rewrite !length_app in H.
  simpl in H. lia.
Qed.

(** Objects allocated later do not disturb the readers that exist. *)
Lemma reader_Read_app (h ext : Heap) (r : addr) (n : nat) :
  allocated h r ->
  reader_Read (h ++ ext) r n
  = match reader_Read h r n with
    | Some (res, h') => Some (res, h' ++ ext)
    | None => None
    end.
Proof.
  intros Hr. unfold reader_Read. rewrite lookup_app_l by exact Hr.
  destruct (h !! r) as [o|]; [| done].
  destruct (Object_Read o n) as [res o']. by rewrite insert_app_l.
Qed.

Lemma multiReader_Read_app (rs : list addr) (h ext : Heap) (n : nat) :
  Forall (allocated h) rs ->
  multiReader_Read rs (h ++ ext) n
  = match multiReader_Read rs h n with
    | Some (res, rs', h') => Some (res, rs', h' ++ ext)
    | None => None
    end.
Proof.
  revert h. induction rs as [|r rest IH]; intros h Hall; [done |].
  apply Forall_cons in Hall as [Hr Hall]. simpl.
  rewrite (reader_Read_app h ext r n Hr). unfold reader_Read.
  destruct (h !! r) as [o|]; [| done].
  destruct (Object_Read o n) as [[bs err] o'].
  destruct (isEOF err); [| done].
  destruct bs; [| by destruct rest].
  apply IH. by apply Forall_allocated_insert.
Qed.

Lemma multiReader_Read_allocated (rs : list addr) (h : Heap) (n : nat)
    res rs' h' :
  Forall (allocated h) rs ->
  multiReader_Read rs h n = Some (res, rs', h') ->
  Forall (allocated h') rs'.
Proof.
  revert h. induction rs as [|r rest IH]; intros h Hall; simpl.
  - by intros [= _ <- _].
  - apply Forall_cons in Hall as [Hr Hall]. unfold reader_Read.
    destruct (h !! r) as [o|]; [| done].
    destruct (Object_Read o n) as [[bs err] o'].
    assert (Hrest : Forall (allocated (<[r := o']> h)) rest)
      by by apply Forall_allocated_insert.
    assert (Hr' : allocated (<[r := o']> h) r)
      by (unfold allocated; by rewrite length_insert).
    destruct (isEOF err).
    + destruct bs, rest; first [ by apply IH | by intros [= _ <- <-] ].
    + intros [= _ <- <-]. by apply Forall_cons.
Qed.

Lemma drain_body_app (fuel n : nat) (rs : list addr) (h ext : Heap) :
  Forall (allocated h) rs ->
  outcome (drain_body fuel n rs (h ++ ext)) = outcome (drain_body fuel n rs h).
Proof.
  revert rs h. induction fuel as [|fuel IH]; intros rs h Hall; [done |].
  simpl. rewrite (multiReader_Read_app rs h ext n Hall).
  destruct (multiReader_Read rs h n) as [[[[bs [e|]] rs'] h']|] eqn:Hr;
    [done | | done].
  apply multiReader_Read_allocated in Hr; [| done].
  specialize (IH rs' h' Hr).
  destruct (drain_body fuel n rs' (h' ++ ext)) as [[[[b1 e1] s1]|]|];
    destruct (drain_body fuel n rs' h') as [[[[b2 e2] s2]|]|];
    simpl in *; congruence.
Qed.

(** C3, as amended: on an assembler on which a [Read] has occurred,
    [AddReader] still returns normally and reports no error; it changes
    the readers slice and the stored total length, but not the
    multi-reader, the counter or any reader object, so the bytes
    already delivered and the bytes the stream has yet to deliver are
    what they were without the call.  The same holds for
    [AddFormReader], which only allocates its header literal besides. *)
Theorem append_after_read_is_silent
    (fs : FileSystem) (rnd : nat -> byte) (h0 : Heap) (cs : list Call)
    (rets : list Returned) (mr : MultipartReader) (h : Heap)
    (r : addr) (len0 : Z) :
  run fs cs (fst (New rnd h0)) (snd (New rnd h0)) = Some (rets, mr, h) ->
  existsb is_Read cs = true ->
  exists mr',
    exec fs (CallAddReader r len0) mr h = Some (RetVoid, mr', h)
    /\ failed RetVoid = false
    /\ readers mr' <> readers mr
    /\ length_ mr' = add64 (length_ mr) len0
    /\ is_Some (multiReader mr)
    /\ multiReader mr' = multiReader mr
    /\ Count mr' = Count mr
    /\ (forall fuel n,
          outcome (drain fuel n mr' h) = outcome (drain fuel n mr h))
    /\ forall name filename rs,
         multiReader mr = Some rs -> Forall (allocated h) rs ->
         exists mr2 h2,
           exec fs (CallAddFormReader name filename len0 r) mr h
           = Some (RetVoid, mr2, h2)
           /\ multiReader mr2 = multiReader mr
           /\ Count mr2 = Count mr
           /\ forall fuel n,
                outcome (drain fuel n mr2 h2) = outcome (drain fuel n mr h).
Proof.
  intros Hrun Hread.
  assert (Hcur : is_Some (multiReader mr)).
  { eapply run_cursor; [exact Hrun |]. right.
    clear -Hread. induction cs as [|c cs IH]; [done |]. simpl in *.
    apply orb_prop in Hread as [H|H]; [| by rewrite (IH H), orb_true_r].
    by destruct c. }
  destruct (run_step _ _ _ _ _ _ _ Hrun) as [(_ & _ & Hr) _].
  rewrite New_eq in Hr. cbn [fst readers] in Hr.
  destruct (Hr [length h0] (S (length h0)) eq_refl) as [more Hmore].
  rewrite app_assoc in Hmore.
  eexists. simpl. rewrite (AddReader_snoc r len0 mr _ _ Hmore).
  split; [reflexivity |]. simpl.
  split; [done |]. split; [rewrite Hmore; apply (snoc_neq ([length h0] ++ more)) |].
  split; [done |]. split; [done |]. split; [done |]. split; [done |].
  split; [intros fuel n; by apply drain_same_cursor |].
  intros name filename rs Hrs Hall.
  unfold AddFormReader, alloc.
  rewrite (AddReader_snoc _ _ mr _ _ Hmore).
  rewrite (AddReader_snoc r len0 _ (([length h0] ++ more) ++ [length h])
             (S (length h0)))
    by (cbn [readers]; by rewrite <- !app_assoc).
  eexists _, _. split; [reflexivity |]. simpl.
  split; [done |]. split; [done |]. intros fuel n.
  rewrite !drain_outcome. unfold GetMultiReader. simpl. rewrite Hrs. simpl.
  by apply drain_body_app.
Qed.

Lemma append_after_read_is_silent_witness :
  exists rets mr h mr',
    run demo_fs [CallAddReader 0 5; CallRead 16]
        (fst (New demo_rnd demo_heap)) (snd (New demo_rnd demo_heap))
    = Some (rets, mr, h)
    /\ exec demo_fs (CallAddReader 1 6) mr h = Some (RetVoid, mr', h)
    /\ forall fuel n,
         outcome (drain fuel n mr' h) = outcome (drain fuel n mr h).
Proof.
  destruct (run demo_fs [CallAddReader 0 5; CallRead 16]
                (fst (New demo_rnd demo_heap)) (snd (New demo_rnd demo_heap)))
    as [[[rets mr] h]|] eqn:Hrun; [| by vm_compute in Hrun].
  destruct (append_after_read_is_silent demo_fs demo_rnd demo_heap
              [CallAddReader 0 5; CallRead 16] rets mr h 1 6%Z Hrun eq_refl)
    as (mr' & Hexec & _ & _ & _ & _ & _ & _ & Hsame & _).
  exists rets, mr, h, mr'. split; [reflexivity |]. split; [exact Hexec |].
  exact Hsame.
Defined.

(** C3, as stated, fails: after a [Read], [AddReader] does not fail --
    it has no error result at all -- and it does change the assembler:
    the reader is inserted and its length added. *)
Lemma append_after_read_does_not_fail :
  exists bs mr1 h1 mr2,
    exec demo_fs (CallRead 16) (fst (New demo_rnd demo_heap))
         (snd (New demo_rnd demo_heap)) = Some (RetRead bs None, mr1, h1)
    /\ bs <> []
    /\ multiReader mr1 = Some [3]
    /\ exec demo_fs (CallAddReader 0 5) mr1 h1 = Some (RetVoid, mr2, h1)
    /\ failed RetVoid = false
    /\ readers mr1 = [2; 3] /\ readers mr2 = [2; 0; 3]
    /\ length_ mr1 = 68%Z /\ length_ mr2 = 73%Z.
Proof.
  eexists _, _, _, _. split; [vm_compute; reflexivity |].
  split; [discriminate |].
  split; [vm_compute; reflexivity |].
  split; [vm_compute; reflexivity |].
  split; [reflexivity |].
  split; [vm_compute; reflexivity |].
  split; [vm_compute; reflexivity |].
  split; vm_compute; reflexivity.
Qed.



(** ** The total length *)

Lemma declared_accurate h0 b c :
  append_ok h0 c -> accurate h0 c ->
  declared_length h0 b c = Z.of_nat (length (appended_content h0 b c)).
Proof.
  unfold appended_content.
  destruct c as [? | r len0 | name filename len0 r | ? | ? | ? ?
                 | file | ? | ? | | ];
    cbn [append_ok accurate declared_length appended_header external
         map concat]; try done.
  - intros _ ->. by rewrite app_nil_r.
  - intros _ ->. rewrite app_nil_r, length_app, length_bytes_of.
    unfold len. lia.
  - unfold open_file, content.
    destruct (h0 !! file) as [[?|?|?|name data off [|]]|];
      try (by intros [? ?]).
    intros _ ->. rewrite app_nil_r, length_app, length_bytes_of.
    unfold len. cbn [remaining]. rewrite drop_0. lia.
Qed.

Lemma sum_declared_accurate h0 b cs :
  Forall (append_ok h0) cs -> Forall (accurate h0) cs ->
  sum_Z (map (declared_length h0 b) cs)
  = Z.of_nat (length (concat (map (appended_content h0 b) cs))).
Proof.
  induction cs as [|c cs IH]; [done |].
  intros [Hok Hoks]%Forall_cons [Hacc Haccs]%Forall_cons. simpl.
  rewrite length_app, (declared_accurate _ _ _ Hok Hacc), (IH Hoks Haccs). lia.
Qed.

Lemma drain_after_SetupRequest fuel n req mr h :
  outcome (drain fuel n (snd (SetupRequest req mr)) h)
  = outcome (drain fuel n mr h).
Proof.
  rewrite !drain_outcome. f_equal.
  unfold SetupRequest, GetCloseReader, GetMultiReader.
  destruct (multiReader mr) as [rs|] eqn:E; simpl; by rewrite ?E.
Qed.


Lemma demo_sources_accurate : Forall (accurate demo_heap) demo_sources.
Proof. repeat apply Forall_cons_2; try apply Forall_nil_2; reflexivity. Defined.



(** ** SetBoundary *)

Lemma boundary_char_ok_spec (c : ascii) (l : bool) :
  boundary_char_ok c l = mem_ascii c bchars && negb (l && Ascii.eqb c " ").
Proof.
  destruct c as [[] [] [] [] [] [] [] []], l; vm_compute; reflexivity.
Qed.

Lemma boundary_chars_ok_spec (b : string) :
  boundary_chars_ok b = true
  <-> forall i c, String.get i b = Some c ->
                  mem_ascii c bchars = true
                  /\ (c = " "%char -> S i <> String.length b).
Proof.
  induction b as [|a rest IH]; cbn [boundary_chars_ok].
  - split; [intros _ i c H; discriminate H | done].
  - rewrite andb_true_iff, IH, boundary_char_ok_spec, andb_true_iff,
      negb_true_iff. split.
    + intros [[Ha Hlast] Hrest] [|i] c; simpl.
      * intros [= <-]. split; [done |]. intros ->.
        destruct rest; [done | simpl; lia].
      * intros Hget. destruct (Hrest i c Hget) as [Hc Hsp].
        split; [done |]. intros Hs. specialize (Hsp Hs). lia.
    + intros H. split; [split |].
      * by destruct (H 0 a eq_refl).
      * destruct rest; [| done]. simpl.
        destruct (Ascii.eqb_spec a " ") as [->|]; [| done].
        destruct (H 0 " "%char eq_refl) as [_ Hsp]. by specialize (Hsp eq_refl).
      * intros i c Hget. destruct (H (S i) c Hget) as [Hc Hsp].
        split; [done |]. intros Hs. specialize (Hsp Hs). simpl in Hsp. lia.
Qed.

(** A token with a carriage return or a line feed violates the syntax. *)
Lemma CRLF_violates_syntax (b : string) :
  ContainsAny b CRLF = true -> ~ boundary_syntax b.
Proof.
  intros Hc [_ Hs]. apply boundary_chars_ok_spec in Hs.
  induction b as [|a rest IH]; [done |]. simpl in Hc, Hs.
  apply andb_prop in Hs as [Ha Hrest].
  destruct (Ascii.eqb_spec a CR) as [->|]; [by destruct rest |].
  destruct (Ascii.eqb_spec a LF) as [->|]; [by destruct rest |].
  by apply IH.
Qed.

(** The writer [New] installs is never dropped. *)
Lemma exec_writer fs c mr h ret mr' h' :
  exec fs c mr h = Some (ret, mr', h') ->
  is_Some (writer mr) -> is_Some (writer mr').
Proof.
  destruct c; simpl; intros H Hc;
    unfold SetBoundary, AddFormReader, AddValuesReader, WriteFields, WriteFile,
      AddFile, SetupRequest, GetCloseReader, GetMultiReader, Close, Read,
      os_Open, alloc in H;
    repeat case_match; simplify_eq; inv_AddReader; simpl in *;
    try congruence; try (by eexists); eauto.
  unfold GetMultiReader in *. by repeat case_match; simplify_eq.
Qed.

Lemma run_writer fs cs mr h rets mr' h' :
  run fs cs mr h = Some (rets, mr', h') ->
  is_Some (writer mr) -> is_Some (writer mr').
Proof.
  revert mr h rets. induction cs as [|c rest IH]; intros mr h rets; simpl.
  - by intros [= _ <- _].
  - destruct (exec fs c mr h) as [[[ret m1] h1]|] eqn:He; [| done].
    destruct (run fs rest m1 h1) as [[[rs m2] h2]|] eqn:Hr; [| done].
    intros [= _ <- <-] Hw. apply (IH _ _ _ Hr). by eapply exec_writer.
Qed.




(** * Further properties *)

(** ** The writer's output *)

Lemma buffer_Write_spec (h : Heap) (a : addr) (buf p : list byte) :
  h !! a = Some (BytesBuffer buf) ->
  buffer_Write h a p = Some (<[a := BytesBuffer (buf ++ p)]> h).
Proof. intros H. unfold buffer_Write. by rewrite H. Qed.

Lemma CreateFormField_spec (key : string) (wr : Writer) (h : Heap)
    (buf : list byte) :
  h !! w wr = Some (BytesBuffer buf) ->
  CreateFormField key wr h
  = Some ({| w := w wr; w_boundary := w_boundary wr;
             lastpart := Some {| closed := false |} |},
          <[w wr := BytesBuffer
                      (buf ++ field_part (w_boundary wr) (started wr) key
                                         EmptyString)]> h).
Proof.
  intros Hb. unfold CreateFormField, CreatePart.
  rewrite (buffer_Write_spec h (w wr) buf _ Hb). do 4 f_equal.
  unfold field_part, started. cbn [foldr fst snd].
  destruct (lastpart wr); rewrite !bytes_of_app, <- ?app_assoc; reflexivity.
Qed.

Lemma field_part_value (b : string) (a : bool) (key value : string) :
  field_part b a key value = field_part b a key EmptyString ++ bytes_of value.
Proof.
  unfold field_part. rewrite !bytes_of_app, <- !app_assoc. do 7 f_equal.
Qed.

(** [WriteFields] appends the encoding of the fields to the body buffer
    and touches no other object. *)
Lemma WriteFields_loop_spec (fields : list (string * string)) (wr : Writer)
    (h : Heap) (buf : list byte) :
  h !! w wr = Some (BytesBuffer buf) ->
  WriteFields_loop fields wr h
  = Some (None, writer_after fields wr,
          <[w wr := BytesBuffer
                      (buf ++ fields_encoding (w_boundary wr) (started wr)
                                              fields)]> h).
Proof.
  revert wr h buf. induction fields as [|[key value] rest IH];
    intros wr h buf Hb.
  - simpl. rewrite app_nil_r. by rewrite list_insert_id.
  - cbn [WriteFields_loop]. rewrite (CreateFormField_spec key wr h buf Hb).
    assert (Hlt : w wr < length h) by by eapply lookup_lt_Some.
    unfold part_Write. cbn [lastpart closed w].
    erewrite buffer_Write_spec; [| by apply list_lookup_insert_eq].
    rewrite list_insert_insert_eq.
    erewrite IH; [| cbn [w]; by apply list_lookup_insert_eq].
    cbn [w w_boundary started lastpart]. rewrite list_insert_insert_eq.
    do 3 f_equal.
    + by destruct rest.
    + cbn [fields_encoding]. rewrite (field_part_value _ _ key value).
      by rewrite <- !app_assoc.
Qed.
(** ** Appending calls only extend the heap *)

Lemma file_Close_fresh (h : Heap) name data off cl (tail : Heap) :
  file_Close (h ++ File name data off cl :: tail) (length h)
  = h ++ File name data off true :: tail.
Proof.
  unfold file_Close. rewrite list_lookup_middle by done.
  rewrite insert_app_r_alt by lia. by rewrite Nat.sub_diag.
Qed.

Lemma exec_append fs c mr h ret mr' h' :
  is_append c = true -> exec fs c mr h = Some (ret, mr', h') ->
  writer mr' = writer mr /\ multiReader mr' = multiReader mr
  /\ count mr' = count mr /\ boundary mr' = boundary mr
  /\ contentType mr' = contentType mr
  /\ exists ext, h' = h ++ ext.
Proof.
  destruct c as [? | r len0 | name filename len0 r | ? | ? | key filename
                 | file | ? | ? | | ]; try discriminate; intros _; simpl.
  - destruct (AddReader r len0 mr) as [m|] eqn:H; [| done].
    intros [= _ <- <-]. inv_AddReader. repeat split; try done.
    exists []. by rewrite app_nil_r.
  - unfold AddFormReader, alloc.
    destruct (AddReader _ _ mr) as [m1|] eqn:H1; [| done].
    destruct (AddReader r len0 m1) as [m2|] eqn:H2; [| done].
    intros [= _ <- <-]. inv_AddReader. repeat split; try congruence. eauto.
  - unfold WriteFile, os_Open, alloc. destruct (fs filename) as [data|].
    2: { intros [= _ <- <-]. repeat split; try done.
         exists []. by rewrite app_nil_r. }
    unfold file_Stat. rewrite list_lookup_middle by done.
    destruct (AddReader _ _ mr) as [m1|] eqn:H1; [| done].
    destruct (AddReader _ _ m1) as [m2|] eqn:H2; [| done].
    intros [= _ <- <-]. inv_AddReader. repeat split; try congruence.
    rewrite <- app_assoc. cbn [app]. rewrite file_Close_fresh. eauto.
  - unfold AddFile, alloc.
    destruct (file_Stat h file) as [[e|[name size]]|]; [| | done].
    + intros [= _ <- <-]. repeat split; try done.
      exists []. by rewrite app_nil_r.
    + destruct (AddReader _ _ mr) as [m1|] eqn:H1; [| done].
      destruct (AddReader file size m1) as [m2|] eqn:H2; [| done].
      intros [= _ <- <-]. inv_AddReader. repeat split; try congruence. eauto.
Qed.

Lemma run_append fs cs mr h rets mr' h' :
  forallb is_append cs = true -> run fs cs mr h = Some (rets, mr', h') ->
  writer mr' = writer mr /\ multiReader mr' = multiReader mr
  /\ count mr' = count mr /\ boundary mr' = boundary mr
  /\ contentType mr' = contentType mr
  /\ exists ext, h' = h ++ ext.
Proof.
  revert mr h rets. induction cs as [|c rest IH]; intros mr h rets; simpl.
  - intros _ [= _ <- <-]. repeat split; try done.
    exists []. by rewrite app_nil_r.
  - intros [Hc Hrest]%andb_prop.
    destruct (exec fs c mr h) as [[[ret m1] h1]|] eqn:He; [| done].
    destruct (run fs rest m1 h1) as [[[rs m2] h2]|] eqn:Hr; [| done].
    intros [= _ <- <-].
    destruct (exec_append _ _ _ _ _ _ _ Hc He)
      as (H1 & H2 & H3 & H4 & H5 & ext1 & ->).
    destruct (IH _ _ _ Hrest Hr) as (G1 & G2 & G3 & G4 & G5 & ext2 & ->).
    repeat split; try congruence.
    exists (ext1 ++ ext2). by rewrite app_assoc.
Qed.

Lemma append_ok_is_append (h0 : Heap) (cs : list Call) :
  Forall (append_ok h0) cs -> forallb is_append cs = true.
Proof.
  induction 1 as [|c cs Hc _ IH]; [done |]. simpl. rewrite IH.
  by destruct c.
Qed.

Lemma run_app fs cs1 cs2 mr h :
  run fs (cs1 ++ cs2) mr h
  = match run fs cs1 mr h with
    | None => None
    | Some (rets1, mr1, h1) =>
        match run fs cs2 mr1 h1 with
        | None => None
        | Some (rets2, mr2, h2) => Some (rets1 ++ rets2, mr2, h2)
        end
    end.
Proof.
  revert mr h. induction cs1 as [|c cs1 IH]; intros mr h; simpl.
  - by destruct (run fs cs2 mr h) as [[[r m] hh]|].
  - destruct (exec fs c mr h) as [[[ret m1] h1]|]; [| done].
    rewrite IH. destruct (run fs cs1 m1 h1) as [[[r1 m2] h2]|]; [| done].
    by destruct (run fs cs2 m2 h2) as [[[r2 m3] h3]|].
Qed.

(** ** The stream when the body buffer holds something

    The body buffer is the first reader: whatever it holds comes
    before every appended source. *)
Lemma body_stream h0 b mr h srcs hdrs total ext bytes pre mr' fuel n :
  filled h0 b mr h srcs hdrs total ext bytes ->
  readers mr' = readers mr -> multiReader mr' = None ->
  0 < n ->
  length (pre ++ bytes ++ bytes_of (formClose b)) < fuel ->
  exists s,
    drain fuel n mr' (<[length h0 := BytesBuffer pre]> h)
    = Some (Some (pre ++ bytes ++ bytes_of (formClose b), EOF, s)).
Proof.
  intros F Hrs' Hc' Hn Hfuel. pose proof F as [Hrs Hh Hb Hc Hl Hnd Hw Hlv Hct].
  destruct (filled_below _ _ _ _ _ _ _ _ _ F) as [Hlen Hbelow].
  apply outcome_inv. rewrite drain_outcome.
  unfold GetMultiReader. rewrite Hc'. cbn [fst]. unfold MultiReader.
  rewrite Hrs', Hrs.
  assert (HC : h !! S (length h0)
               = Some (BytesReader (bytes_of (formClose b)) 0)).
  { rewrite Hh. rewrite lookup_app_r by lia.
    by replace (S (length h0) - length h0) with 1 by lia. }
  assert (Hnotin : forall a, a = length h0 \/ a = S (length h0) -> a ∉ srcs).
  { intros a Ha Hin.
    apply (proj1 (Forall_forall _ _) Hw) in Hin as [[Hin _]|Hin]; lia. }
  assert (HBnot : length h0 ∉ srcs ++ [S (length h0)]).
  { intros [Hin|Hin]%elem_of_app;
      [exact (Hnotin _ (or_introl eq_refl) Hin) |].
    apply list_elem_of_singleton in Hin. lia. }
  set (h' := <[length h0 := BytesBuffer pre]> h).
  assert (Hres : stream_result h' (length h0 :: srcs ++ [S (length h0)])
                 = (pre ++ bytes ++ bytes_of (formClose b), EOF)).
  { cbn [stream_result]. unfold h'.
    rewrite list_lookup_insert_eq by lia. cbn [read_error remaining].
    rewrite (stream_result_insert h _ _ _ HBnot).
    rewrite (stream_result_live h srcs _ Hlv), Hct. simpl. rewrite HC. simpl.
    by rewrite app_nil_r. }
  destruct (drain_body_spec fuel n (length h0 :: srcs ++ [S (length h0)]) h' Hn)
    as [s Hs].
  - apply NoDup_cons. split; [done |].
    apply NoDup_app. split; [done |]. split; [| apply NoDup_singleton].
    intros x Hx Hxc. apply list_elem_of_singleton in Hxc as ->.
    exact (Hnotin _ (or_intror eq_refl) Hx).
  - apply Forall_allocated_insert.
    apply Forall_cons. split; [unfold allocated; lia |].
    apply Forall_app. split; [done |].
    apply Forall_singleton. unfold allocated. lia.
  - by rewrite Hres.
  - rewrite Hs, Hres. done.
Qed.

Lemma filled_body h0 b mr h srcs hdrs total ext bytes :
  filled h0 b mr h srcs hdrs total ext bytes ->
  h !! length h0 = Some (BytesBuffer []).
Proof.
  intros F. rewrite (filled_heap _ _ _ _ _ _ _ _ _ F). simpl.
  by apply list_lookup_middle.
Qed.
Lemma with_writer_same (mr : MultipartReader) (wr : Writer) :
  writer mr = Some wr -> with_writer mr wr = mr.
Proof. intros H. destruct mr. simpl in *. unfold with_writer. simpl. by subst. Qed.

Lemma WriteFields_spec (fields : list (string * string))
    (mr : MultipartReader) (wr : Writer) (h : Heap) (buf : list byte) :
  writer mr = Some wr -> h !! w wr = Some (BytesBuffer buf) ->
  WriteFields fields mr h
  = Some (None, with_writer mr (writer_after fields wr),
          <[w wr := BytesBuffer
                      (buf ++ fields_encoding (w_boundary wr) (started wr)
                                              fields)]> h).
Proof.
  intros Hw Hb. unfold WriteFields. destruct fields as [|f rest].
  - simpl. rewrite app_nil_r, (list_insert_id _ _ _ Hb).
    by rewrite (with_writer_same _ _ Hw).
  - rewrite Hw. by rewrite (WriteFields_loop_spec _ wr h buf Hb).
Qed.

(** The state after appending calls, with the writer [New] installed. *)
Lemma run_appends_state fs rnd h0 cs :
  Forall (append_ok h0) cs -> NoDup (externals cs) ->
  exists rets mr h srcs hdrs,
    run fs cs (fst (New rnd h0)) (snd (New rnd h0)) = Some (rets, mr, h)
    /\ filled h0 (randomBoundary rnd) mr h srcs hdrs
         (sum_Z (map (declared_length h0 (randomBoundary rnd)) cs))
         (externals cs)
         (concat (map (appended_content h0 (randomBoundary rnd)) cs))
    /\ writer mr = Some (NewWriter rnd (length h0))
    /\ count mr = 0%Z
    /\ contentType mr = "multipart/form-data; boundary=" +:+ randomBoundary rnd.
Proof.
  intros Hok Hnd.
  destruct (run_appends_filled fs rnd h0 cs Hok Hnd)
    as (rets & mr & h & srcs & hdrs & Hrun & F).
  exists rets, mr, h, srcs, hdrs. split; [done |]. split; [done |].
  destruct (run_append _ _ _ _ _ _ _ (append_ok_is_append _ _ Hok) Hrun)
    as (Hw & _ & Hc & _ & Hct & _).
  rewrite Hw, Hc, Hct, New_eq. done.
Qed.

(** ** WriteFields *)



(** Appending calls neither look at the writer nor at the body buffer. *)
Lemma AddReader_with_writer r len0 mr wr :
  AddReader r len0 (with_writer mr wr)
  = match AddReader r len0 mr with
    | Some m => Some (with_writer m wr)
    | None => None
    end.
Proof.
  unfold AddReader, with_writer. cbn [readers].
  destruct (slice_to (readers mr) _); [| done].
  by destruct (index (readers mr) _).
Qed.

Lemma exec_frame fs c mr h ret mr' h' B o wr :
  frame_ok B c -> B < length h ->
  exec fs c mr h = Some (ret, mr', h') ->
  exec fs c (with_writer mr wr) (<[B := o]> h)
  = Some (ret, with_writer mr' wr, <[B := o]> h')
  /\ B < length h'.
Proof.
  destruct c as [? | r len0 | name filename len0 r | ? | ? | ? ?
                 | file | ? | ? | | ]; try done; intros Hok HB; simpl.
  - rewrite AddReader_with_writer.
    destruct (AddReader r len0 mr) as [m|]; [| done]. by intros [= <- <- <-].
  - unfold AddFormReader, alloc. rewrite length_insert.
    cbn [with_writer boundary]. rewrite !AddReader_with_writer.
    destruct (AddReader _ _ mr) as [m1|]; [| done].
    rewrite AddReader_with_writer.
    destruct (AddReader r len0 m1) as [m2|]; [| done].
    intros [= <- <- <-]. rewrite insert_app_l by done.
    split; [done |]. rewrite length_app. lia.
  - unfold AddFile, file_Stat, alloc. rewrite length_insert.
    rewrite list_lookup_insert_ne by done.
    destruct (h !! file) as [[?|?|?|name data off [|]]|]; try done.
    + by intros [= <- <- <-].
    + cbn [with_writer boundary]. rewrite !AddReader_with_writer.
      destruct (AddReader _ _ mr) as [m1|]; [| done].
      rewrite AddReader_with_writer.
      destruct (AddReader file _ m1) as [m2|]; [| done].
      intros [= <- <- <-]. rewrite insert_app_l by done.
      split; [done |]. rewrite length_app. lia.
Qed.

Lemma run_frame fs cs mr h rets mr' h' B o wr :
  Forall (frame_ok B) cs -> B < length h ->
  run fs cs mr h = Some (rets, mr', h') ->
  run fs cs (with_writer mr wr) (<[B := o]> h)
  = Some (rets, with_writer mr' wr, <[B := o]> h').
Proof.
  intros Hok. revert mr h rets.
  induction Hok as [|c cs Hc _ IH]; intros mr h rets HB; simpl.
  - by intros [= <- <- <-].
  - destruct (exec fs c mr h) as [[[ret m1] h1]|] eqn:He; [| done].
    destruct (run fs cs m1 h1) as [[[rs m2] h2]|] eqn:Hr; [| done].
    intros [= <- <- <-].
    destruct (exec_frame _ _ _ _ _ _ _ B o wr Hc HB He) as [-> HB1].
    by rewrite (IH _ _ _ HB1 Hr).
Qed.

Lemma append_ok_frame (h0 : Heap) (cs : list Call) :
  Forall (append_ok h0) cs -> Forall (frame_ok (length h0)) cs.
Proof.
  intros H. eapply Forall_impl; [exact H |]. intros c.
  destruct c as [? | ? ? | ? ? ? ? | ? | ? | ? ? | file | ? | ? | | ];
    try done. simpl.
  intros [[name data] Hf] ->. unfold open_file in Hf.
  by rewrite lookup_ge_None_2 in Hf.
Qed.

Lemma with_writer_twice mr wr wr' :
  with_writer (with_writer mr wr) wr' = with_writer mr wr'.
Proof. done. Qed.

(** X2: writing the fields first and appending the sources afterwards
    leads to exactly the state that appending first and writing last
    leads to: [WriteFields] and the appending calls commute. *)
Theorem WriteFields_commutes_with_appends
    (fs : FileSystem) (rnd : nat -> byte) (h0 : Heap) (cs : list Call)
    (fields : list (string * string)) :
  Forall (append_ok h0) cs -> NoDup (externals cs) ->
  exists rets mr h,
    run fs (CallWriteFields fields :: cs)
        (fst (New rnd h0)) (snd (New rnd h0))
    = Some (RetErr None :: rets, mr, h)
    /\ run fs (cs ++ [CallWriteFields fields])
           (fst (New rnd h0)) (snd (New rnd h0))
       = Some (rets ++ [RetErr None], mr, h).
Proof.
  intros Hok Hnd.
  destruct (run_appends_state fs rnd h0 cs Hok Hnd)
    as (rets & mr & h & srcs & hdrs & Hrun & F & Hw & _ & _).
  pose proof (filled_body _ _ _ _ _ _ _ _ _ F) as Hbody.
  pose proof (WriteFields_spec fields mr _ h [] Hw Hbody) as Hlast.
  pose proof (filled_New rnd h0) as F0.
  pose proof (filled_body _ _ _ _ _ _ _ _ _ F0) as Hbody0.
  assert (Hw0 : writer (fst (New rnd h0)) = Some (NewWriter rnd (length h0)))
    by by rewrite New_eq.
  pose proof (WriteFields_spec fields _ _ _ [] Hw0 Hbody0) as Hfirst.
  assert (HB : length h0 < length (snd (New rnd h0))).
  { rewrite New_eq. cbn [snd]. rewrite length_app. simpl. lia. }
  exists rets. eexists _, _. split.
  - cbn [run exec]. rewrite Hfirst.
    rewrite (run_frame _ _ _ _ _ _ _ _ _ _ (append_ok_frame _ _ Hok) HB Hrun).
    reflexivity.
  - rewrite run_app, Hrun. cbn [run exec]. rewrite Hlast. reflexivity.
Qed.

Lemma WriteFields_commutes_with_appends_witness :
  exists rets mr h,
    run demo_fs (CallWriteFields [("a", "1")] :: demo_sources)
        (fst (New demo_rnd demo_heap)) (snd (New demo_rnd demo_heap))
    = Some (RetErr None :: rets, mr, h)
    /\ run demo_fs (demo_sources ++ [CallWriteFields [("a", "1")]])
           (fst (New demo_rnd demo_heap)) (snd (New demo_rnd demo_heap))
       = Some (rets ++ [RetErr None], mr, h).
Proof.
  exact (WriteFields_commutes_with_appends demo_fs demo_rnd demo_heap
           demo_sources [("a", "1")] demo_sources_ok demo_sources_NoDup).
Defined.
(** ** Close *)

Lemma Close_spec (mr : MultipartReader) (wr : Writer) (h : Heap)
    (buf : list byte) :
  writer mr = Some wr -> h !! w wr = Some (BytesBuffer buf) ->
  Close mr h
  = Some (None,
          with_writer mr {| w := w wr; w_boundary := w_boundary wr;
                            lastpart := None |},
          <[w wr := BytesBuffer
                      (buf ++ bytes_of (formClose (w_boundary wr)))]> h).
Proof.
  intros Hw Hb. unfold Close, Writer_Close. rewrite Hw.
  by rewrite (buffer_Write_spec h (w wr) buf _ Hb).
Qed.

(** X3: [Close] closes no reader; it makes the multipart writer print
    its closing line into the body buffer.  The stream of an assembler
    closed before the first read therefore starts with a closing
    boundary line, which the appended sources and the assembler's own
    closing boundary follow; the stored total length does not change. *)
Theorem Close_prints_a_closing_line_first
    (fs : FileSystem) (rnd : nat -> byte) (h0 : Heap) (cs : list Call)
    (req : Request) (n fuel : nat) :
  Forall (append_ok h0) cs -> NoDup (externals cs) -> 0 < n ->
  length (bytes_of (formClose (randomBoundary rnd))
          ++ concat (map (appended_content h0 (randomBoundary rnd)) cs)
          ++ bytes_of (formClose (randomBoundary rnd))) < fuel ->
  exists rets mr h s,
    run fs (cs ++ [CallClose]) (fst (New rnd h0)) (snd (New rnd h0))
    = Some (rets ++ [RetErr None], mr, h)
    /\ drain fuel n mr h
       = Some (Some (bytes_of (formClose (Boundary mr))
                     ++ concat (map (appended_content h0 (Boundary mr)) cs)
                     ++ bytes_of (formClose (Boundary mr)), EOF, s))
    /\ ContentLength (fst (SetupRequest req mr))
       = wrap64 (68 + sum_Z (map (declared_length h0 (Boundary mr)) cs)).
Proof.
  intros Hok Hnd Hn Hfuel.
  destruct (run_appends_state fs rnd h0 cs Hok Hnd)
    as (rets & mr & h & srcs & hdrs & Hrun & F & Hw & _ & _).
  pose proof (filled_body _ _ _ _ _ _ _ _ _ F) as Hbody.
  pose proof (Close_spec mr _ h [] Hw Hbody) as Hcl.
  cbn [NewWriter w w_boundary app] in Hcl.
  destruct (body_stream _ _ _ _ _ _ _ _ _
              (bytes_of (formClose (randomBoundary rnd)))
              (with_writer mr {| w := length h0;
                                 w_boundary := randomBoundary rnd;
                                 lastpart := None |})
              fuel n F eq_refl (filled_cursor _ _ _ _ _ _ _ _ _ F) Hn Hfuel)
    as [s Hs].
  eexists rets, _, _, s. rewrite run_app, Hrun. cbn [run exec].
  rewrite Hcl. split; [reflexivity |].
  unfold Boundary. cbn [with_writer boundary].
  rewrite (filled_boundary _ _ _ _ _ _ _ _ _ F). split; [exact Hs |].
  unfold SetupRequest, GetCloseReader, GetMultiReader.
  cbn [with_writer multiReader].
  rewrite (filled_cursor _ _ _ _ _ _ _ _ _ F). cbn.
  exact (filled_length _ _ _ _ _ _ _ _ _ F).
Qed.

Lemma Close_prints_a_closing_line_first_witness :
  exists rets mr h s,
    run demo_fs (demo_sources ++ [CallClose])
        (fst (New demo_rnd demo_heap)) (snd (New demo_rnd demo_heap))
    = Some (rets ++ [RetErr None], mr, h)
    /\ drain 600 16 mr h
       = Some (Some (bytes_of (formClose (Boundary mr))
                     ++ concat (map (appended_content demo_heap (Boundary mr))
                                    demo_sources)
                     ++ bytes_of (formClose (Boundary mr)), EOF, s))
    /\ ContentLength (fst (SetupRequest demo_req mr))
       = wrap64 (68 + sum_Z (map (declared_length demo_heap (Boundary mr))
                                 demo_sources)).
Proof.
  apply (Close_prints_a_closing_line_first demo_fs demo_rnd demo_heap
           demo_sources demo_req 16 600 demo_sources_ok demo_sources_NoDup).
  - apply Nat.ltb_lt. reflexivity.
  - apply Nat.ltb_lt. vm_compute. reflexivity.
Defined.

(** ** SetBoundary and the writer's parts *)

Lemma Writer_SetBoundary_ok (b : string) (wr : Writer) :
  lastpart wr = None -> boundary_syntax b ->
  Writer_SetBoundary b wr
  = (None, {| w := w wr; w_boundary := b; lastpart := None |}).
Proof.
  intros Hl [Hlen Hchars]. unfold Writer_SetBoundary. rewrite Hl.
  apply boundary_chars_ok_spec in Hchars. rewrite Hchars.
  replace ((len b <? 1) || (70 <? len b))%Z with false; [done |].
  symmetry. apply orb_false_iff. unfold len. rewrite !Z.ltb_ge. lia.
Qed.

(** X4: once a field has been written, [SetBoundary] fails with
    "SetBoundary called after write" whatever the token; after [Close],
    which finishes the last part, the same well-formed token is
    accepted again. *)
Theorem SetBoundary_blocked_by_parts_until_Close
    (fs : FileSystem) (rnd : nat -> byte) (h0 : Heap)
    (fields : list (string * string)) (b : string) :
  fields <> [] -> boundary_syntax b ->
  exists mr h,
    run fs [CallWriteFields fields; CallSetBoundary b; CallClose;
            CallSetBoundary b]
        (fst (New rnd h0)) (snd (New rnd h0))
    = Some ([RetErr None; RetErr (Some ErrSetBoundaryAfterWrite);
             RetErr None; RetErr None], mr, h)
    /\ option_map w_boundary (writer mr) = Some b
    /\ Boundary mr = randomBoundary rnd.
Proof.
  intros Hne Hsyn.
  pose proof (filled_body _ _ _ _ _ _ _ _ _ (filled_New rnd h0)) as Hbody0.
  assert (HB : length h0 < length (snd (New rnd h0))).
  { rewrite New_eq. cbn [snd]. rewrite length_app. simpl. lia. }
  assert (Hw0 : writer (fst (New rnd h0)) = Some (NewWriter rnd (length h0)))
    by by rewrite New_eq.
  assert (Hbd : boundary (fst (New rnd h0)) = randomBoundary rnd)
    by by rewrite New_eq.
  cbn [run exec]. rewrite (WriteFields_spec fields _ _ _ [] Hw0 Hbody0).
  destruct fields as [|f rest]; [done |]. cbn [writer_after].
  unfold SetBoundary at 1. cbn [with_writer writer].
  unfold Writer_SetBoundary at 1. cbn [lastpart].
  erewrite Close_spec;
    [| reflexivity | cbn [w NewWriter]; by apply list_lookup_insert_eq].
  unfold SetBoundary. cbn [with_writer writer].
  rewrite Writer_SetBoundary_ok by done.
  eexists _, _. split; [reflexivity |]. split; [done |]. exact Hbd.
Qed.

Lemma abc_boundary_syntax : boundary_syntax "abc".
Proof.
  apply (proj2 (and_comm _ _)). split.
  - by apply boundary_chars_ok_spec.
  - simpl. lia.
Defined.

Lemma SetBoundary_blocked_by_parts_until_Close_witness :
  exists mr h,
    run demo_fs [CallWriteFields [("a", "1")]; CallSetBoundary "abc";
                 CallClose; CallSetBoundary "abc"]
        (fst (New demo_rnd demo_heap)) (snd (New demo_rnd demo_heap))
    = Some ([RetErr None; RetErr (Some ErrSetBoundaryAfterWrite);
             RetErr None; RetErr None], mr, h)
    /\ option_map w_boundary (writer mr) = Some "abc"
    /\ Boundary mr = randomBoundary demo_rnd.
Proof.
  apply (SetBoundary_blocked_by_parts_until_Close demo_fs demo_rnd demo_heap
           [("a", "1")] "abc").
  - discriminate.
  - exact abc_boundary_syntax.
Defined.


(** ** The stream is fixed when the multi-reader is built *)

Lemma filled_allocated h0 b mr h srcs hdrs total ext bytes :
  filled h0 b mr h srcs hdrs total ext bytes ->
  Forall (allocated h) (readers mr).
Proof.
  intros F. destruct (filled_below _ _ _ _ _ _ _ _ _ F) as [Hlen Hbelow].
  rewrite (filled_readers _ _ _ _ _ _ _ _ _ F).
  apply Forall_cons. split; [unfold allocated; lia |].
  apply Forall_app. split; [done |].
  apply Forall_singleton. unfold allocated. lia.
Qed.

(** X6: the readers appended before [SetupRequest] (or
    [GetMultiReader]) built the multi-reader are the stream; whatever
    is appended afterwards with [AddReader], [AddFormReader], [AddFile]
    or [WriteFile] never reaches it. *)
Theorem stream_is_fixed_when_the_multi_reader_is_built
    (fs : FileSystem) (rnd : nat -> byte) (h0 : Heap)
    (cs1 : list Call) (c : Call) (cs2 : list Call)
    (rets : list Returned) (mr : MultipartReader) (h : Heap) (n fuel : nat) :
  Forall (append_ok h0) cs1 -> NoDup (externals cs1) ->
  builds_cursor c = true -> is_Read c = false ->
  forallb is_append cs2 = true ->
  run fs (cs1 ++ c :: cs2) (fst (New rnd h0)) (snd (New rnd h0))
  = Some (rets, mr, h) ->
  0 < n ->
  length (concat (map (appended_content h0 (randomBoundary rnd)) cs1)
          ++ bytes_of (formClose (randomBoundary rnd))) < fuel ->
  exists s,
    drain fuel n mr h
    = Some (Some (concat (map (appended_content h0 (Boundary mr)) cs1)
                  ++ bytes_of (formClose (Boundary mr)), EOF, s)).
Proof.
  intros Hok Hnd Hbuild Hnr Happ Hrun Hn Hfuel.
  destruct (run_appends_filled fs rnd h0 cs1 Hok Hnd)
    as (rets1 & mr1 & h1 & srcs & hdrs & Hrun1 & F).
  destruct (filled_stream _ _ _ _ _ _ _ _ _ fuel n F Hn Hfuel) as [s1 Hs1].
  pose proof (filled_cursor _ _ _ _ _ _ _ _ _ F) as Hcur.
  rewrite run_app, Hrun1 in Hrun. cbn [run] in Hrun.
  assert (Hc : exec fs c mr1 h1
               = Some (match c with
                       | CallSetupRequest req =>
                           RetRequest (fst (SetupRequest req mr1))
                       | _ => RetVoid
                       end, snd (GetMultiReader mr1), h1)).
  { destruct c; try discriminate; simpl;
      unfold SetupRequest, GetCloseReader;
      by destruct (GetMultiReader mr1). }
  rewrite Hc in Hrun.
  destruct (run fs cs2 _ h1) as [[[rets2 mr2] h2]|] eqn:Hrun2; [| done].
  injection Hrun as _ <- <-.
  destruct (run_append _ _ _ _ _ _ _ Happ Hrun2)
    as (_ & Hm & _ & Hb & _ & ext & ->).
  apply outcome_inv. rewrite drain_outcome.
  assert (Hcursor : fst (GetMultiReader mr2) = readers mr1).
  { unfold GetMultiReader at 1. rewrite Hm, GetMultiReader_cursor.
    unfold GetMultiReader. by rewrite Hcur. }
  rewrite Hcursor.
  rewrite (drain_body_app _ _ _ _ _ (filled_allocated _ _ _ _ _ _ _ _ _ F)).
  pose proof (drain_outcome fuel n mr1 h1) as Ho.
  unfold GetMultiReader in Ho. rewrite Hcur in Ho. cbn [fst MultiReader] in Ho.
  unfold MultiReader in Ho. rewrite <- Ho, Hs1. simpl.
  unfold Boundary. rewrite Hb.
  assert (Hb1 : boundary (snd (GetMultiReader mr1)) = boundary mr1).
  { unfold GetMultiReader. by destruct (multiReader mr1). }
  by rewrite Hb1, (filled_boundary _ _ _ _ _ _ _ _ _ F).
Qed.

Lemma stream_is_fixed_when_the_multi_reader_is_built_witness :
  exists rets mr h s,
    run demo_fs (demo_sources ++ CallSetupRequest demo_req
                   :: [CallAddReader 0 5; CallWriteFile "k" "report.txt"])
        (fst (New demo_rnd demo_heap)) (snd (New demo_rnd demo_heap))
    = Some (rets, mr, h)
    /\ drain 400 16 mr h
       = Some (Some (concat (map (appended_content demo_heap (Boundary mr))
                                 demo_sources)
                     ++ bytes_of (formClose (Boundary mr)), EOF, s)).
Proof.
  destruct (run demo_fs (demo_sources ++ CallSetupRequest demo_req
                           :: [CallAddReader 0 5;
                               CallWriteFile "k" "report.txt"])
                (fst (New demo_rnd demo_heap)) (snd (New demo_rnd demo_heap)))
    as [[[rets mr] h]|] eqn:Hrun; [| by vm_compute in Hrun].
  destruct (stream_is_fixed_when_the_multi_reader_is_built demo_fs demo_rnd
              demo_heap demo_sources (CallSetupRequest demo_req)
              [CallAddReader 0 5; CallWriteFile "k" "report.txt"]
              rets mr h 16 400 demo_sources_ok demo_sources_NoDup
              eq_refl eq_refl eq_refl Hrun
              ltac:(apply Nat.ltb_lt; reflexivity)
              ltac:(apply Nat.ltb_lt; vm_compute; reflexivity)) as [s Hs].
  exists rets, mr, h, s. split; [reflexivity | exact Hs].
Defined.

(** ** Reading with an empty buffer *)

Lemma multiReader_Read_empty_buffer (B : addr) (rest : list addr) (h : Heap)
    (buf : list byte) :
  h !! B = Some (BytesBuffer buf) ->
  multiReader_Read (B :: rest) h 0 = Some (([], None), B :: rest, h).
Proof.
  intros Hb. cbn [multiReader_Read]. unfold reader_Read. rewrite Hb.
  destruct buf as [|x buf]; simpl; by rewrite (list_insert_id _ _ _ Hb).
Qed.

Lemma drain_empty_buffer (fuel : nat) (mr : MultipartReader) (h : Heap)
    (B : addr) (rest : list addr) (buf : list byte) :
  fst (GetMultiReader mr) = B :: rest -> h !! B = Some (BytesBuffer buf) ->
  drain fuel 0 mr h = None.
Proof.
  revert mr. induction fuel as [|fuel IH]; intros mr Hg Hb; [done |].
  cbn [drain]. unfold Read. destruct (GetMultiReader mr) as [rs mr1].
  cbn [fst] in Hg. subst rs.
  rewrite (multiReader_Read_empty_buffer B rest h buf Hb).
  rewrite IH; [done | | done]. unfold GetMultiReader. done.
Qed.

(** X7: a [Read] with an empty buffer on an assembler that has not yet
    been read returns [(0, nil)] -- the body buffer, a [bytes.Buffer],
    answers so -- and changes nothing but building the multi-reader:
    the counter stays at zero, and a consumer that keeps reading with
    an empty buffer never sees [io.EOF]. *)
Theorem Read_with_empty_buffer_makes_no_progress
    (fs : FileSystem) (rnd : nat -> byte) (h0 : Heap) (cs : list Call) :
  Forall (append_ok h0) cs -> NoDup (externals cs) ->
  exists rets mr h mr',
    run fs cs (fst (New rnd h0)) (snd (New rnd h0)) = Some (rets, mr, h)
    /\ Read 0 mr h = Some (([], None), mr', h)
    /\ Count mr' = 0%Z
    /\ multiReader mr' = Some (readers mr)
    /\ forall fuel, drain fuel 0 mr h = None.
Proof.
  intros Hok Hnd.
  destruct (run_appends_state fs rnd h0 cs Hok Hnd)
    as (rets & mr & h & srcs & hdrs & Hrun & F & _ & Hcount & _).
  pose proof (filled_body _ _ _ _ _ _ _ _ _ F) as Hbody.
  pose proof (filled_cursor _ _ _ _ _ _ _ _ _ F) as Hcur.
  pose proof (filled_readers _ _ _ _ _ _ _ _ _ F) as Hrs.
  assert (Hg : fst (GetMultiReader mr) = length h0 :: srcs ++ [S (length h0)]).
  { unfold GetMultiReader. by rewrite Hcur. }
  exists rets, mr, h. eexists. split; [done |]. split.
  - unfold Read. unfold GetMultiReader in *. rewrite Hcur in *.
    cbn [fst] in Hg. unfold MultiReader in *. rewrite Hrs.
    rewrite (multiReader_Read_empty_buffer _ _ h [] Hbody). reflexivity.
  - cbn [Count count multiReader]. rewrite Hcount. split; [done |].
    split; [by rewrite Hrs |].
    intros fuel. by eapply drain_empty_buffer.
Qed.

Lemma Read_with_empty_buffer_makes_no_progress_witness :
  exists rets mr h mr',
    run demo_fs demo_sources (fst (New demo_rnd demo_heap))
        (snd (New demo_rnd demo_heap)) = Some (rets, mr, h)
    /\ Read 0 mr h = Some (([], None), mr', h)
    /\ Count mr' = 0%Z
    /\ multiReader mr' = Some (readers mr)
    /\ forall fuel, drain fuel 0 mr h = None.
Proof.
  exact (Read_with_empty_buffer_makes_no_progress demo_fs demo_rnd demo_heap
           demo_sources demo_sources_ok demo_sources_NoDup).
Defined.

(** ** AddValuesReader *)

Lemma file_le_refl (h : Heap) : file_le h h.
Proof. intros a name data off cl H. eauto. Qed.

Lemma file_le_trans (h1 h2 h3 : Heap) :
  file_le h1 h2 -> file_le h2 h3 -> file_le h1 h3.
Proof.
  intros H12 H23 a name data off cl H.
  destruct (H12 _ _ _ _ _ H) as (off' & cl' & H' & Hc).
  destruct (H23 _ _ _ _ _ H') as (off2 & cl2 & H2 & Hc2).
  exists off2, cl2. split; [done |]. auto.
Qed.

Lemma file_le_insert (h : Heap) (a : addr) (o o' : Object) :
  h !! a = Some o ->
  (forall name data off cl, o = File name data off cl ->
     exists off' cl', o' = File name data off' cl' /\ (cl = true -> cl' = true)) ->
  file_le h (<[a := o']> h).
Proof.
  intros Ho Hsame x name data off cl Hx. destruct (decide (a = x)) as [->|Hne].
  - rewrite Ho in Hx. injection Hx as ->.
    destruct (Hsame _ _ _ _ eq_refl) as (off' & cl' & -> & Hc).
    exists off', cl'. split; [| done].
    apply list_lookup_insert_eq. by eapply lookup_lt_Some.
  - exists off, cl. by rewrite list_lookup_insert_ne.
Qed.

Lemma file_le_buffer_Write (h h' : Heap) (a : addr) (p : list byte) :
  buffer_Write h a p = Some h' -> file_le h h'.
Proof.
  unfold buffer_Write. destruct (h !! a) as [[buf|?|?|?]|] eqn:Ho; try done.
  intros [= <-]. eapply file_le_insert; [exact Ho | done].
Qed.

Lemma file_le_file_Close (h : Heap) (f : addr) : file_le h (file_Close h f).
Proof.
  unfold file_Close. destruct (h !! f) as [[?|?|?|name data off cl]|] eqn:Ho;
    try apply file_le_refl.
  eapply file_le_insert; [exact Ho |]. intros ? ? ? ? [= <- <- <- <-]. eauto.
Qed.

Lemma file_Close_closes (h : Heap) (f : addr) name data off cl :
  h !! f = Some (File name data off cl) ->
  file_Close h f !! f = Some (File name data off true).
Proof.
  intros Ho. unfold file_Close. rewrite Ho.
  apply list_lookup_insert_eq. by eapply lookup_lt_Some.
Qed.

Lemma file_le_CreatePart header wr h wr' h' :
  CreatePart header wr h = Some (wr', h') -> file_le h h'.
Proof.
  unfold CreatePart. destruct (buffer_Write _ _ _) as [h1|] eqn:Hw; [| done].
  intros [= _ <-]. by eapply file_le_buffer_Write.
Qed.

Lemma file_le_Copy_to_part wr r h err h' :
  Copy_to_part wr r h = Some (err, h') -> file_le h h'.
Proof.
  unfold Copy_to_part, part_Write. intros H.
  destruct (h !! r) as [o|] eqn:Ho; [| done].
  assert (Hgen :
    match
      match lastpart wr with
      | Some p =>
          if closed p then Some (Some ErrFinishedPart, h)
          else match buffer_Write h (w wr) (remaining o) with
               | Some h'0 => Some (None, h'0)
               | None => None
               end
      | None => None
      end
    with
    | Some (Some e, h1) => Some (Some e, h1)
    | Some (None, h1) =>
        match h1 !! r with
        | Some o1 => Some (None, <[r := exhaust o1]> h1)
        | None => None
        end
    | None => None
    end = Some (err, h') -> file_le h h').
  { destruct (lastpart wr) as [p|]; [| done]. destruct (closed p).
    - intros [= _ <-]. apply file_le_refl.
    - destruct (buffer_Write _ _ _) as [h1|] eqn:Hw; [| done].
      apply file_le_buffer_Write in Hw.
      destruct (h1 !! r) as [o1|] eqn:Ho1; [| done]. intros [= _ <-].
      eapply file_le_trans; [exact Hw |].
      eapply file_le_insert; [exact Ho1 |].
      intros ? ? ? ? ->. simpl. eauto. }
  destruct o as [?|?|?|name data off [|]]; try (by apply Hgen).
  injection H as _ <-. apply file_le_refl.
Qed.

Lemma is_File_file_le (h h' : Heap) (r : addr) (name : string) :
  file_le h h' -> is_File h r = Some name -> is_File h' r = Some name.
Proof.
  unfold is_File. intros Hle.
  destruct (h !! r) as [[?|?|?|nm data off cl]|] eqn:Ho; try done.
  intros [= ->]. destruct (Hle _ _ _ _ _ Ho) as (off' & cl' & -> & _). done.
Qed.

Lemma AddValuesReader_loop_closes values wr h wr' h' :
  AddValuesReader_loop values wr h = Some (None, wr', h') ->
  file_le h h'
  /\ forall key r name,
       (key, r) ∈ values -> is_File h r = Some name ->
       exists data off, h' !! r = Some (File name data off true).
Proof.
  revert wr h wr' h'.
  induction values as [|[key0 r0] rest IH]; intros wr h wr' h'.
  - simpl. intros [= _ <-]. split; [apply file_le_refl |].
    intros key r name Hin. by apply elem_of_nil in Hin.
  - cbn [AddValuesReader_loop].
    set (created := match is_File h r0 with
                    | Some name => CreateFormFile key0 name wr h
                    | None => CreateFormField key0 wr h
                    end).
    assert (Hcr : forall wr1 h1, created = Some (wr1, h1) -> file_le h h1).
    { intros wr1 h1. subst created. unfold CreateFormFile, CreateFormField.
      destruct (is_File h r0); apply file_le_CreatePart. }
    destruct created as [[wr1 h1]|]; [| done].
    specialize (Hcr _ _ eq_refl).
    destruct (Copy_to_part wr1 r0 h1) as [[[e|] h2]|] eqn:Hcp; [done | | done].
    apply file_le_Copy_to_part in Hcp.
    destruct (AddValuesReader_loop rest wr1 h2) as [[[e2 wr2] h3]|] eqn:Hl;
      [| done].
    intros [= -> _ <-]. destruct (IH _ _ _ _ Hl) as [Hle3 Hclosed].
    assert (Hle : file_le h h3).
    { eapply file_le_trans; [exact Hcr |]. by eapply file_le_trans. }
    split; [eapply file_le_trans; [exact Hle | apply file_le_file_Close] |].
    intros key r name Hin Hf. apply elem_of_cons in Hin as [[= -> ->]|Hin].
    + unfold is_File in Hf.
      destruct (h !! r0) as [[?|?|?|nm data off cl]|] eqn:Ho; try done.
      injection Hf as ->.
      destruct (Hle _ _ _ _ _ Ho) as (off' & cl' & Ho3 & _).
      exists data, off'. by eapply file_Close_closes.
    + destruct (Hclosed key r name Hin) as (data & off & Hr).
      { eapply is_File_file_le; [| exact Hf].
        eapply file_le_trans; [exact Hcr | exact Hcp]. }
      destruct (file_le_file_Close h3 r0 _ _ _ _ _ Hr)
        as (off' & cl' & Hr' & Hc).
      exists data, off'. by rewrite Hr', (Hc eq_refl).
Qed.

(** X8: when [AddValuesReader] returns without error, every file among
    the values it was given is closed -- the deferred [Close] calls have
    run -- and the readers slice and the stored total length are what
    they were. *)
Theorem AddValuesReader_closes_every_file
    (values : list (string * addr)) (mr mr' : MultipartReader) (h h' : Heap) :
  AddValuesReader values mr h = Some (None, mr', h') ->
  readers mr' = readers mr
  /\ length_ mr' = length_ mr
  /\ multiReader mr' = multiReader mr
  /\ forall key r name,
       (key, r) ∈ values -> is_File h r = Some name ->
       exists data off, h' !! r = Some (File name data off true).
Proof.
  unfold AddValuesReader. destruct values as [|v vs].
  - intros [= <- <-]. repeat split; try done.
    intros key r name Hin. by apply elem_of_nil in Hin.
  - destruct (writer mr) as [wr|]; [| done].
    destruct (AddValuesReader_loop _ wr h) as [[[e wr'] h1]|] eqn:Hl; [| done].
    intros [= -> <- <-]. repeat split; try done.
    by apply (AddValuesReader_loop_closes _ _ _ _ _ Hl).
Qed.

Lemma AddValuesReader_closes_every_file_witness :
  exists mr' h',
    AddValuesReader [("f", 0); ("t", 1)] (fst (New demo_rnd demo_files))
                    (snd (New demo_rnd demo_files)) = Some (None, mr', h')
    /\ readers mr' = readers (fst (New demo_rnd demo_files))
    /\ exists data off, h' !! 0 = Some (File "report.txt" data off true).
Proof.
  destruct (AddValuesReader [("f", 0); ("t", 1)] (fst (New demo_rnd demo_files))
              (snd (New demo_rnd demo_files)))
    as [[[[e|] mr'] h']|] eqn:Hrun;
    [by vm_compute in Hrun | | by vm_compute in Hrun].
  destruct (AddValuesReader_closes_every_file _ _ _ _ _ Hrun)
    as (Hr & _ & _ & Hclosed).
  exists mr', h'. split; [reflexivity |]. split; [exact Hr |].
  apply (Hclosed "f" 0 "report.txt").
  - apply list_elem_of_here.
  - reflexivity.
Defined.
Lemma created_part_spec (key : string) (r : addr) (wr : Writer) (h : Heap)
    (buf : list byte) :
  h !! w wr = Some (BytesBuffer buf) ->
  match is_File h r with
  | Some name => CreateFormFile key name wr h
  | None => CreateFormField key wr h
  end
  = Some ({| w := w wr; w_boundary := w_boundary wr;
             lastpart := Some {| closed := false |} |},
          <[w wr := BytesBuffer
                      (buf ++ value_header h (w_boundary wr) (started wr)
                                           key r)]> h).
Proof.
  intros Hb. unfold value_header.
  unfold CreateFormFile, CreateFormField, CreatePart, started.
  destruct (is_File h r) as [name|];
    rewrite (buffer_Write_spec h (w wr) buf _ Hb); do 4 f_equal;
    cbn [foldr fst snd];
    destruct (lastpart wr); rewrite !bytes_of_app, <- ?app_assoc; reflexivity.
Qed.

Lemma Copy_to_part_spec (wr : Writer) (r : addr) (h : Heap) (o : Object)
    (buf : list byte) :
  lastpart wr = Some {| closed := false |} ->
  h !! r = Some o -> read_error o = None -> r <> w wr ->
  h !! w wr = Some (BytesBuffer buf) ->
  Copy_to_part wr r h
  = Some (None, <[r := exhaust o]>
                  (<[w wr := BytesBuffer (buf ++ remaining o)]> h)).
Proof.
  intros Hl Ho He Hne Hb. unfold Copy_to_part, part_Write.
  rewrite Ho, Hl. cbn [closed].
  rewrite (buffer_Write_spec h (w wr) buf _ Hb).
  rewrite list_lookup_insert_ne by done. rewrite Ho.
  by destruct o as [?|?|?|name data off [|]].
Qed.

Lemma remaining_exhaust (o : Object) : remaining (exhaust o) = [].
Proof.
  destruct o as [buf|s i|s i|name data off cl]; simpl; try done;
    apply drop_ge; rewrite length_drop; lia.
Qed.

Lemma file_Close_other (h : Heap) (f a : addr) :
  a <> f -> file_Close h f !! a = h !! a.
Proof.
  intros Hne. unfold file_Close.
  destruct (h !! f) as [[?|?|?|name data off cl]|]; try done.
  by rewrite list_lookup_insert_ne.
Qed.

Lemma length_file_Close (h : Heap) (f : addr) :
  length (file_Close h f) = length h.
Proof.
  unfold file_Close.
  destruct (h !! f) as [[?|?|?|name data off cl]|]; try done.
  apply length_insert.
Qed.

Lemma content_file_Close (h : Heap) (f a : addr) :
  content (file_Close h f) a = content h a.
Proof.
  destruct (decide (a = f)) as [->|Hne].
  - unfold content, file_Close.
    destruct (h !! f) as [[?|?|?|name data off cl]|] eqn:Ho;
      rewrite ?Ho; try done.
    rewrite list_lookup_insert_eq by by eapply lookup_lt_Some. done.
  - unfold content. by rewrite file_Close_other.
Qed.

Lemma values_encoding_ext (h h' : Heap) (b : string) (a : bool)
    (values : list (string * addr)) :
  (forall r, r ∈ map snd values -> h' !! r = h !! r) ->
  values_encoding h' b a values = values_encoding h b a values.
Proof.
  revert a. induction values as [|[key r] rest IH]; intros a Hsame; [done |].
  cbn [values_encoding]. rewrite IH.
  - f_equal. unfold value_part, value_header, is_File, content.
    rewrite Hsame; [done |]. apply list_elem_of_here.
  - intros r' Hr'. apply Hsame. by apply list_elem_of_further.
Qed.

(** What the copying loop does to the heap, for readers that are
    pairwise distinct, readable and not the body buffer itself. *)
Lemma AddValuesReader_loop_spec (values : list (string * addr)) (wr : Writer)
    (h : Heap) (buf : list byte) :
  h !! w wr = Some (BytesBuffer buf) ->
  NoDup (map snd values) ->
  Forall (fun kr => live h (snd kr) /\ snd kr <> w wr) values ->
  exists wr' h',
    AddValuesReader_loop values wr h = Some (None, wr', h')
    /\ h' !! w wr
       = Some (BytesBuffer
                 (buf ++ values_encoding h (w_boundary wr) (started wr) values))
    /\ length h' = length h
    /\ (forall a, a <> w wr -> a ∉ map snd values -> h' !! a = h !! a)
    /\ (forall r, r ∈ map snd values -> content h' r = []).
Proof.
  revert wr h buf.
  induction values as [|[key r] rest IH]; intros wr h buf Hb Hnd Hall.
  - exists wr, h. simpl. rewrite app_nil_r. repeat split; try done.
    intros r Hr. by apply elem_of_nil in Hr.
  - cbn [map snd] in Hnd. apply NoDup_cons in Hnd as [Hnotin Hnd].
    apply Forall_cons in Hall as [[(o & Ho & He) Hne] Hall]. cbn [snd] in *.
    assert (Hwlt : w wr < length h) by by eapply lookup_lt_Some.
    assert (Hrlt : r < length h) by by eapply lookup_lt_Some.
    cbn [AddValuesReader_loop].
    rewrite (created_part_spec key r wr h buf Hb).
    erewrite Copy_to_part_spec;
      [| reflexivity
       | cbn [w]; rewrite list_lookup_insert_ne by done; exact Ho
       | exact He | exact Hne
       | cbn [w]; by apply list_lookup_insert_eq].
    cbn [w]. rewrite list_insert_insert_eq.
    set (B2 := buf ++ value_part h (w_boundary wr) (started wr) key r).
    assert (HB2 : (buf ++ value_header h (w_boundary wr) (started wr) key r)
                  ++ remaining o = B2).
    { unfold B2, value_part, content. by rewrite Ho, <- app_assoc. }
    rewrite HB2.
    set (h2 := <[r := exhaust o]> (<[w wr := BytesBuffer B2]> h)).
    assert (Hsame2 : forall a, a <> r -> a <> w wr -> h2 !! a = h !! a).
    { intros a Har Haw. unfold h2. by rewrite !list_lookup_insert_ne. }
    destruct (IH {| w := w wr; w_boundary := w_boundary wr;
                    lastpart := Some {| closed := false |} |} h2 B2)
      as (wr3 & h3 & Hloop & Hb3 & Hlen3 & Hframe3 & Hex3).
    { cbn [w]. unfold h2. rewrite list_lookup_insert_ne by done.
      apply list_lookup_insert_eq. done. }
    { done. }
    { apply Forall_forall. intros [k' r'] Hin.
      apply (proj1 (Forall_forall _ _) Hall) in Hin as Hlive.
      destruct Hlive as [(o' & Ho' & He') Hne']. cbn [snd w] in *.
      split; [| done]. exists o'. split; [| done].
      rewrite Hsame2; [done | | done].
      intros ->. apply Hnotin. apply list_elem_of_fmap.
      exists (k', r). split; [done | exact Hin]. }
    cbn [w w_boundary started lastpart] in *. rewrite Hloop.
    exists wr3, (file_Close h3 r).
    split; [reflexivity |]. split; [| split; [| split]].
    + rewrite file_Close_other by (intros Heq; by apply Hne).
      rewrite Hb3. do 2 f_equal. unfold B2. rewrite <- app_assoc.
      cbn [values_encoding]. do 2 f_equal.
      apply values_encoding_ext. intros r' Hr'. apply Hsame2.
      * intros ->. by apply Hnotin.
      * intros Heq. apply list_elem_of_fmap in Hr' as ([k' r''] & Hk & Hin).
        apply (proj1 (Forall_forall _ _) Hall) in Hin as [_ Hx].
        apply Hx. by rewrite <- Hk.
    + rewrite length_file_Close, Hlen3. unfold h2.
      by rewrite !length_insert.
    + intros a Haw Hnot. cbn [map snd] in Hnot.
      apply not_elem_of_cons in Hnot as [Har Hnot].
      rewrite file_Close_other by done.
      rewrite Hframe3 by done. by apply Hsame2.
    + intros r' Hr'. rewrite content_file_Close.
      cbn [map snd] in Hr'. apply elem_of_cons in Hr' as [->|Hr'].
      * unfold content. rewrite Hframe3 by done. unfold h2.
        rewrite list_lookup_insert_eq by (by rewrite length_insert).
        apply remaining_exhaust.
      * by apply Hex3.
Qed.

Lemma AddValuesReader_spec (values : list (string * addr))
    (mr : MultipartReader) (wr : Writer) (h : Heap) (buf : list byte) :
  writer mr = Some wr ->
  h !! w wr = Some (BytesBuffer buf) ->
  NoDup (map snd values) ->
  Forall (fun kr => live h (snd kr) /\ snd kr <> w wr) values ->
  exists wr' h',
    AddValuesReader values mr h = Some (None, with_writer mr wr', h')
    /\ h' !! w wr
       = Some (BytesBuffer
                 (buf ++ values_encoding h (w_boundary wr) (started wr) values))
    /\ length h' = length h
    /\ (forall a, a <> w wr -> a ∉ map snd values -> h' !! a = h !! a)
    /\ (forall r, r ∈ map snd values -> content h' r = []).
Proof.
  intros Hw Hb Hnd Hall.
  destruct (AddValuesReader_loop_spec values wr h buf Hb Hnd Hall)
    as (wr' & h' & Hloop & Hrest).
  unfold AddValuesReader. destruct values as [|v vs].
  - exists wr, h. injection Hloop as <- <-.
    by rewrite (with_writer_same _ _ Hw).
  - exists wr', h'. by rewrite Hw, Hloop.
Qed.

Lemma heap_ends_with_two (h : Heap) (k : nat) (x y : Object) :
  length h = k + 2 -> h !! k = Some x -> h !! S k = Some y ->
  h = take k h ++ [x; y].
Proof.
  intros Hlen Hx Hy. rewrite <- (take_drop k h) at 1. f_equal.
  pose proof (length_drop h k) as Hd.
  rewrite <- (Nat.add_0_r k), <- lookup_drop in Hx.
  replace (S k) with (k + 1) in Hy by lia. rewrite <- lookup_drop in Hy.
  destruct (drop k h) as [|a [|c [|d l]]]; simpl in *; try lia.
  congruence.
Qed.



(** X10: [AddFile] declares the size [Stat] reports, whereas the stream
    delivers the file from its current offset.  After accurately
    declared appends and then [AddFile] of an open file whose offset is
    [off], the body is the earlier contents, the file's part header, the
    file's bytes from [off] on and the closing boundary, and the length
    that [SetupRequest] announces exceeds the size of that body by the
    bytes of the file that had been read before. *)
Theorem AddFile_counts_bytes_already_read
    (fs : FileSystem) (rnd : nat -> byte) (h0 : Heap) (cs : list Call)
    (f : addr) (name : string) (data : list byte) (off : nat)
    (req : Request) (fuel n : nat) :
  Forall (append_ok h0) cs -> Forall (accurate h0) cs ->
  NoDup (externals cs) -> f ∉ externals cs ->
  h0 !! f = Some (File name data off false) ->
  0 < n ->
  length (concat (map (appended_content h0 (randomBoundary rnd)) cs)
          ++ bytes_of (formHeader (randomBoundary rnd) "file" (basename name))
          ++ drop off data
          ++ bytes_of (formClose (randomBoundary rnd))) < fuel ->
  exists rets mr h s,
    run fs (cs ++ [CallAddFile f]) (fst (New rnd h0)) (snd (New rnd h0))
    = Some (rets, mr, h)
    /\ drain fuel n mr h
       = Some (Some (concat (map (appended_content h0 (randomBoundary rnd)) cs)
                     ++ bytes_of (formHeader (randomBoundary rnd) "file"
                                             (basename name))
                     ++ drop off data
                     ++ bytes_of (formClose (randomBoundary rnd)), EOF, s))
    /\ ContentLength (fst (SetupRequest req mr))
       = wrap64
           (Z.of_nat
              (length (concat (map (appended_content h0 (randomBoundary rnd)) cs)
                       ++ bytes_of (formHeader (randomBoundary rnd) "file"
                                               (basename name))
                       ++ drop off data
                       ++ bytes_of (formClose (randomBoundary rnd))))
            + Z.of_nat (Nat.min off (length data))).
Proof.
  intros Hok Hacc Hnd Hfresh Hf Hn Hfuel.
  set (b := randomBoundary rnd) in *.
  assert (Hopen : open_file h0 f = Some (name, data)).
  { unfold open_file. by rewrite Hf. }
  assert (Hcont : appended_content h0 b (CallAddFile f)
                  = bytes_of (formHeader b "file" (basename name))
                    ++ drop off data).
  { unfold appended_content. cbn [appended_header external map concat].
    rewrite Hopen, app_nil_r. unfold content. by rewrite Hf. }
  assert (Hbytes : concat (map (appended_content h0 b) (cs ++ [CallAddFile f]))
                   ++ bytes_of (formClose b)
                   = concat (map (appended_content h0 b) cs)
                     ++ bytes_of (formHeader b "file" (basename name))
                     ++ drop off data ++ bytes_of (formClose b)).
  { rewrite map_app, concat_app. cbn [map concat].
    by rewrite app_nil_r, Hcont, <- !app_assoc. }
  destruct (run_appends_filled fs rnd h0 (cs ++ [CallAddFile f]))
    as (rets & mr & h & srcs & hdrs & Hrun & F).
  { apply Forall_app. split; [exact Hok |].
    apply Forall_singleton. cbn [append_ok]. by rewrite Hopen. }
  { unfold externals. rewrite map_app, concat_app. cbn [map concat external].
    rewrite app_nil_r. apply NoDup_app. split; [exact Hnd |].
    split; [| apply NoDup_singleton].
    intros a Ha Hin. apply list_elem_of_singleton in Hin as ->. by apply Hfresh. }
  fold b in F.
  destruct (filled_stream _ _ _ _ _ _ _ _ _ fuel n F Hn) as [s Hs].
  { by rewrite Hbytes. }
  rewrite Hbytes in Hs.
  exists rets, mr, h, s. split; [exact Hrun |]. split; [exact Hs |].
  assert (Hcl : ContentLength (fst (SetupRequest req mr)) = length_ mr).
  { unfold SetupRequest, GetCloseReader, GetMultiReader.
    by destruct (multiReader mr). }
  rewrite Hcl, (filled_length _ _ _ _ _ _ _ _ _ F). f_equal.
  rewrite map_app, sum_Z_app, (sum_declared_accurate _ _ _ Hok Hacc).
  cbn [map sum_Z foldr declared_length appended_header]. rewrite Hopen.
  rewrite !length_app, !length_bytes_of, length_drop.
  pose proof (len_formClose b) as Hfc. unfold len in *.
  unfold b in Hfc at 2. rewrite length_randomBoundary in Hfc.
  lia.
Qed.

Lemma AddFile_counts_bytes_already_read_witness :
  exists rets mr h s,
    run demo_fs [CallAddFile 2] (fst (New demo_rnd demo_files))
        (snd (New demo_rnd demo_files)) = Some (rets, mr, h)
    /\ drain 1000 7 mr h
       = Some (Some (bytes_of (formHeader (randomBoundary demo_rnd) "file"
                                          "log.txt")
                     ++ bytes_of "456789"
                     ++ bytes_of (formClose (randomBoundary demo_rnd)), EOF, s))
    /\ ContentLength (fst (SetupRequest demo_req mr))
       = (Z.of_nat
            (length (bytes_of (formHeader (randomBoundary demo_rnd) "file"
                                          "log.txt")
                     ++ bytes_of "456789"
                     ++ bytes_of (formClose (randomBoundary demo_rnd))))
          + 4)%Z.
Proof.
  destruct (AddFile_counts_bytes_already_read demo_fs demo_rnd demo_files []
              2 "dir/log.txt" (bytes_of "0123456789") 4 demo_req 1000 7)
    as (rets & mr & h & s & Hrun & Hs & Hlen).
  - apply Forall_nil_2.
  - apply Forall_nil_2.
  - apply NoDup_nil_2.
  - apply not_elem_of_nil.
  - reflexivity.
  - lia.
  - apply Nat.ltb_lt. vm_compute. reflexivity.
  - exists rets, mr, h, s. split; [exact Hrun |]. split; [exact Hs |].
    rewrite Hlen. vm_compute. reflexivity.
Defined.

(** ** The later revision: fields that never reach the stream *)

Lemma AddFields_loop_spec (fields : list (string * string)) (wr : Writer)
    (h : Heap) (buf : list byte) :
  h !! w wr = Some (BytesBuffer buf) ->
  AddFields_loop fields wr h
  = Some (None, writer_after fields wr,
          <[w wr := BytesBuffer
                      (buf ++ fields_encoding (w_boundary wr) (started wr)
                                              fields)]> h).
Proof.
  intros Hb. rewrite <- (WriteFields_loop_spec fields wr h buf Hb).
  clear Hb. revert wr h. induction fields as [|[key value] rest IH];
    intros wr h; [done |].
  cbn [AddFields_loop WriteFields_loop]. unfold Writer_WriteField.
  destruct (CreateFormField key wr h) as [[wr1 h1]|]; [| done].
  by destruct (part_Write wr1 h1 (bytes_of value)) as [[[e|] h2]|].
Qed.

Lemma Rev2_New_eq (rnd : nat -> byte) (h : Heap) :
  Rev2.New rnd h
  = ({| contentType := "multipart/form-data; boundary=" +:+ randomBoundary rnd;
        boundary := randomBoundary rnd;
        writer := Some (NewWriter rnd (length h));
        readers := [S (length h); S (S (length h))];
        length_ := 68;
        multiReader := None;
        count := 0 |},
     h ++ [BytesBuffer []; StringsReader [] 0;
           StringsReader (bytes_of (formClose (randomBoundary rnd))) 0]).
Proof.
  unfold Rev2.New, alloc. cbn [fst snd remaining]. f_equal.
  - f_equal.
    + unfold FormDataContentType, NewWriter, randomBoundary. cbn [w_boundary].
      by rewrite Sprintf_x_no_tspecials.
    + rewrite !length_app. cbn [length]. by rewrite !Nat.add_1_r.
  - by rewrite <- !app_assoc.
Qed.



(** ** [WriteFile], in general *)

Lemma WriteFile_state fs key filename data mr h init lst :
  fs filename = Some data -> readers mr = init ++ [lst] ->
  WriteFile fs key filename mr h
  = Some (None,
          {| contentType := contentType mr; boundary := boundary mr;
             writer := writer mr;
             readers := init ++ [S (length h); length h; lst];
             length_ := add64 (add64 (length_ mr)
                                     (len (formHeader (boundary mr) "file"
                                                      filename)))
                              (Z.of_nat (length data));
             multiReader := multiReader mr; count := count mr |},
          h ++ [File filename data 0 true;
                StringsReader
                  (bytes_of (formHeader (boundary mr) "file" filename)) 0]).
Proof.
  intros Hfs Hrs. unfold WriteFile, os_Open, alloc. rewrite Hfs.
  assert (Hf : (h ++ [File filename data 0 false]) !! length h
               = Some (File filename data 0 false))
    by by apply list_lookup_middle.
  unfold file_Stat. rewrite Hf.
  rewrite (AddReader_snoc _ _ mr _ _ Hrs).
  rewrite (AddReader_snoc _ _ _ (init ++ [length (h ++ [File filename data 0 false])]) lst)
    by (cbn [readers]; by rewrite <- !app_assoc).
  cbn [contentType boundary writer readers length_ multiReader count].
  do 2 f_equal.
  - f_equal. rewrite <- app_assoc, length_app. cbn [length app].
    by rewrite Nat.add_1_r.
  - unfold file_Close. rewrite <- app_assoc. cbn [app].
    rewrite list_lookup_middle by done.
    rewrite insert_app_r_alt by lia. by rewrite Nat.sub_diag.
Qed.

(** X12: [WriteFile] on a file that exists, after any appends: the call
    reports no error and counts the file's size, but what the consumer
    gets is the earlier contents, the part header -- with the field name
    "file" and the path as passed, whatever [key] is -- and then the
    error "file already closed": neither the file's bytes nor the
    closing boundary are ever delivered. *)
Theorem WriteFile_stream_stops_at_the_file
    (fs : FileSystem) (rnd : nat -> byte) (h0 : Heap) (cs : list Call)
    (key filename : string) (data : list byte) (req : Request)
    (fuel n : nat) :
  Forall (append_ok h0) cs -> NoDup (externals cs) ->
  fs filename = Some data -> 0 < n ->
  length (concat (map (appended_content h0 (randomBoundary rnd)) cs)
          ++ bytes_of (formHeader (randomBoundary rnd) "file" filename))
  < fuel ->
  exists rets mr h s,
    run fs (cs ++ [CallWriteFile key filename])
        (fst (New rnd h0)) (snd (New rnd h0))
    = Some (rets ++ [RetErr None], mr, h)
    /\ drain fuel n mr h
       = Some (Some (concat (map (appended_content h0 (randomBoundary rnd)) cs)
                     ++ bytes_of (formHeader (randomBoundary rnd) "file"
                                             filename),
                     ErrClosed "read" filename, s))
    /\ ContentLength (fst (SetupRequest req mr))
       = wrap64 (68 + sum_Z (map (declared_length h0 (randomBoundary rnd)) cs)
                 + len (formHeader (randomBoundary rnd) "file" filename)
                 + Z.of_nat (length data)).
Proof.
  intros Hok Hnd Hfs Hn Hfuel. set (b := randomBoundary rnd) in *.
  destruct (run_appends_filled fs rnd h0 cs Hok Hnd)
    as (rets & mr & h & srcs & hdrs & Hrun & F).
  fold b in F. set (bytes := concat (map (appended_content h0 b) cs)) in *.
  pose proof F as [Hrs Hh Hb Hc Hl Hnds Hw Hlv Hct].
  destruct (filled_below _ _ _ _ _ _ _ _ _ F) as [Hlen Hbelow].
  rewrite app_comm_cons in Hrs.
  pose proof (WriteFile_state fs key filename data mr h _ _ Hfs Hrs) as HW.
  rewrite Hb, Hc, Hl in HW.
  set (form := formHeader b "file" filename) in *.
  set (h' := h ++ [File filename data 0 true;
                   StringsReader (bytes_of form) 0]) in *.
  set (mr' := {| contentType := contentType mr; boundary := b |}) in *.
  assert (Hh'len : length h' = length h + 2).
  { unfold h'. rewrite length_app. simpl. lia. }
  assert (Hold : forall a, a < length h -> h' !! a = h !! a).
  { intros a Ha. unfold h'. by apply lookup_app_l. }
  assert (Hfile : h' !! length h = Some (File filename data 0 true)).
  { unfold h'. by apply list_lookup_middle. }
  assert (Hform : h' !! S (length h) = Some (StringsReader (bytes_of form) 0)).
  { unfold h'. rewrite lookup_app_r by lia.
    by replace (S (length h) - length h) with 1 by lia. }
  assert (Hbody : h' !! length h0 = Some (BytesBuffer [])).
  { rewrite Hold by lia. by eapply filled_body. }
  set (front := (length h0 :: srcs) ++ [S (length h)]).
  set (tail := [length h; S (length h0)]).
  assert (Hreaders : readers mr' = front ++ tail).
  { unfold front, tail. cbn [readers mr']. by rewrite <- !app_assoc. }
  assert (Hres : stream_result h' (front ++ tail)
                 = (bytes ++ bytes_of form, ErrClosed "read" filename)).
  { rewrite stream_result_live.
    - cbn [tail stream_result]. rewrite Hfile. cbn [read_error fst snd].
      rewrite app_nil_r. f_equal. unfold front.
      rewrite map_app, concat_app. cbn [map concat].
      unfold content at 1. rewrite Hbody. cbn [remaining app].
      unfold content at 2. rewrite Hform. cbn [remaining].
      rewrite drop_0, app_nil_r. f_equal. rewrite <- Hct. f_equal.
      apply map_ext_in. intros a Ha. unfold content. rewrite Hold; [done |].
      apply list_elem_of_In in Ha.
      by apply (proj1 (Forall_forall _ _) Hbelow).
    - unfold front. apply Forall_app. split.
      + apply Forall_cons. split; [by eexists; split; [exact Hbody |] |].
        apply Forall_forall. intros a Ha.
        apply (proj1 (Forall_forall _ _) Hlv) in Ha as Hlive.
        destruct Hlive as (o & Ho & He). exists o. split; [| done].
        rewrite Hold; [done |]. by eapply lookup_lt_Some.
      + apply Forall_singleton. by eexists; split; [exact Hform |]. }
  exists rets, mr', h'.
  assert (Hdrain : exists s,
             drain fuel n mr' h'
             = Some (Some (bytes ++ bytes_of form,
                           ErrClosed "read" filename, s))).
  { apply outcome_inv. rewrite drain_outcome.
    cbn [GetMultiReader multiReader mr' fst]. unfold MultiReader.
    fold mr'. rewrite Hreaders.
    destruct (drain_body_spec fuel n (front ++ tail) h' Hn) as [s Hs].
    - unfold front, tail. rewrite <- app_assoc. cbn [app].
      apply NoDup_cons. split.
      { intros Hin. apply elem_of_app in Hin as [Hin|Hin].
        - apply (proj1 (Forall_forall _ _) Hw) in Hin as [[Hin _]|Hin]; lia.
        - repeat (apply elem_of_cons in Hin as [Hin|Hin]; [lia |]).
          by apply elem_of_nil in Hin. }
      apply NoDup_app. split; [exact Hnds |]. split.
      { intros a Ha Hin.
        apply (proj1 (Forall_forall _ _) Hbelow) in Ha as Hlt.
        apply (proj1 (Forall_forall _ _) Hw) in Ha as Hwa.
        repeat (apply elem_of_cons in Hin as [Hin|Hin]; [lia |]).
        by apply elem_of_nil in Hin. }
      apply NoDup_cons. split.
      { intros Hin.
        repeat (apply elem_of_cons in Hin as [Hin|Hin]; [lia |]).
        by apply elem_of_nil in Hin. }
      apply NoDup_cons. split.
      { intros Hin.
        repeat (apply elem_of_cons in Hin as [Hin|Hin]; [lia |]).
        by apply elem_of_nil in Hin. }
      apply NoDup_singleton.
    - unfold front, tail, allocated. apply Forall_app. split.
      + apply Forall_app. split.
        * apply Forall_cons. split; [lia |].
          eapply Forall_impl; [exact Hbelow |]. simpl. intros; lia.
        * apply Forall_singleton. lia.
      + apply Forall_cons. split; [lia |]. apply Forall_singleton. lia.
    - by rewrite Hres.
    - rewrite Hs, Hres. reflexivity. }
  destruct Hdrain as [s Hdrain]. exists s.
  split; [| split].
  - rewrite run_snoc, Hrun. cbn [exec]. by rewrite HW.
  - exact Hdrain.
  - assert (Hcl : ContentLength (fst (SetupRequest req mr')) = length_ mr').
    { unfold SetupRequest, GetCloseReader, GetMultiReader.
      by destruct (multiReader mr'). }
    rewrite Hcl. cbn [length_ mr']. by rewrite !add64_wrap.
Qed.

Lemma WriteFile_stream_stops_at_the_file_witness :
  exists rets mr h s,
    run demo_fs (demo_sources ++ [CallWriteFile "k" "report.txt"])
        (fst (New demo_rnd demo_heap)) (snd (New demo_rnd demo_heap))
    = Some (rets ++ [RetErr None], mr, h)
    /\ drain 400 16 mr h
       = Some (Some (concat (map (appended_content demo_heap
                                    (randomBoundary demo_rnd)) demo_sources)
                     ++ bytes_of (formHeader (randomBoundary demo_rnd) "file"
                                             "report.txt"),
                     ErrClosed "read" "report.txt", s))
    /\ ContentLength (fst (SetupRequest demo_req mr))
       = wrap64 (68 + sum_Z (map (declared_length demo_heap
                                    (randomBoundary demo_rnd)) demo_sources)
                 + len (formHeader (randomBoundary demo_rnd) "file"
                                   "report.txt")
                 + 5).
Proof.
  apply (WriteFile_stream_stops_at_the_file demo_fs demo_rnd demo_heap
           demo_sources "k" "report.txt" (bytes_of "hello") demo_req 400 16
           demo_sources_ok demo_sources_NoDup).
  - reflexivity.
  - lia.
  - apply Nat.ltb_lt. vm_compute. reflexivity.
Defined.

(** ** After the end of the stream *)

Lemma multiReader_Read_EOF (rs : list addr) (h : Heap) (n : nat)
    (bs : list byte) (rs' : list addr) (h' : Heap) :
  multiReader_Read rs h n = Some ((bs, Some EOF), rs', h') -> rs' = [].
Proof.
  revert h. induction rs as [|r rest IH]; intros h; simpl.
  - by intros [= _ <- _].
  - destruct (reader_Read h r n) as [[[bs0 err] h1]|]; [| done].
    destruct (isEOF err) eqn:He.
    + destruct bs0 as [|x bs0]; [apply IH |].
      destruct rest as [|r1 rest]; [by intros [= _ <- _] | done].
    + intros [= _ -> _ _]. done.
Qed.

Lemma wrap64_idemp (z : Z) : wrap64 (wrap64 z) = wrap64 z.
Proof.
  unfold wrap64.
  replace ((z + 2 ^ 63) mod 2 ^ 64 - 2 ^ 63 + 2 ^ 63)%Z
    with ((z + 2 ^ 63) mod 2 ^ 64)%Z by lia.
  by rewrite Z.mod_mod.
Qed.

(** X13: the end of the stream is final.  Once a [Read] has returned
    [io.EOF], the multi-reader holds no reader any more: every later
    [Read], whatever the buffer, returns no bytes and [io.EOF] again,
    touches no reader and leaves [Count] where it was -- also when
    readers are appended in between. *)
Theorem EOF_is_final
    (n m : nat) (mr mr' : MultipartReader) (h h' : Heap) (bs : list byte)
    (r : addr) (len0 : Z) :
  Read n mr h = Some ((bs, Some EOF), mr', h') ->
  multiReader mr' = Some []
  /\ Read m mr' h' = Some (([], Some EOF), mr', h')
  /\ forall mr1,
       AddReader r len0 mr' = Some mr1 ->
       exists mr2,
         Read m mr1 h' = Some (([], Some EOF), mr2, h')
         /\ Count mr2 = Count mr'.
Proof.
  unfold Read at 1. destruct (GetMultiReader mr) as [rs mpr1].
  destruct (multiReader_Read rs h n) as [[[[bs0 err] rs'] h1]|] eqn:Hr;
    [| done].
  intros [= -> -> <- <-].
  apply multiReader_Read_EOF in Hr as ->.
  assert (Hcount : forall c : Z, add64 (add64 c (Z.of_nat (length bs))) 0
                                 = add64 c (Z.of_nat (length bs))).
  { intros c. unfold add64. rewrite Z.add_0_r. apply wrap64_idemp. }
  split; [reflexivity |]. split.
  - unfold Read. cbn [GetMultiReader multiReader multiReader_Read].
    cbn [contentType boundary writer readers length_ count length].
    by rewrite Hcount.
  - intros mr1 Hadd.
    destruct (AddReader_inv _ _ _ _ Hadd)
      as (init & lst & _ & _ & _ & _ & _ & _ & Hc & Hcnt).
    cbn [multiReader count] in Hc, Hcnt.
    unfold Read, GetMultiReader. rewrite Hc. cbn [multiReader_Read].
    eexists. split; [reflexivity |].
    unfold Count. cbn [count length]. rewrite Hcnt. apply Hcount.
Qed.

Lemma EOF_is_final_witness :
  exists bs mr1 h1 mr2 h2,
    Read 100 (fst (New demo_rnd demo_heap)) (snd (New demo_rnd demo_heap))
    = Some ((bs, None), mr1, h1)
    /\ Read 100 mr1 h1 = Some (([], Some EOF), mr2, h2)
    /\ Read 7 mr2 h2 = Some (([], Some EOF), mr2, h2)
    /\ Count mr2 = 68%Z.
Proof.
  destruct (Read 100 (fst (New demo_rnd demo_heap))
              (snd (New demo_rnd demo_heap)))
    as [[[[bs [e|]] mr1] h1]|] eqn:H1;
    [by vm_compute in H1 | | by vm_compute in H1].
  destruct (Read 100 mr1 h1) as [[[[bs2 e2] mr2] h2]|] eqn:H2.
  2: { exfalso. clear -H1 H2. vm_compute in H1. injection H1 as <- <- <-.
       by vm_compute in H2. }
  assert (Hbs : bs2 = [] /\ e2 = Some EOF /\ Count mr2 = 68%Z).
  { clear -H1 H2. vm_compute in H1. injection H1 as <- <- <-.
    vm_compute in H2. injection H2 as <- <- <- <-. by vm_compute. }
  destruct Hbs as (-> & -> & Hcount).
  destruct (EOF_is_final 100 7 mr1 mr2 h1 h2 [] 0 0 H2) as (_ & Hagain & _).
  exists bs, mr1, h1, mr2, h2. done.
Defined.

(** ** The generated boundary *)

(** X14: the boundary [New] generates passes the writer's own
    validation.  As long as only readers have been appended, handing
    [Boundary()] back to [SetBoundary] succeeds and changes nothing. *)
Theorem SetBoundary_accepts_its_own_boundary
    (fs : FileSystem) (rnd : nat -> byte) (h0 : Heap) (cs : list Call)
    (rets : list Returned) (mr : MultipartReader) (h : Heap) :
  forallb is_append cs = true ->
  run fs cs (fst (New rnd h0)) (snd (New rnd h0)) = Some (rets, mr, h) ->
  SetBoundary (Boundary mr) mr = Some (None, mr).
Proof.
  intros Happ Hrun.
  destruct (run_append _ _ _ _ _ _ _ Happ Hrun) as (Hw & _ & _ & Hb & _).
  rewrite New_eq in Hw, Hb. cbn [fst writer boundary] in Hw, Hb.
  unfold SetBoundary, Boundary. rewrite Hw, Hb.
  unfold Writer_SetBoundary, NewWriter. cbn [lastpart w w_boundary].
  assert (Hlen : ((len (randomBoundary rnd) <? 1)
                  || (70 <? len (randomBoundary rnd)))%Z = false).
  { unfold len. by rewrite length_randomBoundary. }
  assert (Hok : boundary_chars_ok (randomBoundary rnd) = true)
    by apply Sprintf_x_boundary_ok.
  rewrite Hlen, Hok. cbn [negb]. do 2 f_equal.
  destruct mr. cbn [contentType boundary writer readers length_ multiReader
                    count] in *.
  by rewrite Hw, Hb.
Qed.

Lemma SetBoundary_accepts_its_own_boundary_witness :
  exists rets mr h,
    run demo_fs demo_sources (fst (New demo_rnd demo_heap))
        (snd (New demo_rnd demo_heap)) = Some (rets, mr, h)
    /\ SetBoundary (Boundary mr) mr = Some (None, mr).
Proof.
  destruct (run demo_fs demo_sources (fst (New demo_rnd demo_heap))
              (snd (New demo_rnd demo_heap)))
    as [[[rets mr] h]|] eqn:Hrun; [| by vm_compute in Hrun].
  exists rets, mr, h. split; [reflexivity |].
  apply (SetBoundary_accepts_its_own_boundary demo_fs demo_rnd demo_heap
           demo_sources rets mr h); [reflexivity | exact Hrun].
Defined.

(** ** The original revision *)

Lemma AddReader_without_writer r len0 mr :
  AddReader r len0 (without_writer mr)
  = match AddReader r len0 mr with
    | Some m => Some (without_writer m)
    | None => None
    end.
Proof.
  unfold AddReader, without_writer. cbn [readers].
  destruct (slice_to (readers mr) _); [| done].
  by destruct (index (readers mr) _).
Qed.

(** The appending calls look neither at the writer nor at an object
    they were not given. *)
Lemma exec_without_writer fs c mr h ret mr' h' B o :
  frame_ok B c -> B < length h ->
  exec fs c mr h = Some (ret, mr', h') ->
  exec fs c (without_writer mr) (<[B := o]> h)
  = Some (ret, without_writer mr', <[B := o]> h')
  /\ B < length h'.
Proof.
  destruct c as [? | r len0 | name filename len0 r | ? | ? | ? ?
                 | file | ? | ? | | ]; try done; intros Hok HB; simpl.
  - rewrite AddReader_without_writer.
    destruct (AddReader r len0 mr) as [m|]; [| done]. by intros [= <- <- <-].
  - unfold AddFormReader, alloc. rewrite length_insert.
    cbn [without_writer boundary]. rewrite !AddReader_without_writer.
    destruct (AddReader _ _ mr) as [m1|]; [| done].
    rewrite AddReader_without_writer.
    destruct (AddReader r len0 m1) as [m2|]; [| done].
    intros [= <- <- <-]. rewrite insert_app_l by done.
    split; [done |]. rewrite length_app. lia.
  - unfold AddFile, file_Stat, alloc. rewrite length_insert.
    rewrite list_lookup_insert_ne by done.
    destruct (h !! file) as [[?|?|?|name data off [|]]|]; try done.
    + by intros [= <- <- <-].
    + cbn [without_writer boundary]. rewrite !AddReader_without_writer.
      destruct (AddReader _ _ mr) as [m1|]; [| done].
      rewrite AddReader_without_writer.
      destruct (AddReader file _ m1) as [m2|]; [| done].
      intros [= <- <- <-]. rewrite insert_app_l by done.
      split; [done |]. rewrite length_app. lia.
Qed.

Lemma run_without_writer fs cs mr h rets mr' h' B o :
  Forall (frame_ok B) cs -> B < length h ->
  run fs cs mr h = Some (rets, mr', h') ->
  run fs cs (without_writer mr) (<[B := o]> h)
  = Some (rets, without_writer mr', <[B := o]> h').
Proof.
  intros Hok. revert mr h rets.
  induction Hok as [|c cs Hc _ IH]; intros mr h rets HB; simpl.
  - by intros [= <- <- <-].
  - destruct (exec fs c mr h) as [[[ret m1] h1]|] eqn:He; [| done].
    destruct (run fs cs m1 h1) as [[[rs m2] h2]|] eqn:Hr; [| done].
    intros [= <- <- <-].
    destruct (exec_without_writer _ _ _ _ _ _ _ B o Hc HB He) as [-> HB1].
    by rewrite (IH _ _ _ HB1 Hr).
Qed.

Lemma append_ok_frame_above (h0 : Heap) (B : addr) (cs : list Call) :
  length h0 <= B -> Forall (append_ok h0) cs -> Forall (frame_ok B) cs.
Proof.
  intros HB H. eapply Forall_impl; [exact H |]. intros c.
  destruct c as [? | ? ? | ? ? ? ? | ? | ? | ? ? | file | ? | ? | | ];
    try done. simpl.
  intros [[name data] Hf] ->. unfold open_file in Hf.
  by rewrite lookup_ge_None_2 in Hf.
Qed.

Lemma append_ok_grow (h0 ext : Heap) (b : string) (c : Call) :
  append_ok h0 c ->
  append_ok (h0 ++ ext) c
  /\ appended_content (h0 ++ ext) b c = appended_content h0 b c
  /\ declared_length (h0 ++ ext) b c = declared_length h0 b c.
Proof.
  assert (Hlive : forall r, live h0 r ->
            live (h0 ++ ext) r /\ content (h0 ++ ext) r = content h0 r).
  { intros r (o & Ho & He). unfold live, content.
    rewrite (lookup_app_l_Some _ _ _ _ Ho). rewrite Ho. eauto. }
  unfold appended_content.
  destruct c as [? | r len0 | name filename len0 r | ? | ? | ? ?
                 | file | ? | ? | | ]; try done;
    cbn [append_ok appended_header declared_length external map concat].
  - intros H. destruct (Hlive r H) as [H1 H2]. by rewrite H2.
  - intros H. destruct (Hlive r H) as [H1 H2]. by rewrite H2.
  - intros [[name data] Hf]. unfold open_file in *.
    destruct (h0 !! file) as [o|] eqn:Ho; [| done].
    unfold content. rewrite (lookup_app_l_Some _ _ _ _ Ho), Ho.
    split; [by rewrite Hf |]. done.
Qed.

Lemma appends_grow (h0 ext : Heap) (b : string) (cs : list Call) :
  Forall (append_ok h0) cs ->
  Forall (append_ok (h0 ++ ext)) cs
  /\ map (appended_content (h0 ++ ext) b) cs = map (appended_content h0 b) cs
  /\ map (declared_length (h0 ++ ext) b) cs = map (declared_length h0 b) cs.
Proof.
  induction 1 as [|c cs Hc _ (IH1 & IH2 & IH3)]; [done |].
  destruct (append_ok_grow h0 ext b c Hc) as (H1 & H2 & H3).
  cbn [map]. rewrite H2, H3, IH2, IH3. split; [| done].
  by apply Forall_cons.
Qed.

Lemma NewMultipartReader_eq (rnd : nat -> byte) (h : Heap) :
  Original.NewMultipartReader rnd h
  = ({| contentType := "multipart/form-data; boundary=" +:+ randomBoundary rnd;
        boundary := randomBoundary rnd;
        writer := None;
        readers := [S (length h); S (S (length h))];
        length_ := 68;
        multiReader := None;
        count := 0 |},
     h ++ [BytesBuffer []; StringsReader [] 0;
           StringsReader (bytes_of (formClose (randomBoundary rnd))) 0]).
Proof.
  unfold Original.NewMultipartReader, alloc. cbn [fst snd remaining]. f_equal.
  - f_equal.
    + unfold FormDataContentType, NewWriter, randomBoundary. cbn [w_boundary].
      by rewrite Sprintf_x_no_tspecials.
    + rewrite !length_app. cbn [length]. by rewrite !Nat.add_1_r.
  - by rewrite <- !app_assoc.
Qed.

Lemma Original_drain_outcome (fuel n : nat) (mr : MultipartReader)
    (rs : list addr) (h : Heap) :
  multiReader mr = Some rs ->
  outcome (Original.drain fuel n mr h) = outcome (drain_body fuel n rs h).
Proof.
  revert mr rs h. induction fuel as [|fuel IH]; intros mr rs h Hc; [done |].
  simpl. unfold Original.Read. rewrite Hc.
  destruct (multiReader_Read rs h n) as [[[[bs err] rs'] h']|]; [| done].
  destruct err as [e|]; [done |].
  specialize (IH {| contentType := contentType mr; boundary := boundary mr;
                    writer := writer mr; readers := readers mr;
                    length_ := length_ mr; multiReader := Some rs';
                    count := add64 (count mr) (Z.of_nat (length bs)) |}
                 rs' h' eq_refl).
  destruct (Original.drain fuel n _ h') as [[[[b1 e1] s1]|]|];
    destruct (drain_body fuel n rs' h') as [[[[b2 e2] s2]|]|];
    simpl in *; congruence.
Qed.

(** The state appends lead to in the original revision, and its
    stream. *)
Lemma Original_appends
    (fs : FileSystem) (rnd : nat -> byte) (h0 : Heap) (cs : list Call)
    (req : Request) (fuel n : nat) :
  Forall (append_ok h0) cs -> NoDup (externals cs) -> 0 < n ->
  length (concat (map (appended_content h0 (randomBoundary rnd)) cs)
          ++ bytes_of (formClose (randomBoundary rnd))) < fuel ->
  exists rets mr h s,
    run fs cs (fst (Original.NewMultipartReader rnd h0))
        (snd (Original.NewMultipartReader rnd h0)) = Some (rets, mr, h)
    /\ (forall k, Original.Read k mr h = None)
    /\ Body (fst (Original.SetupHTTPRequest req mr)) = Body req
    /\ ContentLength (fst (Original.SetupHTTPRequest req mr))
       = wrap64 (68 + sum_Z (map (declared_length h0 (randomBoundary rnd)) cs))
    /\ Original.drain fuel n (snd (Original.SetupHTTPRequest req mr)) h
       = Some (Some (concat (map (appended_content h0 (randomBoundary rnd)) cs)
                     ++ bytes_of (formClose (randomBoundary rnd)), EOF, s)).
Proof.
  intros Hok Hnd Hn Hfuel. set (b := randomBoundary rnd) in *.
  set (g0 := h0 ++ [BytesBuffer []]).
  destruct (appends_grow h0 [BytesBuffer []] b cs Hok) as (Hok' & Hcont & Hdecl).
  fold g0 in Hok', Hcont, Hdecl.
  destruct (run_appends_filled fs rnd g0 cs Hok' Hnd)
    as (rets & mr & h & srcs & hdrs & Hrun & F).
  fold b in F. rewrite Hcont, Hdecl in F.
  set (bytes := concat (map (appended_content h0 b) cs)) in *.
  pose proof F as [Hrs Hh Hb Hc Hl Hnds Hw Hlv Hct].
  destruct (filled_below _ _ _ _ _ _ _ _ _ F) as [Hlen Hbelow].
  assert (Hg0 : length g0 = S (length h0)).
  { unfold g0. rewrite length_app. simpl. lia. }
  set (B := length g0) in *. set (C := S B) in *.
  set (Y1 := StringsReader [] 0).
  set (Y2 := StringsReader (bytes_of (formClose b)) 0).
  rewrite New_eq in Hrun. cbn [fst snd] in Hrun. fold b B in Hrun.
  assert (Hlen2 : length (g0 ++ [BytesBuffer [];
                                 BytesReader (bytes_of (formClose b)) 0])
                  = B + 2).
  { rewrite length_app. simpl. lia. }
  apply (run_without_writer _ _ _ _ _ _ _ B Y1) in Hrun;
    [| by apply (append_ok_frame_above g0) | lia].
  apply (run_without_writer _ _ _ _ _ _ _ C Y2) in Hrun;
    [| apply (append_ok_frame_above g0); [unfold C, B; lia | done]
     | rewrite length_insert; unfold C; lia].
  assert (Hstart : <[C := Y2]> (<[B := Y1]>
                     (g0 ++ [BytesBuffer [];
                             BytesReader (bytes_of (formClose b)) 0]))
                   = h0 ++ [BytesBuffer []; Y1; Y2]).
  { unfold C, B. rewrite insert_app_r_alt by lia. rewrite Nat.sub_diag.
    cbn [insert list_insert]. rewrite insert_app_r_alt by lia.
    replace (S (length g0) - length g0) with 1 by lia.
    unfold g0. by rewrite <- app_assoc. }
  rewrite Hstart in Hrun. clear Hstart.
  set (ho := <[C := Y2]> (<[B := Y1]> h)) in *.
  set (mo := without_writer (without_writer mr)) in *.
  assert (HoB : ho !! B = Some Y1).
  { unfold ho. rewrite list_lookup_insert_ne by (unfold C; lia).
    apply list_lookup_insert_eq. unfold B in *. lia. }
  assert (HoC : ho !! C = Some Y2).
  { unfold ho. apply list_lookup_insert_eq. rewrite length_insert.
    unfold C, B in *. lia. }
  assert (Hoth : forall a, a <> B -> a <> C -> ho !! a = h !! a).
  { intros a HaB HaC. unfold ho. by rewrite !list_lookup_insert_ne. }
  assert (Holen : length ho = length h).
  { unfold ho. by rewrite !length_insert. }
  assert (Hnot : forall a, a ∈ srcs -> a <> B /\ a <> C /\ a < length h).
  { intros a Ha. apply (proj1 (Forall_forall _ _) Hbelow) in Ha as Hlt.
    apply (proj1 (Forall_forall _ _) Hw) in Ha as [[Hin _]|Hin];
      unfold B, C in *; lia. }
  assert (Hres : stream_result ho ((B :: srcs) ++ [C])
                 = (bytes ++ bytes_of (formClose b), EOF)).
  { rewrite stream_result_live.
    - cbn [stream_result]. rewrite HoC. cbn [Y2 read_error remaining fst snd].
      rewrite drop_0, app_nil_r. f_equal. cbn [map concat].
      unfold content at 1. rewrite HoB. cbn [Y1 remaining drop app].
      f_equal. rewrite <- Hct. f_equal.
      apply map_ext_in. intros a Ha. apply list_elem_of_In in Ha.
      destruct (Hnot a Ha) as (H1 & H2 & _). unfold content.
      by rewrite Hoth.
    - apply Forall_cons. split; [by eexists; split; [exact HoB |] |].
      apply Forall_forall. intros a Ha.
      apply (proj1 (Forall_forall _ _) Hlv) in Ha as Hlive.
      destruct (Hnot a Ha) as (H1 & H2 & _).
      destruct Hlive as (o & Ho & He). exists o. split; [| done].
      by rewrite Hoth. }
  rewrite NewMultipartReader_eq. cbn [fst snd].
  assert (Hm0 : without_writer (without_writer
                  {| contentType := "multipart/form-data; boundary=" +:+ b;
                     boundary := b;
                     writer := Some (NewWriter rnd B);
                     readers := [B; S B];
                     length_ := 68; multiReader := None; count := 0 |})
                = {| contentType := "multipart/form-data; boundary=" +:+ b;
                     boundary := b; writer := None;
                     readers := [S (length h0); S (S (length h0))];
                     length_ := 68; multiReader := None; count := 0 |}).
  { unfold without_writer.
    cbn [contentType boundary writer readers length_ multiReader count].
    by rewrite Hg0. }
  rewrite Hm0 in Hrun. clear Hm0.
  assert (Hdrain : exists s,
            Original.drain fuel n (snd (Original.SetupHTTPRequest req mo)) ho
            = Some (Some (bytes ++ bytes_of (formClose b), EOF, s))).
  { apply outcome_inv.
    rewrite (Original_drain_outcome _ _ _ (readers mo)) by reflexivity.
    cbn [mo without_writer readers]. rewrite Hrs, app_comm_cons.
    destruct (drain_body_spec fuel n ((B :: srcs) ++ [C]) ho Hn) as [s Hs].
    - rewrite <- app_comm_cons. apply NoDup_cons. split.
      { intros Hin. apply elem_of_app in Hin as [Hin|Hin].
        - destruct (Hnot _ Hin) as (H1 & _). done.
        - apply list_elem_of_singleton in Hin. unfold C in Hin. lia. }
      apply NoDup_app. split; [exact Hnds |]. split; [| apply NoDup_singleton].
      intros a Ha Hin. apply list_elem_of_singleton in Hin.
      destruct (Hnot _ Ha) as (_ & H2 & _). done.
    - unfold allocated. rewrite Holen. apply Forall_app. split.
      + apply Forall_cons. split; [unfold B in *; lia |].
        eapply Forall_impl; [exact Hbelow |]. done.
      + apply Forall_singleton. unfold C, B in *. lia.
    - by rewrite Hres.
    - rewrite Hs, Hres. reflexivity. }
  destruct Hdrain as [s Hdrain].
  exists rets, mo, ho, s. split; [exact Hrun |].
  split.
  { intros k. unfold Original.Read. cbn [mo without_writer multiReader].
    by rewrite Hc. }
  split; [reflexivity |].
  split; [exact Hl | exact Hdrain].
Qed.

(** X15: the original revision.  After [NewMultipartReader] and any
    appends of distinct readable readers, [Read] panics as long as
    [SetupHTTPRequest] has not been called (the multi-reader is nil).
    [SetupHTTPRequest] leaves the request body as it was, announces the
    68 bytes of the closing boundary plus the declared lengths, and from
    then on the stream is what was appended, in order, followed by the
    closing boundary and [io.EOF]. *)
Theorem Original_stream
    (fs : FileSystem) (rnd : nat -> byte) (h0 : Heap) (cs : list Call)
    (req : Request) (fuel n : nat) :
  Forall (append_ok h0) cs -> NoDup (externals cs) -> 0 < n ->
  length (concat (map (appended_content h0 (randomBoundary rnd)) cs)
          ++ bytes_of (formClose (randomBoundary rnd))) < fuel ->
  exists rets mr h s,
    run fs cs (fst (Original.NewMultipartReader rnd h0))
        (snd (Original.NewMultipartReader rnd h0)) = Some (rets, mr, h)
    /\ (forall k, Original.Read k mr h = None)
    /\ Body (fst (Original.SetupHTTPRequest req mr)) = Body req
    /\ ContentLength (fst (Original.SetupHTTPRequest req mr))
       = wrap64 (68 + sum_Z (map (declared_length h0 (randomBoundary rnd)) cs))
    /\ Original.drain fuel n (snd (Original.SetupHTTPRequest req mr)) h
       = Some (Some (concat (map (appended_content h0 (randomBoundary rnd)) cs)
                     ++ bytes_of (formClose (randomBoundary rnd)), EOF, s)).
Proof. apply Original_appends. Qed.

Lemma Original_stream_witness :
  exists rets mr h s,
    run demo_fs demo_sources (fst (Original.NewMultipartReader demo_rnd demo_heap))
        (snd (Original.NewMultipartReader demo_rnd demo_heap))
    = Some (rets, mr, h)
    /\ Original.Read 16 mr h = None
    /\ ContentLength (fst (Original.SetupHTTPRequest demo_req mr))
       = wrap64 (68 + sum_Z (map (declared_length demo_heap
                                    (randomBoundary demo_rnd)) demo_sources))
    /\ Original.drain 400 16 (snd (Original.SetupHTTPRequest demo_req mr)) h
       = Some (Some (concat (map (appended_content demo_heap
                                    (randomBoundary demo_rnd)) demo_sources)
                     ++ bytes_of (formClose (randomBoundary demo_rnd)),
                     EOF, s)).
Proof.
  destruct (Original_stream demo_fs demo_rnd demo_heap demo_sources demo_req
              400 16 demo_sources_ok demo_sources_NoDup)
    as (rets & mr & h & s & Hrun & Hpanic & _ & Hlen & Hs).
  - lia.
  - apply Nat.ltb_lt. vm_compute. reflexivity.
  - exists rets, mr, h, s. split; [exact Hrun |].
    split; [apply Hpanic |]. split; [exact Hlen | exact Hs].
Defined.

Lemma AddReader_with_cursor r len0 mr x :
  AddReader r len0 (with_cursor mr x)
  = match AddReader r len0 mr with
    | Some m => Some (with_cursor m x)
    | None => None
    end.
Proof.
  unfold AddReader, with_cursor. cbn [readers].
  destruct (slice_to (readers mr) _); [| done].
  by destruct (index (readers mr) _).
Qed.

(** The appending calls do not look at the multi-reader. *)
Lemma exec_with_cursor fs c mr h ret mr' h' x :
  is_append c = true ->
  exec fs c mr h = Some (ret, mr', h') ->
  exec fs c (with_cursor mr x) h = Some (ret, with_cursor mr' x, h').
Proof.
  destruct c as [? | r len0 | name filename len0 r | ? | ? | key filename
                 | file | ? | ? | | ]; try discriminate; intros _; simpl.
  - rewrite AddReader_with_cursor.
    destruct (AddReader r len0 mr) as [m|]; [| done]. by intros [= <- <- <-].
  - unfold AddFormReader, alloc.
    cbn [with_cursor boundary]. rewrite !AddReader_with_cursor.
    destruct (AddReader _ _ mr) as [m1|]; [| done].
    rewrite AddReader_with_cursor.
    destruct (AddReader r len0 m1) as [m2|]; [| done].
    by intros [= <- <- <-].
  - unfold WriteFile. destruct (os_Open fs filename h) as [e|[f h1]].
    + by intros [= <- <- <-].
    + destruct (file_Stat h1 f) as [[e|[name size]]|]; [| | done].
      * by intros [= <- <- <-].
      * unfold alloc. cbn [with_cursor boundary].
        rewrite !AddReader_with_cursor.
        destruct (AddReader _ _ mr) as [m1|]; [| done].
        rewrite AddReader_with_cursor.
        destruct (AddReader f size m1) as [m2|]; [| done].
        by intros [= <- <- <-].
  - unfold AddFile. destruct (file_Stat h file) as [[e|[name size]]|]; [| | done].
    + by intros [= <- <- <-].
    + unfold alloc. cbn [with_cursor boundary].
      rewrite !AddReader_with_cursor.
      destruct (AddReader _ _ mr) as [m1|]; [| done].
      rewrite AddReader_with_cursor.
      destruct (AddReader file size m1) as [m2|]; [| done].
      by intros [= <- <- <-].
Qed.

Lemma run_with_cursor fs cs mr h rets mr' h' x :
  forallb is_append cs = true ->
  run fs cs mr h = Some (rets, mr', h') ->
  run fs cs (with_cursor mr x) h = Some (rets, with_cursor mr' x, h').
Proof.
  revert mr h rets. induction cs as [|c rest IH]; intros mr h rets; simpl.
  - by intros _ [= <- <- <-].
  - intros [Hc Hrest]%andb_prop.
    destruct (exec fs c mr h) as [[[ret m1] h1]|] eqn:He; [| done].
    destruct (run fs rest m1 h1) as [[[rs m2] h2]|] eqn:Hr; [| done].
    intros [= <- <- <-].
    rewrite (exec_with_cursor _ _ _ _ _ _ _ x Hc He).
    by rewrite (IH _ _ _ Hrest Hr).
Qed.

(** X16: in the original revision [SetupHTTPRequest] builds the
    multi-reader anew.  What is appended after a first
    [SetupHTTPRequest] is therefore part of the stream once
    [SetupHTTPRequest] is called again: the body is then everything
    appended before and after the first call, in order, and the
    announced length covers both. *)
Theorem second_SetupHTTPRequest_takes_late_appends
    (fs : FileSystem) (rnd : nat -> byte) (h0 : Heap) (cs1 cs2 : list Call)
    (req1 req2 : Request) (fuel n : nat) :
  Forall (append_ok h0) (cs1 ++ cs2) -> NoDup (externals (cs1 ++ cs2)) ->
  0 < n ->
  length (concat (map (appended_content h0 (randomBoundary rnd)) (cs1 ++ cs2))
          ++ bytes_of (formClose (randomBoundary rnd))) < fuel ->
  exists rets1 mr1 h1 rets2 mr2 h2 s,
    run fs cs1 (fst (Original.NewMultipartReader rnd h0))
        (snd (Original.NewMultipartReader rnd h0)) = Some (rets1, mr1, h1)
    /\ run fs cs2 (snd (Original.SetupHTTPRequest req1 mr1)) h1
       = Some (rets2, mr2, h2)
    /\ multiReader mr2 = Some (readers mr1)
    /\ ContentLength (fst (Original.SetupHTTPRequest req2 mr2))
       = wrap64 (68 + sum_Z (map (declared_length h0 (randomBoundary rnd))
                                 (cs1 ++ cs2)))
    /\ Original.drain fuel n (snd (Original.SetupHTTPRequest req2 mr2)) h2
       = Some (Some (concat (map (appended_content h0 (randomBoundary rnd))
                                 (cs1 ++ cs2))
                     ++ bytes_of (formClose (randomBoundary rnd)), EOF, s)).
Proof.
  intros Hok Hnd Hn Hfuel.
  destruct (Original_appends fs rnd h0 (cs1 ++ cs2) req2 fuel n Hok Hnd Hn Hfuel)
    as (rets & mr & h & s & Hrun & _ & _ & Hlen & Hs).
  rewrite run_app in Hrun.
  destruct (run fs cs1 _ _) as [[[rets1 mr1] h1]|]; [| done].
  destruct (run fs cs2 mr1 h1) as [[[rets2 mr2] h2]|] eqn:Hrun2; [| done].
  injection Hrun as _ <- <-.
  apply Forall_app in Hok as [_ Hok2].
  pose proof (run_with_cursor _ _ _ _ _ _ _ (Some (MultiReader (readers mr1)))
                (append_ok_is_append _ _ Hok2) Hrun2) as Hrun2'.
  exists rets1, mr1, h1, rets2,
         (with_cursor mr2 (Some (MultiReader (readers mr1)))), h2, s.
  split; [reflexivity |]. split; [exact Hrun2' |].
  split; [reflexivity |]. split; [exact Hlen | exact Hs].
Qed.

Lemma second_SetupHTTPRequest_takes_late_appends_witness :
  exists rets1 mr1 h1 rets2 mr2 h2 s,
    run demo_fs [CallAddReader 0 5]
        (fst (Original.NewMultipartReader demo_rnd demo_heap))
        (snd (Original.NewMultipartReader demo_rnd demo_heap))
    = Some (rets1, mr1, h1)
    /\ run demo_fs [CallAddFormReader "f" "w.txt" 6 1]
           (snd (Original.SetupHTTPRequest demo_req mr1)) h1
       = Some (rets2, mr2, h2)
    /\ Original.drain 400 16 (snd (Original.SetupHTTPRequest demo_req mr2)) h2
       = Some (Some (concat (map (appended_content demo_heap
                                    (randomBoundary demo_rnd)) demo_sources)
                     ++ bytes_of (formClose (randomBoundary demo_rnd)),
                     EOF, s)).
Proof.
  destruct (second_SetupHTTPRequest_takes_late_appends demo_fs demo_rnd
              demo_heap [CallAddReader 0 5] [CallAddFormReader "f" "w.txt" 6 1]
              demo_req demo_req 400 16 demo_sources_ok demo_sources_NoDup)
    as (rets1 & mr1 & h1 & rets2 & mr2 & h2 & s & H1 & H2 & _ & _ & Hs).
  - lia.
  - apply Nat.ltb_lt. vm_compute. reflexivity.
  - exists rets1, mr1, h1, rets2, mr2, h2, s.
    split; [exact H1 |]. split; [exact H2 | exact Hs].
Defined.

(** ** Setting up the request *)

(** X17: [SetupRequest] adds a [Content-Type] header at every call and
    never replaces one.  Whatever calls came before -- a successful
    [SetBoundary] included -- the value is the content type [New]
    derived from the generated boundary; a second [SetupRequest] on the
    same request leaves the assembler and the announced length as the
    first one did and the header in the request twice. *)
Theorem SetupRequest_again_repeats_the_header
    (fs : FileSystem) (rnd : nat -> byte) (h0 : Heap) (cs : list Call)
    (rets : list Returned) (mr : MultipartReader) (h : Heap) (req : Request) :
  run fs cs (fst (New rnd h0)) (snd (New rnd h0)) = Some (rets, mr, h) ->
  let first := SetupRequest req mr in
  let second := SetupRequest (fst first) (snd first) in
  Header (fst first)
  = Header req
    ++ [("Content-Type", "multipart/form-data; boundary=" +:+ randomBoundary rnd)]
  /\ Header (fst second)
     = Header req
       ++ [("Content-Type",
            "multipart/form-data; boundary=" +:+ randomBoundary rnd);
           ("Content-Type",
            "multipart/form-data; boundary=" +:+ randomBoundary rnd)]
  /\ snd second = snd first
  /\ ContentLength (fst second) = ContentLength (fst first)
  /\ Body (fst second) = Some NopCloser_multiReader.
Proof.
  intros Hrun first second.
  destruct (run_step _ _ _ _ _ _ _ Hrun) as [(_ & Hct & _) _].
  rewrite New_eq in Hct. cbn [fst contentType] in Hct.
  unfold second, first, SetupRequest, GetCloseReader, GetMultiReader.
  destruct (multiReader mr) as [rs|] eqn:Hc;
    cbn [fst snd Header ContentLength Body multiReader contentType length_];
    rewrite ?Hc;
    cbn [fst snd Header ContentLength Body multiReader contentType length_];
    rewrite Hct, <- ?app_assoc; done.
Qed.

Lemma SetupRequest_again_repeats_the_header_witness :
  exists rets mr h,
    run demo_fs [CallSetBoundary "abc"; CallAddReader 0 5]
        (fst (New demo_rnd demo_heap)) (snd (New demo_rnd demo_heap))
    = Some (rets, mr, h)
    /\ Header (fst (SetupRequest (fst (SetupRequest demo_req mr))
                                 (snd (SetupRequest demo_req mr))))
       = [("Content-Type",
           "multipart/form-data; boundary=" +:+ randomBoundary demo_rnd);
          ("Content-Type",
           "multipart/form-data; boundary=" +:+ randomBoundary demo_rnd)].
Proof.
  destruct (run demo_fs [CallSetBoundary "abc"; CallAddReader 0 5]
              (fst (New demo_rnd demo_heap)) (snd (New demo_rnd demo_heap)))
    as [[[rets mr] h]|] eqn:Hrun; [| by vm_compute in Hrun].
  exists rets, mr, h. split; [reflexivity |].
  destruct (SetupRequest_again_repeats_the_header demo_fs demo_rnd demo_heap
              _ rets mr h demo_req Hrun) as (_ & Htwice & _).
  exact Htwice.
Defined.

(** ** [AddValuesReader] on a closed file *)

Lemma Copy_to_part_closed (wr : Writer) (r : addr) (h : Heap)
    (name : string) (data : list byte) (off : nat) :
  h !! r = Some (File name data off true) ->
  Copy_to_part wr r h = Some (Some (ErrClosed "read" name), h).
Proof. intros Hr. unfold Copy_to_part. by rewrite Hr. Qed.

Lemma file_Close_closed (h : Heap) (f : addr) (name : string)
    (data : list byte) (off : nat) :
  h !! f = Some (File name data off true) -> file_Close h f = h.
Proof. intros Hf. unfold file_Close. rewrite Hf. by apply list_insert_id. Qed.

(** The copying loop when the value after [pre] is a file that is
    already closed. *)
Lemma AddValuesReader_loop_closed (pre post : list (string * addr))
    (key : string) (f : addr) (name : string) (data : list byte) (off : nat)
    (wr : Writer) (h : Heap) (buf : list byte) :
  h !! w wr = Some (BytesBuffer buf) ->
  NoDup (map snd pre) ->
  Forall (fun kr => live h (snd kr) /\ snd kr <> w wr) pre ->
  f ∉ map snd pre ->
  h !! f = Some (File name data off true) ->
  exists wr' h',
    AddValuesReader_loop (pre ++ (key, f) :: post) wr h
    = Some (Some (ErrClosed "read" name), wr', h')
    /\ h' !! w wr
       = Some (BytesBuffer
                 (buf ++ values_encoding h (w_boundary wr) (started wr) pre
                      ++ value_header h (w_boundary wr)
                           (match pre with [] => started wr | _ => true end)
                           key f))
    /\ length h' = length h
    /\ (forall a, a <> w wr -> a ∉ map snd pre -> h' !! a = h !! a)
    /\ (forall r, r ∈ map snd pre -> content h' r = []).
Proof.
  revert wr h buf.
  induction pre as [|[k r] rest IH]; intros wr h buf Hb Hnd Hall Hf Hfile.
  - assert (Hfw : f <> w wr) by (intros ->; congruence).
    cbn [app AddValuesReader_loop].
    rewrite (created_part_spec key f wr h buf Hb).
    assert (Hfile1 : <[w wr := BytesBuffer
                        (buf ++ value_header h (w_boundary wr) (started wr)
                                             key f)]> h !! f
                     = Some (File name data off true)).
    { by rewrite list_lookup_insert_ne. }
    rewrite (Copy_to_part_closed _ f _ name data off Hfile1).
    rewrite (file_Close_closed _ f name data off Hfile1).
    eexists _, _. split; [reflexivity |]. cbn [values_encoding app].
    split; [| split; [| split]].
    + apply list_lookup_insert_eq. by eapply lookup_lt_Some.
    + apply length_insert.
    + intros a Haw _. by rewrite list_lookup_insert_ne.
    + intros r Hr. by apply elem_of_nil in Hr.
  - cbn [map snd] in Hnd, Hf. apply NoDup_cons in Hnd as [Hnotin Hnd].
    apply not_elem_of_cons in Hf as [Hfr Hf].
    apply Forall_cons in Hall as [[(o & Ho & He) Hne] Hall]. cbn [snd] in *.
    assert (Hfw : f <> w wr) by (intros ->; congruence).
    assert (Hwlt : w wr < length h) by by eapply lookup_lt_Some.
    assert (Hrlt : r < length h) by by eapply lookup_lt_Some.
    rewrite <- app_comm_cons. cbn [AddValuesReader_loop].
    rewrite (created_part_spec k r wr h buf Hb).
    erewrite Copy_to_part_spec;
      [| reflexivity
       | cbn [w]; rewrite list_lookup_insert_ne by done; exact Ho
       | exact He | exact Hne
       | cbn [w]; by apply list_lookup_insert_eq].
    cbn [w]. rewrite list_insert_insert_eq.
    set (B2 := buf ++ value_part h (w_boundary wr) (started wr) k r).
    assert (HB2 : (buf ++ value_header h (w_boundary wr) (started wr) k r)
                  ++ remaining o = B2).
    { unfold B2, value_part, content. by rewrite Ho, <- app_assoc. }
    rewrite HB2.
    set (h2 := <[r := exhaust o]> (<[w wr := BytesBuffer B2]> h)).
    assert (Hsame2 : forall a, a <> r -> a <> w wr -> h2 !! a = h !! a).
    { intros a Har Haw. unfold h2. by rewrite !list_lookup_insert_ne. }
    destruct (IH {| w := w wr; w_boundary := w_boundary wr;
                    lastpart := Some {| closed := false |} |} h2 B2)
      as (wr3 & h3 & Hloop & Hb3 & Hlen3 & Hframe3 & Hex3).
    { cbn [w]. unfold h2. rewrite list_lookup_insert_ne by done.
      apply list_lookup_insert_eq. done. }
    { done. }
    { apply Forall_forall. intros [k' r'] Hin.
      apply (proj1 (Forall_forall _ _) Hall) in Hin as Hlive.
      destruct Hlive as [(o' & Ho' & He') Hne']. cbn [snd w] in *.
      split; [| done]. exists o'. split; [| done].
      rewrite Hsame2; [done | | done].
      intros ->. apply Hnotin. apply list_elem_of_fmap.
      exists (k', r). split; [done | exact Hin]. }
    { exact Hf. }
    { rewrite Hsame2; done. }
    cbn [w w_boundary started lastpart] in *. rewrite Hloop.
    exists wr3, (file_Close h3 r).
    split; [reflexivity |]. split; [| split; [| split]].
    + rewrite file_Close_other by (intros Heq; by apply Hne).
      rewrite Hb3. do 2 f_equal. unfold B2. rewrite <- !app_assoc.
      cbn [values_encoding]. rewrite <- !app_assoc. do 2 f_equal.
      f_equal.
      * apply values_encoding_ext. intros r' Hr'. apply Hsame2.
        -- intros ->. by apply Hnotin.
        -- intros Heq. apply list_elem_of_fmap in Hr' as ([k' r''] & Hk & Hin).
           apply (proj1 (Forall_forall _ _) Hall) in Hin as [_ Hx].
           apply Hx. by rewrite <- Hk.
      * unfold value_header, is_File. rewrite Hsame2 by done.
        by destruct rest.
    + rewrite length_file_Close, Hlen3. unfold h2.
      by rewrite !length_insert.
    + intros a Haw Hnot. cbn [map snd] in Hnot.
      apply not_elem_of_cons in Hnot as [Har Hnot].
      rewrite file_Close_other by done.
      rewrite Hframe3 by done. by apply Hsame2.
    + intros r' Hr'. rewrite content_file_Close.
      cbn [map snd] in Hr'. apply elem_of_cons in Hr' as [->|Hr'].
      * unfold content. rewrite Hframe3 by done. unfold h2.
        rewrite list_lookup_insert_eq by (by rewrite length_insert).
        apply remaining_exhaust.
      * by apply Hex3.
Qed.


